(** * Batch dispatch and submission monitoring of the fax batch sender

    A shallow embedding of [src/services/batchProcessor.js] (the batch
    dispatcher [_processBatch], the per-unit call [_sendSingleFax] and the
    per-submission monitor [_monitorFax]), of the persistence calls of
    [src/database/db.js] they use ([createSubmission], [updateSubmission],
    [updateMetrics]), of [startBatch] with the renderer's form check and the
    web server's route in front of it, and the properties of the
    specification stated over them.

    Conventions.
    - JavaScript numbers that hold counts, indices and millisecond clock
      readings are integers and are modelled in [Z].
    - An awaited call of a collaborator (fax API, database, event listeners)
      either resolves or throws; what it answers is an input of the model
      (the records [Monitor.poll], [Dispatcher.environment], [Start.world]).
    - The code between two [await]s runs without interruption (one thread,
      cooperative scheduling). The dispatcher, the calls of the units and the
      monitors are tasks of a transition system; which task resumes next is
      the only choice left open, and a property of "every point of a batch"
      is a property of every reachable state.
    - [emit] calls the listeners of the event one after the other: a
      listener that throws makes [emit] throw, inside the [try] block it is
      in, after the event has reached the listeners before it; the event
      counts as emitted.
    - The columns of [fax_metrics] are of type INTEGER: a statement whose
      values or sums leave the 32-bit range fails and changes nothing.
    - Logging has no effect on the state and is left out.

    Further parts of the code are embedded beside them: the statement
    splitter and the transaction of [initializeDatabase] and the statement
    builders of [updateBatch] and [updateSubmission] ([src/database/db.js]),
    [login] of the fax API client, the hourly and daily aggregation of
    [src/services/metricsCollector.js], and the activity log of the renderer.

    The model comes first (modules [Js], [Monitor], [Db], [Dispatcher],
    [Start], [Metrics], [JsString], [Schema], [Initialize], [Sql], [FaxApi],
    [Collector], [Renderer]), the properties after it (modules [MonitorFacts], [DbFacts],
    [DispatcherFacts], [StartFacts], [MetricsFacts], [JsStringFacts],
    [SchemaFacts], [InitializeFacts], [SqlFacts], [FaxApiFacts],
    [CollectorFacts], [RendererFacts]). *)

From Stdlib Require Import ZArith String Ascii List Lia Permutation.
From stdpp Require Import base gmap list pretty.
Import ListNotations.

(** ** JavaScript helpers *)

Module Js.

Local Open Scope Z_scope.

(** [Math.round(d / 1000) * 1000] on an integer number of milliseconds.
    [Math.round] rounds to the nearest integer, a tie towards plus infinity,
    which on the quotient of an integer by 1000 is [floor ((d + 500) / 1000)]. *)
Definition round_to_seconds (d : Z) : Z := (d + 500) / 1000 * 1000.

(** [Math.ceil(n / c)] on integers, [c] not zero: minus the floor of the
    opposite quotient ([Z.div] rounds towards minus infinity). *)
Definition Math_ceil_div (n c : Z) : Z := - ((- n) / c).

(** [parseInt(value) || d] on an environment variable: its integer value, or
    [d] when it is unset or not a number ([None]) or 0, the falsy cases. *)
Definition parseInt_or (value : option Z) (d : Z) : Z :=
  match value with
  | Some v => if v =? 0 then d else v
  | None => d
  end.

(** [!x] on a value that is [null] or a number: [null] and [0] are falsy. *)
Definition falsy (x : option Z) : bool :=
  match x with
  | None => true
  | Some v => v =? 0
  end.

Definition lower_ascii (c : ascii) : ascii :=
  let n := nat_of_ascii c in
  if ((65 <=? n)%nat && (n <=? 90)%nat)%bool then ascii_of_nat (n + 32) else c.

(** [s.toLowerCase()] on ASCII text. *)
Fixpoint toLowerCase (s : string) : string :=
  match s with
  | EmptyString => EmptyString
  | String c s' => String (lower_ascii c) (toLowerCase s')
  end.

End Js.

(** ** The submission monitor: [_monitorFax] *)

Module Monitor.

Import Js.
Local Open Scope Z_scope.
Local Open Scope string_scope.

(** A document of a send job, as [getDocumentsForSendJob] returns it. *)
Record document := {
  Id : string;
  PageCount : Z;
  Condition : string
}.

(** A send job, as [getSendJob] returns it. [Status] is absent when the
    response has no such field; reading [Status.toLowerCase()] then throws. *)
Record send_job := {
  Status : option string;
  job_Condition : string
}.

(** The [updates] object handed to [db.updateSubmission]: a field is [None]
    when the code did not set it. *)
Record updates := {
  status : option string;
  condition : option string;
  document_id : option string;
  page_count : option Z;
  conversion_completed_at : option Z;
  transmission_completed_at : option Z;
  conversion_duration : option Z;
  transmission_duration : option Z;
  total_duration : option Z;
  error_message : option string
}.

(** What the collaborators answer during one iteration of the polling loop.
    A call that throws is [None] (or [false] for a call without a result). *)
Record poll := {
  getSendJob : option send_job;
  getDocumentsForSendJob : option (list document);
  (** [Date.now()] and [new Date()] as read in the Succeeded branch *)
  Date_now : Z;
  new_Date : Z;
  (** [db.updateSubmission] of this iteration resolves *)
  updateSubmission_ok : bool;
  (** the listeners of [faxCompleted] return normally *)
  emit_ok : bool
}.

(** The result of one iteration of the loop body. *)
Inductive iteration :=
  (** the end of the [try] block or the [catch] block was reached: in both
      [attempts++] runs; [persisted] is the update the database accepted *)
| Next (transmissionStartTime : option Z) (persisted : option updates)
  (** [return] from the Succeeded branch *)
| ReturnSent (u : updates)
  (** [return] from the Failed / Canceled branch *)
| ReturnEnded (u : updates).

Definition base_updates (st : string) (cond : string) : updates :=
  {| status := Some (toLowerCase st); condition := Some cond;
     document_id := None; page_count := None;
     conversion_completed_at := None; transmission_completed_at := None;
     conversion_duration := None; transmission_duration := None;
     total_duration := None; error_message := None |}.

Definition with_document (u : updates) (doc : document) : updates :=
  {| status := status u; condition := condition u;
     document_id := Some (Id doc); page_count := Some (PageCount doc);
     conversion_completed_at := conversion_completed_at u;
     transmission_completed_at := transmission_completed_at u;
     conversion_duration := conversion_duration u;
     transmission_duration := transmission_duration u;
     total_duration := total_duration u; error_message := error_message u |}.

Definition with_status (u : updates) (s : string) : updates :=
  {| status := Some s; condition := condition u;
     document_id := document_id u; page_count := page_count u;
     conversion_completed_at := conversion_completed_at u;
     transmission_completed_at := transmission_completed_at u;
     conversion_duration := conversion_duration u;
     transmission_duration := transmission_duration u;
     total_duration := total_duration u; error_message := error_message u |}.

(** The assignments of the Succeeded branch. *)
Definition sent_updates (u : updates) (conversionStartTime transmissionStartTime now date : Z)
  : updates :=
  {| status := Some "sent"; condition := condition u;
     document_id := document_id u; page_count := page_count u;
     conversion_completed_at := Some (conversionStartTime + 5000);
     transmission_completed_at := Some date;
     conversion_duration :=
       Some (round_to_seconds (transmissionStartTime - conversionStartTime));
     transmission_duration := Some (round_to_seconds (now - transmissionStartTime));
     total_duration := Some (now - conversionStartTime);
     error_message := error_message u |}.

(** The update after the loop. *)
Definition timeout_updates : updates :=
  {| status := Some "timeout"; condition := None;
     document_id := None; page_count := None;
     conversion_completed_at := None; transmission_completed_at := None;
     conversion_duration := None; transmission_duration := None;
     total_duration := None;
     error_message := Some "Monitoring timeout - fax status unknown" |}.

(** The last statement of the [try] block when no branch returned:
    [await db.updateSubmission(faxHandle, updates); attempts++]. *)
Definition persist_and_continue (tst : option Z) (u : updates) (p : poll) : iteration :=
  if updateSubmission_ok p then Next tst (Some u) else Next tst None.

(** The body of [while (attempts < maxAttempts) { try { ... } catch { ... } }].
    [_storeActivities] catches its own errors and touches neither the loop
    variables nor the submission row; it is left out. *)
Definition loop_body (conversionStartTime : Z) (transmissionStartTime : option Z) (p : poll)
  : iteration :=
  match getSendJob p with
  | None => Next transmissionStartTime None
  | Some sendJob =>
    match Status sendJob with
    | None => Next transmissionStartTime None
    | Some st =>
      let updates := base_updates st (job_Condition sendJob) in
      match getDocumentsForSendJob p with
      | None => Next transmissionStartTime None
      | Some [] => persist_and_continue transmissionStartTime updates p
      | Some (doc :: _) =>
        let updates := with_document updates doc in
        if String.eqb (Condition doc) "Succeeded" then
          let now := Date_now p in
          let tst := if falsy transmissionStartTime then now
                     else default now transmissionStartTime in
          let updates := sent_updates updates conversionStartTime tst now (new_Date p) in
          if updateSubmission_ok p then
            if emit_ok p then ReturnSent updates else Next (Some tst) (Some updates)
          else Next (Some tst) None
        else if (String.eqb (Condition doc) "Failed" || String.eqb (Condition doc) "Canceled")%bool then
          let updates := with_status updates (toLowerCase (Condition doc)) in
          if updateSubmission_ok p then
            if emit_ok p then ReturnEnded updates else Next transmissionStartTime (Some updates)
          else Next transmissionStartTime None
        else persist_and_continue transmissionStartTime updates p
      end
    end
  end.

(** How a run of the monitor ends. *)
Inductive ending :=
| Sent (u : updates)
| Ended (u : updates)
  (** the loop was left at the ceiling; [u] is the update issued after it,
      which the database accepted *)
| TimedOut (u : updates)
  (** the loop was left at the ceiling and the update issued after it, [u],
      threw: it is outside every [try], so the promise of [_monitorFax]
      rejects (the caller's [catch] logs the error) and nothing is written *)
| Threw (u : updates).

(** The variables of the loop: [k] counts the times the loop body was entered
    ([polls k] is what the collaborators answer in iteration [k]), [accepted]
    collects the updates the database accepted inside the loop, latest first. *)
Record vars := {
  k : nat;
  attempts : nat;
  transmissionStartTime : option Z;
  accepted : list updates
}.

Record run := {
  iterations : nat;
  accepted_updates : list updates;
  final : ending
}.

Inductive progress :=
| Polling (v : vars)
| Returned (r : run).

(** One evaluation of [while (attempts < maxAttempts)] and, when the test
    holds, of the loop body; when it fails, of the statement after the loop,
    [await db.updateSubmission(faxHandle, { status: 'timeout', ... })], to
    which the database answers as [polls (k v)] tells (no iteration reads
    that poll). The second component is the update the database accepted in
    this step. *)
Definition loop_step (maxAttempts : nat) (conversionStartTime : Z) (polls : nat -> poll)
    (v : vars) : progress * option updates :=
  if (attempts v <? maxAttempts)%nat then
    match loop_body conversionStartTime (transmissionStartTime v) (polls (k v)) with
    | Next tst persisted =>
      (Polling {| k := S (k v); attempts := S (attempts v);
                  transmissionStartTime := tst;
                  accepted := match persisted with
                              | Some u => u :: accepted v
                              | None => accepted v
                              end |}, persisted)
    | ReturnSent u =>
      (Returned {| iterations := S (k v); accepted_updates := accepted v; final := Sent u |},
       Some u)
    | ReturnEnded u =>
      (Returned {| iterations := S (k v); accepted_updates := accepted v; final := Ended u |},
       Some u)
    end
  else if updateSubmission_ok (polls (k v)) then
    (Returned {| iterations := k v; accepted_updates := accepted v;
                 final := TimedOut timeout_updates |}, Some timeout_updates)
  else
    (Returned {| iterations := k v; accepted_updates := accepted v;
                 final := Threw timeout_updates |}, None).

(** How the monitor ends when the loop is left at the ceiling, by the
    database's answer to the update after the loop. *)
Definition ceiling_ending (p : poll) : ending :=
  if updateSubmission_ok p then TimedOut timeout_updates else Threw timeout_updates.

(** The run left the loop at the ceiling. *)
Definition at_ceiling (r : run) : bool :=
  match final r with
  | TimedOut _ | Threw _ => true
  | Sent _ | Ended _ => false
  end.

(** The loop of [_monitorFax]. The recursion is on [fuel]; a loop that has none
    left has no result. *)
Fixpoint monitor_loop (fuel : nat) (maxAttempts : nat) (conversionStartTime : Z)
    (polls : nat -> poll) (v : vars) : option run :=
  match fuel with
  | O => None
  | S fuel' =>
    match fst (loop_step maxAttempts conversionStartTime polls v) with
    | Polling v' => monitor_loop fuel' maxAttempts conversionStartTime polls v'
    | Returned r => Some r
    end
  end.

(** [_monitorFax(faxHandle, submissionId)]: [maxAttempts = 120], [attempts = 0],
    [conversionStartTime = Date.now()], [transmissionStartTime = null]. *)
Definition maxAttempts : nat := 120.

Definition initial_vars : vars :=
  {| k := 0; attempts := 0; transmissionStartTime := None; accepted := [] |}.

Definition _monitorFax (fuel : nat) (conversionStartTime : Z) (polls : nat -> poll)
  : option run :=
  monitor_loop fuel maxAttempts conversionStartTime polls initial_vars.

(** The iteration goes through the Succeeded branch: both reads resolve and
    the first document's condition is ['Succeeded']. *)
Definition observes_Succeeded (p : poll) : bool :=
  match getSendJob p with
  | Some {| Status := Some _ |} =>
    match getDocumentsForSendJob p with
    | Some (doc :: _) => String.eqb (Condition doc) "Succeeded"
    | _ => false
    end
  | _ => false
  end.

(** The first document, when there is one, carries a terminal condition. *)
Definition terminal_condition (p : poll) : bool :=
  match getDocumentsForSendJob p with
  | Some (doc :: _) =>
    String.eqb (Condition doc) "Succeeded" || String.eqb (Condition doc) "Failed"
    || String.eqb (Condition doc) "Canceled"
  | _ => false
  end.

(** Some call of the iteration throws: a read of the backend, the read of
    [Status], the update of the row, or a listener of [faxCompleted]. *)
Definition throws (p : poll) : bool :=
  match getSendJob p with
  | Some {| Status := Some _ |} =>
    match getDocumentsForSendJob p with
    | Some _ => negb (updateSubmission_ok p) || (terminal_condition p && negb (emit_ok p))
    | None => true
    end
  | _ => true
  end.

(** The iteration reaches [this.emit('faxCompleted', ...)]: both reads
    resolve, the first document's condition is terminal and the update of
    the row resolves. The event is emitted also when a listener of it then
    throws. *)
Definition emits_faxCompleted (p : poll) : bool :=
  match getSendJob p with
  | Some {| Status := Some _ |} => terminal_condition p && updateSubmission_ok p
  | _ => false
  end.

(** Polls of a backend whose only document has condition [cond] when read at
    clock [now]; [db_ok] tells whether the update of the row resolves. *)
Definition poll_document (cond : string) (now : Z) (db_ok : bool) : poll :=
  {| getSendJob := Some {| Status := Some "Active"; job_Condition := "Processing" |};
     getDocumentsForSendJob := Some [{| Id := "doc-1"; PageCount := 1; Condition := cond |}];
     Date_now := now; new_Date := now;
     updateSubmission_ok := db_ok; emit_ok := true |}.

(** Still converting at the first poll, Succeeded at the second. *)
Definition polls_sent_at_second (j : nat) : poll :=
  match j with
  | O => poll_document "Processing" 5000 true
  | _ => poll_document "Succeeded" 10000 true
  end.

(** Succeeded at the first poll, whose update the database rejects, and
    Succeeded again at the second. *)
Definition polls_sent_after_retry (j : nat) : poll :=
  match j with
  | O => poll_document "Succeeded" 5000 false
  | _ => poll_document "Succeeded" 10000 true
  end.

(** The document never leaves ['Processing'] and the database rejects every
    update. *)
Definition polls_database_down (j : nat) : poll := poll_document "Processing" 5000 false.

(** Still converting at the first two polls, canceled at the third. *)
Definition polls_canceled_at_third (j : nat) : poll :=
  match j with
  | O | S O => poll_document "Processing" 5000 true
  | _ => poll_document "Canceled" 15000 true
  end.

End Monitor.

(** ** The persistence calls of [db.js] used by the dispatcher *)

Module Db.

Local Open Scope Z_scope.
Local Open Scope string_scope.

(** A fax handle: the send job id the backend assigned, or the text
    [failed-${Date.now()}-${submissionNumber}] built when the creation failed.
    The two kinds are kept apart: no send job id has the form of the second. *)
Inductive handle :=
| JobHandle (sendJobId : string)
| FailedHandle (now : Z) (submissionNumber : Z).

(** [recipientName || `Recipient ${submissionNumber}`]. *)
Inductive recipient :=
| Named (recipientName : string)
| Numbered (submissionNumber : Z).

Definition handle_eqb (a b : handle) : bool :=
  match a, b with
  | JobHandle x, JobHandle y => String.eqb x y
  | FailedHandle t n, FailedHandle t' n' => ((t =? t')%Z && (n =? n')%Z)%bool
  | _, _ => false
  end.

(** The object handed to [db.createSubmission]. *)
Record submissionData := {
  batch_id : Z;
  fax_handle : handle;
  send_job_id : option string;
  destination_number : string;
  recipient_name : recipient;
  status : string;
  priority : string;
  billing_code1 : option string;
  billing_code2 : option string;
  error_message : option string
}.

(** A row of [fax_submissions]: the columns the dispatcher and the monitor
    write. *)
Record submission := {
  row_batch_id : Z;
  row_fax_handle : handle;
  row_send_job_id : option string;
  row_document_id : option string;
  row_destination_number : string;
  row_recipient_name : recipient;
  row_status : string;
  row_condition : option string;
  row_priority : string;
  row_page_count : option Z;
  row_conversion_completed_at : option Z;
  row_transmission_completed_at : option Z;
  row_conversion_duration : option Z;
  row_transmission_duration : option Z;
  row_total_duration : option Z;
  row_error_message : option string;
  row_billing_code1 : option string;
  row_billing_code2 : option string
}.

(** [createSubmission]: the INSERT names batch_id, fax_handle, send_job_id,
    document_id, destination_number, recipient_name, status, priority,
    billing_code1 and billing_code2; every other column takes its default
    (NULL for the error message, whatever [submissionData] carries). *)
Definition createSubmission (d : submissionData) : submission :=
  {| row_batch_id := batch_id d;
     row_fax_handle := fax_handle d;
     row_send_job_id := send_job_id d;
     row_document_id := None;
     row_destination_number := destination_number d;
     row_recipient_name := recipient_name d;
     row_status := status d;
     row_condition := None;
     row_priority := priority d;
     row_page_count := None;
     row_conversion_completed_at := None;
     row_transmission_completed_at := None;
     row_conversion_duration := None;
     row_transmission_duration := None;
     row_total_duration := None;
     row_error_message := None;
     row_billing_code1 := billing_code1 d;
     row_billing_code2 := billing_code2 d |}.

Definition set_column {A} (new : option A) (old : option A) : option A :=
  match new with
  | Some v => Some v
  | None => old
  end.

(** One row under [UPDATE fax_submissions SET k = v, ...]: a column is set for
    each key present in [updates]. *)
Definition update_row (u : Monitor.updates) (r : submission) : submission :=
  {| row_batch_id := row_batch_id r;
     row_fax_handle := row_fax_handle r;
     row_send_job_id := row_send_job_id r;
     row_document_id := set_column (Monitor.document_id u) (row_document_id r);
     row_destination_number := row_destination_number r;
     row_recipient_name := row_recipient_name r;
     row_status := default (row_status r) (Monitor.status u);
     row_condition := set_column (Monitor.condition u) (row_condition r);
     row_priority := row_priority r;
     row_page_count := set_column (Monitor.page_count u) (row_page_count r);
     row_conversion_completed_at :=
       set_column (Monitor.conversion_completed_at u) (row_conversion_completed_at r);
     row_transmission_completed_at :=
       set_column (Monitor.transmission_completed_at u) (row_transmission_completed_at r);
     row_conversion_duration :=
       set_column (Monitor.conversion_duration u) (row_conversion_duration r);
     row_transmission_duration :=
       set_column (Monitor.transmission_duration u) (row_transmission_duration r);
     row_total_duration := set_column (Monitor.total_duration u) (row_total_duration r);
     row_error_message := set_column (Monitor.error_message u) (row_error_message r);
     row_billing_code1 := row_billing_code1 r;
     row_billing_code2 := row_billing_code2 r |}.

(** [updateSubmission(faxHandle, updates)]: [... WHERE fax_handle = $n]. *)
Definition updateSubmission (faxHandle : handle) (u : Monitor.updates)
    (rows : list submission) : list submission :=
  map (fun r => if handle_eqb (row_fax_handle r) faxHandle then update_row u r else r) rows.

(** A row of [fax_batches]: its id, the counters and the status (the name,
    owner, file and timestamps play no part in the dispatch). *)
Record batch := {
  id : Z;
  total_faxes : Z;
  completed_faxes : Z;
  failed_faxes : Z;
  batch_status : string
}.

(** [createBatch]: the counters take their default 0 and the status is
    ['pending']. *)
Definition createBatch (new_id : Z) (total : Z) : batch :=
  {| id := new_id; total_faxes := total; completed_faxes := 0; failed_faxes := 0;
     batch_status := "pending" |}.

(** [updateBatch(batchId, { status: 'failed' })] on the row of the batch:
    [UPDATE fax_batches SET status = $1] leaves the counters. *)
Definition mark_failed (b : batch) : batch :=
  {| id := id b; total_faxes := total_faxes b; completed_faxes := completed_faxes b;
     failed_faxes := failed_faxes b; batch_status := "failed" |}.

End Db.

(** ** The batch dispatcher: [_processBatch] and [_sendSingleFax] *)

Module Dispatcher.

Import Js.
Local Open Scope string_scope.
Local Open Scope Z_scope.

(** An awaited call settles: it resolves with a value or throws an error,
    of which the code reads [error.message]. *)
Inductive outcome (A : Type) :=
| Resolves (a : A)
| Throws (message : string).
Arguments Resolves {A} a.
Arguments Throws {A} message.

(** The fields of the [BatchProcessor] and of [currentBatch] that stay fixed
    while a batch is processed. *)
Record settings := {
  (** [parseInt(process.env.MAX_CONCURRENT_FAXES) || 10] *)
  maxConcurrent : Z;
  (** [parseInt(process.env.BATCH_SIZE) || 100] *)
  batchSize : Z;
  batchId : Z;
  totalCount : Z;
  destinationNumber : string;
  (** [None] when the name is empty or absent (a falsy value) *)
  recipientName : option string;
  priority : string;
  billingCode1 : option string;
  billingCode2 : option string
}.

(** What the collaborators answer, by the submission number of the unit
    whose call it is. The listeners of an event run inside [emit]: one that
    throws makes [emit] throw, after the event has reached the listeners
    before it. *)
Record environment := {
  (** the listeners of [uploadingFile] and of [fileUploaded] *)
  emit_uploadingFile : outcome unit;
  uploadAttachment : outcome string;
  emit_fileUploaded : outcome unit;
  (** the listeners of [chunkStarted] and of [chunkCompleted], by the
      [chunkIndex] the event carries *)
  emit_chunkStarted : Z -> outcome unit;
  emit_chunkCompleted : Z -> outcome unit;
  createSendJob : Z -> outcome string;
  (** [db.createSubmission] in the [try] block: the new row's id *)
  createSubmission_converting : Z -> outcome Z;
  (** the listeners of [faxSubmitted] *)
  emit_faxSubmitted : Z -> outcome unit;
  (** [Date.now()] in the [catch] block *)
  Date_now : Z -> Z;
  (** [db.createSubmission] in the [catch] block *)
  createSubmission_failed : Z -> outcome Z;
  (** [Date.now()] at the start of the unit's monitor, and its polls *)
  conversionStartTime : Z -> Z;
  polls : Z -> nat -> Monitor.poll;
  updateBatch_completed : outcome unit;
  (** the listeners of [batchCompleted] *)
  emit_batchCompleted : outcome unit;
  updateBatch_failed : outcome unit;
  (** the listeners of [batchFailed] *)
  emit_batchFailed : outcome unit
}.

(** The events emitted, with the fields of their payloads the properties read
    (the batch id, repeated in every payload, is kept in the first three
    only; [faxCompleted] also carries the status and the total duration). *)
Inductive event :=
| batchStarted (batchId totalCount : Z)
| uploadingFile (batchId : Z)
| fileUploaded (batchId : Z) (attachmentUrl : string)
| chunkStarted (chunkIndex totalChunks chunkSize : Z)
| chunkCompleted (chunkIndex totalChunks processedCount failedCount : Z)
| faxSubmitted (submissionNumber : Z) (sendJobId : string) (submissionId processedCount : Z)
| faxFailed (submissionNumber : Z) (error : string)
| faxCompleted (faxHandle : string) (submissionId : Z)
| batchCompleted (totalCount successCount failedCount : Z)
| batchFailed (error : string)
| batchError (error : string).

(** Where [_processBatch] is suspended. Its [emit]s are inside the [try]:
    when a listener throws, the [catch] block is entered and its update is
    awaited ([AwaitUpdateFailed], with the listener's message). *)
Inductive dispatcher :=
  (** [await this.faxApi.uploadAttachment(filePath)]; when a listener of
      [uploadingFile] threw, the upload was not called and the step from
      here enters the [catch] block *)
| AwaitUpload
  (** in chunk [chunkIndex], before iteration [i] of the inner loop, at
      [while (this.activeRequests.size >= this.maxConcurrent)]; once the inner
      loop is over, at [await Promise.allSettled(promises)] *)
| InChunk (chunkIndex i : Z) (promises : list Z)
  (** [await db.updateBatch(batchId, { status: 'completed', ... })] *)
| AwaitUpdateCompleted
  (** in the [catch] block: [await db.updateBatch(batchId, { status: 'failed', ... })] *)
| AwaitUpdateFailed (message : string)
| Done.

(** Where the [_sendSingleFax] call of a unit is suspended. *)
Inductive task :=
  (** [await this.faxApi.createSendJob(...)]: the creation call is in flight *)
| AwaitCreateSendJob
  (** [await db.createSubmission(...)] in the [try] block *)
| AwaitCreateSubmission (sendJobId : string)
  (** [await db.createSubmission(...)] in the [catch] block *)
| AwaitCreateFailedSubmission (message : string)
  (** the promise has settled: it is fulfilled with [{ success, ... }]. (A
      listener of [faxFailed] that throws out of the [catch] block leaves
      the promise rejected instead of fulfilled with [success: false];
      [Promise.allSettled] and [finally] treat the two alike, and the
      counters, the rows and the events are the same: [Settled false]
      stands for both.) *)
| Settled (success : bool).

#[global] Instance task_eq_dec : EqDecision task.
Proof. solve_decision. Defined.

(** A monitor started by [this._monitorFax(faxHandle, submissionId)]. *)
Record monitor := {
  faxHandle : string;
  submissionId : Z;
  started_at : Z;
  progress : Monitor.progress
}.

(** The state of one batch: the dispatcher, the promises in
    [this.activeRequests] and the [_sendSingleFax] calls (both by submission
    number), the monitors, the counters of [currentBatch], the batch's row,
    the rows of [fax_submissions] (latest first, each with the submission
    number of the unit whose call inserted it) and the events emitted (latest
    first). *)
Record state := {
  pc : dispatcher;
  activeRequests : gset Z;
  tasks : gmap Z task;
  monitors : gmap Z monitor;
  processedCount : Z;
  failedCount : Z;
  batch : Db.batch;
  fax_submissions : list (Z * Db.submission);
  emitted : list event
}.

Definition with_pc (s : state) (d : dispatcher) : state :=
  {| pc := d; activeRequests := activeRequests s; tasks := tasks s;
     monitors := monitors s; processedCount := processedCount s;
     failedCount := failedCount s; batch := batch s;
     fax_submissions := fax_submissions s; emitted := emitted s |}.

Definition with_activeRequests (s : state) (a : gset Z) : state :=
  {| pc := pc s; activeRequests := a; tasks := tasks s;
     monitors := monitors s; processedCount := processedCount s;
     failedCount := failedCount s; batch := batch s;
     fax_submissions := fax_submissions s; emitted := emitted s |}.

Definition with_task (s : state) (u : Z) (t : task) : state :=
  {| pc := pc s; activeRequests := activeRequests s; tasks := <[u := t]> (tasks s);
     monitors := monitors s; processedCount := processedCount s;
     failedCount := failedCount s; batch := batch s;
     fax_submissions := fax_submissions s; emitted := emitted s |}.

Definition with_monitor (s : state) (u : Z) (m : monitor) : state :=
  {| pc := pc s; activeRequests := activeRequests s; tasks := tasks s;
     monitors := <[u := m]> (monitors s); processedCount := processedCount s;
     failedCount := failedCount s; batch := batch s;
     fax_submissions := fax_submissions s; emitted := emitted s |}.

Definition with_counts (s : state) (processed failed : Z) : state :=
  {| pc := pc s; activeRequests := activeRequests s; tasks := tasks s;
     monitors := monitors s; processedCount := processed;
     failedCount := failed; batch := batch s;
     fax_submissions := fax_submissions s; emitted := emitted s |}.

Definition with_batch (s : state) (b : Db.batch) : state :=
  {| pc := pc s; activeRequests := activeRequests s; tasks := tasks s;
     monitors := monitors s; processedCount := processedCount s;
     failedCount := failedCount s; batch := b;
     fax_submissions := fax_submissions s; emitted := emitted s |}.

Definition with_fax_submissions (s : state) (rows : list (Z * Db.submission)) : state :=
  {| pc := pc s; activeRequests := activeRequests s; tasks := tasks s;
     monitors := monitors s; processedCount := processedCount s;
     failedCount := failedCount s; batch := batch s;
     fax_submissions := rows; emitted := emitted s |}.

Definition emit (e : event) (s : state) : state :=
  {| pc := pc s; activeRequests := activeRequests s; tasks := tasks s;
     monitors := monitors s; processedCount := processedCount s;
     failedCount := failedCount s; batch := batch s;
     fax_submissions := fax_submissions s; emitted := e :: emitted s |}.

Section Batch.

Variable cfg : settings.
Variable env : environment.

(** [Math.ceil(totalCount / this.batchSize)] and the bounds of a chunk. *)
Definition chunks : Z := Math_ceil_div (totalCount cfg) (batchSize cfg).
Definition chunkStart (chunkIndex : Z) : Z := chunkIndex * batchSize cfg.
Definition chunkEnd (chunkIndex : Z) : Z :=
  Z.min (chunkStart chunkIndex + batchSize cfg) (totalCount cfg).
Definition chunkSize (chunkIndex : Z) : Z := chunkEnd chunkIndex - chunkStart chunkIndex.

(** The state in which [startBatch] leaves the batch when it calls
    [_processBatch], run up to the upload: the row is ['processing'],
    [batchStarted] and [uploadingFile] are emitted. *)
Definition initial : state :=
  {| pc := AwaitUpload; activeRequests := ∅; tasks := ∅; monitors := ∅;
     processedCount := 0; failedCount := 0;
     batch := {| Db.id := batchId cfg; Db.total_faxes := totalCount cfg;
                 Db.completed_faxes := 0; Db.failed_faxes := 0;
                 Db.batch_status := "processing" |};
     fax_submissions := [];
     emitted := [uploadingFile (batchId cfg); batchStarted (batchId cfg) (totalCount cfg)] |}.

(** The head of [for (chunkIndex ...; chunkIndex < chunks; ...)]: the next
    chunk is announced, or the loop is left for the final update. *)
Definition chunk_loop (chunkIndex : Z) (s : state) : state :=
  if chunkIndex <? chunks then
    let s := emit (chunkStarted (chunkIndex + 1) chunks (chunkSize chunkIndex)) s in
    match emit_chunkStarted env (chunkIndex + 1) with
    | Resolves _ => with_pc s (InChunk chunkIndex 0 [])
    | Throws message => with_pc s (AwaitUpdateFailed message)
    end
  else with_pc s AwaitUpdateCompleted.

Definition settled (s : state) (u : Z) : bool :=
  match tasks s !! u with
  | Some (Settled _) => true
  | _ => false
  end.

Definition recipient_of (submissionNumber : Z) : Db.recipient :=
  match recipientName cfg with
  | Some name => Db.Named name
  | None => Db.Numbered submissionNumber
  end.

(** The [catch] block of [_sendSingleFax], up to its [await] (when no row was
    created yet) or to its [return]. *)
Definition catch_block (submissionNumber : Z) (submissionId : option Z) (message : string)
    (s : state) : state :=
  let s := with_counts s (processedCount s) (failedCount s + 1) in
  match submissionId with
  | None => with_task s submissionNumber (AwaitCreateFailedSubmission message)
  | Some _ =>
    with_task (emit (faxFailed submissionNumber message) s) submissionNumber (Settled false)
  end.

(** The object of the [try] block's [db.createSubmission]. *)
Definition converting_submission (submissionNumber : Z) (sendJobId : string)
  : Db.submissionData :=
  {| Db.batch_id := batchId cfg;
     Db.fax_handle := Db.JobHandle sendJobId;
     Db.send_job_id := Some sendJobId;
     Db.destination_number := destinationNumber cfg;
     Db.recipient_name := recipient_of submissionNumber;
     Db.status := "converting";
     Db.priority := priority cfg;
     Db.billing_code1 := billingCode1 cfg;
     Db.billing_code2 := billingCode2 cfg;
     Db.error_message := None |}.

(** The object of the [catch] block's [db.createSubmission]. *)
Definition failed_submission (submissionNumber : Z) (message : string)
  : Db.submissionData :=
  {| Db.batch_id := batchId cfg;
     Db.fax_handle := Db.FailedHandle (Date_now env submissionNumber) submissionNumber;
     Db.send_job_id := None;
     Db.destination_number := destinationNumber cfg;
     Db.recipient_name := recipient_of submissionNumber;
     Db.status := "failed";
     Db.priority := priority cfg;
     Db.billing_code1 := None;
     Db.billing_code2 := None;
     Db.error_message := Some message |}.

Definition insert_row (submissionNumber : Z) (d : Db.submissionData) (s : state) : state :=
  with_fax_submissions s ((submissionNumber, Db.createSubmission d) :: fax_submissions s).

(** [_processBatch] resumes from its [await] and runs to the next one. The
    inner loop is cut after every call of [_sendSingleFax]: the model lets
    other tasks run between two calls, which the code does not. An [emit]
    of the [try] block whose listener throws enters the [catch] block, like
    a call that throws. What the [catch] block throws (its update, or a
    listener of [batchFailed]) rejects the promise of [_processBatch], and
    the handler [startBatch] gave it emits [batchError]; a listener of
    [batchError] that throws changes nothing the state records. *)
Definition dispatcher_step (s : state) : option state :=
  match pc s with
  | AwaitUpload =>
    match emit_uploadingFile env with
    | Resolves _ =>
      match uploadAttachment env with
      | Resolves attachmentUrl =>
        let s := emit (fileUploaded (batchId cfg) attachmentUrl) s in
        match emit_fileUploaded env with
        | Resolves _ => Some (chunk_loop 0 s)
        | Throws message => Some (with_pc s (AwaitUpdateFailed message))
        end
      | Throws message => Some (with_pc s (AwaitUpdateFailed message))
      end
    | Throws message => Some (with_pc s (AwaitUpdateFailed message))
    end
  | InChunk chunkIndex i promises =>
    if i <? chunkSize chunkIndex then
      if Z.of_nat (size (activeRequests s)) >=? maxConcurrent cfg then
        (* await this._delay(100) *)
        Some s
      else
        let submissionNumber := chunkStart chunkIndex + i + 1 in
        let s := with_task s submissionNumber AwaitCreateSendJob in
        let s := with_activeRequests s (activeRequests s ∪ {[submissionNumber]}) in
        Some (with_pc s (InChunk chunkIndex (i + 1) (promises ++ [submissionNumber])))
    else if forallb (settled s) promises then
      let s := emit (chunkCompleted (chunkIndex + 1) chunks (processedCount s) (failedCount s))
                    s in
      match emit_chunkCompleted env (chunkIndex + 1) with
      | Resolves _ => Some (chunk_loop (chunkIndex + 1) s)
      | Throws message => Some (with_pc s (AwaitUpdateFailed message))
      end
    else None
  | AwaitUpdateCompleted =>
    match updateBatch_completed env with
    | Resolves _ =>
      let b := {| Db.id := Db.id (batch s); Db.total_faxes := Db.total_faxes (batch s);
                  Db.completed_faxes := processedCount s;
                  Db.failed_faxes := failedCount s;
                  Db.batch_status := "completed" |} in
      let s := emit (batchCompleted (totalCount cfg) (processedCount s) (failedCount s))
                    (with_batch s b) in
      match emit_batchCompleted env with
      | Resolves _ => Some (with_pc s Done)
      | Throws message => Some (with_pc s (AwaitUpdateFailed message))
      end
    | Throws message => Some (with_pc s (AwaitUpdateFailed message))
    end
  | AwaitUpdateFailed message =>
    match updateBatch_failed env with
    | Resolves _ =>
      let s := emit (batchFailed message) (with_batch s (Db.mark_failed (batch s))) in
      match emit_batchFailed env with
      | Resolves _ => Some (with_pc s Done)
      | Throws message' => Some (with_pc (emit (batchError message') s) Done)
      end
    | Throws message' => Some (with_pc (emit (batchError message') s) Done)
    end
  | Done => None
  end.

(** [_sendSingleFax] of unit [submissionNumber] resumes from its [await] and
    runs to the next one or to its [return]. *)
Definition task_step (submissionNumber : Z) (s : state) : option state :=
  match tasks s !! submissionNumber with
  | Some AwaitCreateSendJob =>
    match createSendJob env submissionNumber with
    | Resolves sendJobId =>
      Some (with_task s submissionNumber (AwaitCreateSubmission sendJobId))
    | Throws message => Some (catch_block submissionNumber None message s)
    end
  | Some (AwaitCreateSubmission sendJobId) =>
    match createSubmission_converting env submissionNumber with
    | Resolves submissionId =>
      let s := insert_row submissionNumber (converting_submission submissionNumber sendJobId) s in
      let s := with_counts s (processedCount s + 1) (failedCount s) in
      let s := emit (faxSubmitted submissionNumber sendJobId submissionId (processedCount s)) s in
      match emit_faxSubmitted env submissionNumber with
      | Resolves _ =>
        let s := with_monitor s submissionNumber
                   {| faxHandle := sendJobId; submissionId := submissionId;
                      started_at := conversionStartTime env submissionNumber;
                      progress := Monitor.Polling Monitor.initial_vars |} in
        Some (with_task s submissionNumber (Settled true))
      | Throws message => Some (catch_block submissionNumber (Some submissionId) message s)
      end
    | Throws message => Some (catch_block submissionNumber None message s)
    end
  | Some (AwaitCreateFailedSubmission message) =>
    let s := match createSubmission_failed env submissionNumber with
             | Resolves _ =>
               insert_row submissionNumber (failed_submission submissionNumber message) s
             | Throws _ => s
             end in
    Some (with_task (emit (faxFailed submissionNumber message) s) submissionNumber (Settled false))
  | Some (Settled _) | None => None
  end.

(** The callback of [promise.finally(...)]: the settled promise leaves
    [this.activeRequests]. *)
Definition finally_step (submissionNumber : Z) (s : state) : option state :=
  match tasks s !! submissionNumber with
  | Some (Settled _) =>
    if decide (submissionNumber ∈ activeRequests s) then
      Some (with_activeRequests s (activeRequests s ∖ {[submissionNumber]}))
    else None
  | _ => None
  end.

Definition update_rows (h : string) (u : option Monitor.updates)
    (rows : list (Z * Db.submission)) : list (Z * Db.submission) :=
  match u with
  | Some u =>
    map (fun r => (fst r, if Db.handle_eqb (Db.row_fax_handle (snd r)) (Db.JobHandle h)
                          then Db.update_row u (snd r) else snd r)) rows
  | None => rows
  end.

(** The step of the monitor emits [faxCompleted]: the loop test holds and
    the iteration reaches the [emit]. *)
Definition reaches_emit (submissionNumber : Z) (v : Monitor.vars) : bool :=
  (Monitor.attempts v <? Monitor.maxAttempts)%nat
  && Monitor.emits_faxCompleted (polls env submissionNumber (Monitor.k v)).

(** The monitor of unit [submissionNumber] resumes: one step of its loop.
    When a listener of [faxCompleted] throws, the event was emitted and the
    loop goes on. *)
Definition monitor_step (submissionNumber : Z) (s : state) : option state :=
  match monitors s !! submissionNumber with
  | Some m =>
    match progress m with
    | Monitor.Polling v =>
      let '(p, u) := Monitor.loop_step Monitor.maxAttempts (started_at m)
                       (polls env submissionNumber) v in
      let s := with_fax_submissions s (update_rows (faxHandle m) u (fax_submissions s)) in
      let s := if reaches_emit submissionNumber v
               then emit (faxCompleted (faxHandle m) (submissionId m)) s
               else s in
      Some (with_monitor s submissionNumber
              {| faxHandle := faxHandle m; submissionId := submissionId m;
                 started_at := started_at m; progress := p |})
    | Monitor.Returned _ => None
    end
  | None => None
  end.

(** The tasks the event loop can resume. *)
Inductive label :=
| Dispatch
| Task (submissionNumber : Z)
| Finally (submissionNumber : Z)
| Poll (submissionNumber : Z).

Definition step_of (l : label) (s : state) : option state :=
  match l with
  | Dispatch => dispatcher_step s
  | Task u => task_step u s
  | Finally u => finally_step u s
  | Poll u => monitor_step u s
  end.

Definition step (s s' : state) : Prop := exists l, step_of l s = Some s'.

(** The states a batch can be in: those a finite schedule leads to. *)
Definition reachable (s : state) : Prop := rtc step initial s.

(** The state after a schedule, when every task in it was ready. *)
Fixpoint exec (schedule : list label) (s : state) : option state :=
  match schedule with
  | [] => Some s
  | l :: schedule' =>
    match step_of l s with
    | Some s' => exec schedule' s'
    | None => None
    end
  end.

(** The job-creation calls in flight. *)
Definition in_flight (s : state) : gmap Z task :=
  filter (fun kt => snd kt = AwaitCreateSendJob) (tasks s).

(** The monitors that have not returned. *)
Definition polling (m : monitor) : bool :=
  match progress m with
  | Monitor.Polling _ => true
  | Monitor.Returned _ => false
  end.

(** The sizes announced by the [chunkStarted] events, in the order of emission. *)
Definition chunkStarted_sizes (s : state) : list Z :=
  rev (omap (fun e => match e with chunkStarted _ _ size => Some size | _ => None end)
            (emitted s)).

(** The unit's call ends with a row inserted: the insert of the [try] block
    resolves, or, after it or the creation threw, that of the [catch] block. *)
Definition resolves {A} (o : outcome A) : bool :=
  match o with
  | Resolves _ => true
  | Throws _ => false
  end.

Definition has_row (submissionNumber : Z) : bool :=
  match createSendJob env submissionNumber with
  | Resolves _ =>
    resolves (createSubmission_converting env submissionNumber)
    || resolves (createSubmission_failed env submissionNumber)
  | Throws _ => resolves (createSubmission_failed env submissionNumber)
  end.

End Batch.

(** *** Invariants of the reachable states *)

Section Invariants.

Variable cfg : settings.
Variable env : environment.

(** The concurrency gate: a unit whose creation call is in flight is in
    [activeRequests], which never holds more than [maxConcurrent] promises. *)
Definition gate (s : state) : Prop :=
  (forall u, tasks s !! u = Some AwaitCreateSendJob -> u ∈ activeRequests s) /\
  Z.of_nat (size (activeRequests s)) <= Z.max 0 (maxConcurrent cfg).

(** The units launched and the units whose call has settled are initial
    segments of 1, 2, ... *)
Definition launched_upto (s : state) (m : Z) : Prop :=
  forall u, is_Some (tasks s !! u) <-> 1 <= u <= m.

Definition settled_upto (s : state) (m : Z) : Prop :=
  forall u, 1 <= u <= m -> settled s u = true.

(** Every chunk was announced and every unit's call has settled. *)
Definition dispatched (s : state) : Prop :=
  launched_upto s (totalCount cfg) /\
  settled_upto s (totalCount cfg) /\
  chunkStarted_sizes s = chunkSize cfg <$> seqZ 0 (Z.max 0 (chunks cfg)).

Definition shape (s : state) : Prop :=
  (Db.batch_status (batch s) = "completed" ->
   dispatched s /\ (pc s = Done \/ exists message, pc s = AwaitUpdateFailed message)) /\
  match pc s with
  | AwaitUpload => tasks s = ∅ /\ chunkStarted_sizes s = []
  | InChunk chunkIndex i promises =>
    0 <= chunkIndex < chunks cfg /\
    0 <= i <= chunkSize cfg chunkIndex /\
    launched_upto s (chunkStart cfg chunkIndex + i) /\
    settled_upto s (chunkStart cfg chunkIndex) /\
    (forall u, chunkStart cfg chunkIndex < u <= chunkStart cfg chunkIndex + i -> u ∈ promises) /\
    chunkStarted_sizes s = chunkSize cfg <$> seqZ 0 (chunkIndex + 1)
  | AwaitUpdateCompleted => dispatched s
  | AwaitUpdateFailed _ | Done => True
  end.

(** Where a row comes from: the [try] block of a unit whose creation call
    resolved, or the [catch] block. *)
Definition row_origin (ur : Z * Db.submission) : Prop :=
  (exists sendJobId,
     createSendJob env (fst ur) = Resolves sendJobId /\
     Db.row_fax_handle (snd ur) = Db.JobHandle sendJobId) \/
  (exists message,
     snd ur = Db.createSubmission (failed_submission cfg env (fst ur) message)).

Definition task_rows (s : state) (u : Z) : Prop :=
  match tasks s !! u with
  | None | Some AwaitCreateSendJob => u ∉ (fst <$> fax_submissions s)
  | Some (AwaitCreateSubmission sendJobId) =>
    createSendJob env u = Resolves sendJobId /\ (u ∉ (fst <$> fax_submissions s))
  | Some (AwaitCreateFailedSubmission _) =>
    (u ∉ (fst <$> fax_submissions s)) /\
    has_row env u = resolves (createSubmission_failed env u)
  | Some (Settled _) => u ∈ (fst <$> fax_submissions s) <-> has_row env u = true
  end.

Definition rows_inv (s : state) : Prop :=
  NoDup (fst <$> fax_submissions s) /\
  (forall u, task_rows s u) /\
  Forall row_origin (fax_submissions s).

(** Between two units: the dispatcher is in a chunk, no promise is left in
    [activeRequests] and the promises of the chunk have settled. *)
Definition idle (s : state) (chunkIndex i : Z) : Prop :=
  exists promises,
    pc s = InChunk chunkIndex i promises /\
    activeRequests s = ∅ /\
    forallb (settled s) promises = true /\
    Db.batch_status (batch s) = "processing".

(** The batch is where [Promise.allSettled] of its last chunk has resolved. *)
Definition dispatch_over (s : state) : Prop :=
  pc s = AwaitUpdateCompleted /\ Db.batch_status (batch s) = "processing".

(** No listener of an event that [_processBatch] emits inside its [try]
    throws. *)
Definition listeners_return : Prop :=
  emit_uploadingFile env = Resolves tt /\
  emit_fileUploaded env = Resolves tt /\
  (forall chunkIndex, emit_chunkStarted env chunkIndex = Resolves tt) /\
  (forall chunkIndex, emit_chunkCompleted env chunkIndex = Resolves tt) /\
  emit_batchCompleted env = Resolves tt.

End Invariants.

(** *** Batches, backends and schedules to run the model on *)

Definition batch_of (count size : Z) : settings :=
  {| maxConcurrent := parseInt_or None 10; batchSize := parseInt_or (Some size) 100;
     batchId := 1; totalCount := count;
     destinationNumber := "5551234"; recipientName := None; priority := "Normal";
     billingCode1 := None; billingCode2 := None |}.

(** Every call resolves; each document has succeeded at the monitor's first
    poll. The creation calls listed in [failing] throw instead. *)
Definition backend (failing : list Z) : environment :=
  {| emit_uploadingFile := Resolves tt;
     uploadAttachment := Resolves "/Attachments/1";
     emit_fileUploaded := Resolves tt;
     emit_chunkStarted := fun _ => Resolves tt;
     emit_chunkCompleted := fun _ => Resolves tt;
     createSendJob := fun u =>
       if existsb (Z.eqb u) failing
       then Throws "Failed to create send job: Request failed with status code 500"
       else Resolves (String.append "job-" (pretty u));
     createSubmission_converting := fun u => Resolves u;
     emit_faxSubmitted := fun _ => Resolves tt;
     Date_now := fun u => 1700000000000 + u;
     createSubmission_failed := fun u => Resolves u;
     conversionStartTime := fun u => 1700000000000 + u;
     polls := fun u _ => Monitor.poll_document "Succeeded" (1700000005000 + u) true;
     updateBatch_completed := Resolves tt;
     emit_batchCompleted := Resolves tt;
     updateBatch_failed := Resolves tt;
     emit_batchFailed := Resolves tt |}.

(** The same backend with a database that rejects the inserts of the
    [catch] block. *)
Definition backend_rejecting_failed_rows (failing : list Z) : environment :=
  {| emit_uploadingFile := Resolves tt;
     uploadAttachment := uploadAttachment (backend failing);
     emit_fileUploaded := Resolves tt;
     emit_chunkStarted := fun _ => Resolves tt;
     emit_chunkCompleted := fun _ => Resolves tt;
     createSendJob := createSendJob (backend failing);
     createSubmission_converting := createSubmission_converting (backend failing);
     emit_faxSubmitted := emit_faxSubmitted (backend failing);
     Date_now := Date_now (backend failing);
     createSubmission_failed := fun _ => Throws "connection terminated";
     conversionStartTime := conversionStartTime (backend failing);
     polls := polls (backend failing);
     updateBatch_completed := Resolves tt;
     emit_batchCompleted := Resolves tt;
     updateBatch_failed := Resolves tt;
     emit_batchFailed := Resolves tt |}.

(** The backend of [backend] with a listener of [batchCompleted] that
    throws. *)
Definition backend_with_listener_of_batchCompleted (failing : list Z) : environment :=
  {| emit_uploadingFile := Resolves tt;
     uploadAttachment := uploadAttachment (backend failing);
     emit_fileUploaded := Resolves tt;
     emit_chunkStarted := fun _ => Resolves tt;
     emit_chunkCompleted := fun _ => Resolves tt;
     createSendJob := createSendJob (backend failing);
     createSubmission_converting := createSubmission_converting (backend failing);
     emit_faxSubmitted := emit_faxSubmitted (backend failing);
     Date_now := Date_now (backend failing);
     createSubmission_failed := createSubmission_failed (backend failing);
     conversionStartTime := conversionStartTime (backend failing);
     polls := polls (backend failing);
     updateBatch_completed := Resolves tt;
     emit_batchCompleted := Throws "listener failed";
     updateBatch_failed := Resolves tt;
     emit_batchFailed := Resolves tt |}.

(** The backend of [backend] whose documents never leave ['Processing'],
    with a database that rejects every update of a monitor. *)
Definition backend_processing_forever : environment :=
  {| emit_uploadingFile := Resolves tt;
     uploadAttachment := uploadAttachment (backend []);
     emit_fileUploaded := Resolves tt;
     emit_chunkStarted := fun _ => Resolves tt;
     emit_chunkCompleted := fun _ => Resolves tt;
     createSendJob := createSendJob (backend []);
     createSubmission_converting := createSubmission_converting (backend []);
     emit_faxSubmitted := emit_faxSubmitted (backend []);
     Date_now := Date_now (backend []);
     createSubmission_failed := createSubmission_failed (backend []);
     conversionStartTime := conversionStartTime (backend []);
     polls := fun _ => Monitor.polls_database_down;
     updateBatch_completed := Resolves tt;
     emit_batchCompleted := Resolves tt;
     updateBatch_failed := Resolves tt;
     emit_batchFailed := Resolves tt |}.

(** The backend of [backend] with a listener of [faxSubmitted] that throws
    for the units listed. *)
Definition backend_with_listener_of_faxSubmitted (throwing : list Z) : environment :=
  {| emit_uploadingFile := Resolves tt;
     uploadAttachment := uploadAttachment (backend []);
     emit_fileUploaded := Resolves tt;
     emit_chunkStarted := fun _ => Resolves tt;
     emit_chunkCompleted := fun _ => Resolves tt;
     createSendJob := createSendJob (backend []);
     createSubmission_converting := createSubmission_converting (backend []);
     emit_faxSubmitted := fun u =>
       if existsb (Z.eqb u) throwing then Throws "listener failed" else Resolves tt;
     Date_now := Date_now (backend []);
     createSubmission_failed := createSubmission_failed (backend []);
     conversionStartTime := conversionStartTime (backend []);
     polls := polls (backend []);
     updateBatch_completed := Resolves tt;
     emit_batchCompleted := Resolves tt;
     updateBatch_failed := Resolves tt;
     emit_batchFailed := Resolves tt |}.

(** One unit after the other: the dispatcher calls [_sendSingleFax], the
    call runs through its two [await]s and its promise leaves the set. *)
Definition unit_schedule (u : Z) : list label := [Dispatch; Task u; Task u; Finally u].

(** A chunk: its units, then [Promise.allSettled]. *)
Definition chunk_schedule (first size : Z) : list label :=
  flat_map unit_schedule (seqZ first size) ++ [Dispatch].

(** The upload, the chunks given by their first unit and size, the final
    update. *)
Definition batch_schedule (chunk_list : list (Z * Z)) : list label :=
  Dispatch :: flat_map (fun c => chunk_schedule (fst c) (snd c)) chunk_list ++ [Dispatch].

(** The state a schedule leads to from the initial state (the initial state
    itself when some task of the schedule was not ready). *)
Definition state_after (cfg : settings) (env : environment) (schedule : list label) : state :=
  default (initial cfg) (exec cfg env schedule (initial cfg)).

(** *** What the units' calls add to the counters and to the events *)

Section Outcomes.

Variable cfg : settings.
Variable env : environment.

(** The statements of the [try] block of [_sendSingleFax] up to
    [processedCount++] run through: the creation call and the insert resolve. *)
Definition counted_processed (submissionNumber : Z) : bool :=
  resolves (createSendJob env submissionNumber)
  && resolves (createSubmission_converting env submissionNumber).

(** The whole [try] block runs through, to [return { success: true, ... }]. *)
Definition try_resolves (submissionNumber : Z) : bool :=
  counted_processed submissionNumber && resolves (emit_faxSubmitted env submissionNumber).

(** What the call of a unit has added to [processedCount] and to
    [failedCount] so far. *)
Definition processed_of (s : state) (u : Z) : Z :=
  match tasks s !! u with
  | Some (Settled _) => if counted_processed u then 1 else 0
  | _ => 0
  end.

Definition failed_of (s : state) (u : Z) : Z :=
  match tasks s !! u with
  | Some (AwaitCreateFailedSubmission _) | Some (Settled false) => 1
  | _ => 0
  end.

Definition sumZ (f : Z -> Z) (l : list Z) : Z := foldr (fun u acc => f u + acc) 0 l.

(** [l] lists, without repetition, at least the units launched. *)
Definition covers (s : state) (l : list Z) : Prop :=
  NoDup l /\ forall u, is_Some (tasks s !! u) -> u ∈ l.

Definition counts_inv (s : state) : Prop :=
  forall l, covers s l ->
    processedCount s = sumZ (processed_of s) l /\ failedCount s = sumZ (failed_of s) l.

(** Where the call of a unit stands tells what its calls answered, and a
    monitor runs for the units whose call returned [success: true]. *)
Definition outcome_inv (s : state) : Prop :=
  forall u,
    match tasks s !! u with
    | Some (AwaitCreateSubmission sendJobId) => resolves (createSendJob env u) = true
    | Some (AwaitCreateFailedSubmission _) => counted_processed u = false
    | Some (Settled success) => success = try_resolves u
    | _ => True
    end /\
    (is_Some (monitors s !! u) <-> tasks s !! u = Some (Settled true)).

(** Once the row is ['completed'] it holds the counters. *)
Definition completed_inv (s : state) : Prop :=
  Db.batch_status (batch s) = "completed" ->
  Db.completed_faxes (batch s) = processedCount s /\
  Db.failed_faxes (batch s) = failedCount s.

(** The number of units among [l] for which [b] holds. *)
Definition count (b : Z -> bool) (l : list Z) : Z := Z.of_nat (length (List.filter b l)).

End Outcomes.

(** The events that end a batch, and the events that report a unit. *)
Definition terminal (e : event) : bool :=
  match e with
  | batchCompleted _ _ _ | batchFailed _ | batchError _ => true
  | _ => false
  end.

Definition reports_submitted (u : Z) (e : event) : bool :=
  match e with
  | faxSubmitted submissionNumber _ _ _ => submissionNumber =? u
  | _ => false
  end.

Definition reports_failed (u : Z) (e : event) : bool :=
  match e with
  | faxFailed submissionNumber _ => submissionNumber =? u
  | _ => false
  end.

Definition reports_completed (e : event) : bool :=
  match e with
  | batchCompleted _ _ _ => true
  | _ => false
  end.

Definition reports_batch_failed (e : event) : bool :=
  match e with
  | batchFailed _ => true
  | _ => false
  end.

Definition reports_batch_error (e : event) : bool :=
  match e with
  | batchError _ => true
  | _ => false
  end.

Definition occurrences (p : event -> bool) (s : state) : nat :=
  length (List.filter p (emitted s)).

Definition finished (s : state) : bool :=
  match pc s with
  | Done => true
  | _ => false
  end.

(** The events of a unit so far: none before its call has settled; a
    [faxSubmitted] once the creation call and the insert have resolved, and
    a [faxFailed] when the call settles with [success: false], also then. *)
Definition reported (env : environment) (s : state) (u : Z) : Prop :=
  match tasks s !! u with
  | Some (Settled true) =>
    occurrences (reports_submitted u) s = 1%nat /\ occurrences (reports_failed u) s = 0%nat
  | Some (Settled false) =>
    occurrences (reports_submitted u) s = (if counted_processed env u then 1 else 0)%nat /\
    occurrences (reports_failed u) s = 1%nat
  | _ =>
    occurrences (reports_submitted u) s = 0%nat /\ occurrences (reports_failed u) s = 0%nat
  end.

(** A batch of [count] units in chunks of 100 with [MAX_CONCURRENT_FAXES] set
    to [limit]. *)
Definition batch_with_limit (limit count : Z) : settings :=
  {| maxConcurrent := parseInt_or (Some limit) 10; batchSize := parseInt_or None 100;
     batchId := 1; totalCount := count;
     destinationNumber := "5551234"; recipientName := None; priority := "Normal";
     billingCode1 := None; billingCode2 := None |}.

(** The promises the dispatcher holds, in [activeRequests] and in the
    [promises] of the chunk, are those of calls it has started. *)
Definition promises_of (s : state) : list Z :=
  match pc s with
  | InChunk _ _ promises => promises
  | _ => []
  end.

Definition held (s : state) : Prop :=
  (forall u, u ∈ activeRequests s -> is_Some (tasks s !! u)) /\
  (forall u, u ∈ promises_of s -> is_Some (tasks s !! u)).

(** *** A bound on the work a batch has left *)

Section Work.

Variable cfg : settings.
Variable env : environment.

(** The resumptions a monitor has left at most: one per attempt below the
    ceiling, and the one that leaves the loop. *)
Definition progress_work (p : Monitor.progress) : nat :=
  match p with
  | Monitor.Polling v => S (Monitor.maxAttempts - Monitor.attempts v)
  | Monitor.Returned _ => 0
  end.

Definition monitor_work (m : monitor) : nat := progress_work (progress m).

(** The resumptions a call of [_sendSingleFax] has left at most, with those
    of the monitor it may start. *)
Definition task_work (t : task) : nat :=
  match t with
  | AwaitCreateSendJob => 3 + S Monitor.maxAttempts
  | AwaitCreateSubmission _ => 2 + S Monitor.maxAttempts
  | AwaitCreateFailedSubmission _ => 1
  | Settled _ => 0
  end.

(** A unit that is not launched yet: its launch, its call, its monitor and
    the [finally] callback of its promise. *)
Definition unit_work : nat := 1 + task_work AwaitCreateSendJob + 1.

Definition dispatcher_work (d : dispatcher) : nat :=
  match d with
  | AwaitUpload => 3 + Z.to_nat (chunks cfg) + unit_work * Z.to_nat (totalCount cfg)
  | InChunk chunkIndex i _ =>
    2 + Z.to_nat (chunks cfg - chunkIndex)
    + unit_work * Z.to_nat (totalCount cfg - (chunkStart cfg chunkIndex + i))
  | AwaitUpdateCompleted => 2
  | AwaitUpdateFailed _ => 1
  | Done => 0
  end.

Definition work_of {A} (f : A -> nat) (m : gmap Z A) : nat :=
  map_fold (fun _ a n => f a + n)%nat 0%nat m.

(** A bound on the resumptions a batch has left. *)
Definition work (s : state) : nat :=
  dispatcher_work (pc s) + size (activeRequests s)
  + work_of task_work (tasks s) + work_of monitor_work (monitors s).

(** The step is a turn of [while (this.activeRequests.size >= this.maxConcurrent)
    await this._delay(100)]. *)
Definition delays (l : label) (s : state) : bool :=
  match l, pc s with
  | Dispatch, InChunk chunkIndex i _ =>
    (i <? chunkSize cfg chunkIndex) && (Z.of_nat (size (activeRequests s)) >=? maxConcurrent cfg)
  | _, _ => false
  end.

(** The steps of a schedule other than the delays at the gate. *)
Fixpoint resumptions (schedule : list label) (s : state) : nat :=
  match schedule with
  | [] => 0
  | l :: schedule' =>
    match step_of cfg env l s with
    | Some s' => (if delays l s then 0 else 1) + resumptions schedule' s'
    | None => 0
    end
  end.

End Work.

(** A batch of five units in one chunk, then the first poll of two monitors. *)
Definition schedule_with_polls : list label :=
  batch_schedule [(1, 5)] ++ [Poll 1; Poll 2].

(** *** After the chunk loop *)

(** [_processBatch] has left its chunk loop: it awaits one of the final
    updates or has returned. *)
Definition chunks_over (s : state) : bool :=
  match pc s with
  | AwaitUpload | InChunk _ _ _ => false
  | AwaitUpdateCompleted | AwaitUpdateFailed _ | Done => true
  end.

(** No call of [_sendSingleFax] is pending. *)
Definition none_pending (s : state) : Prop :=
  forall u, is_Some (tasks s !! u) -> settled s u = true.

(** The backend of [backend] with a database that rejects the update to
    ['completed']. *)
Definition backend_rejecting_completion (failing : list Z) : environment :=
  {| emit_uploadingFile := Resolves tt;
     uploadAttachment := uploadAttachment (backend failing);
     emit_fileUploaded := Resolves tt;
     emit_chunkStarted := fun _ => Resolves tt;
     emit_chunkCompleted := fun _ => Resolves tt;
     createSendJob := createSendJob (backend failing);
     createSubmission_converting := createSubmission_converting (backend failing);
     emit_faxSubmitted := emit_faxSubmitted (backend failing);
     Date_now := Date_now (backend failing);
     createSubmission_failed := createSubmission_failed (backend failing);
     conversionStartTime := conversionStartTime (backend failing);
     polls := polls (backend failing);
     updateBatch_completed := Throws "connection terminated";
     emit_batchCompleted := Resolves tt;
     updateBatch_failed := Resolves tt;
     emit_batchFailed := Resolves tt |}.

(** *** What the [chunkCompleted] events report *)

Section Reports.

Variable cfg : settings.
Variable env : environment.

(** What a [chunkCompleted] event reports: the chunk, the number of chunks,
    and the counters, which cover the units of the chunks so far. *)
Definition chunk_report (e : event) : Prop :=
  match e with
  | chunkCompleted chunkIndex totalChunks processed failed =>
    let units := seqZ 1 (chunkEnd cfg (chunkIndex - 1)) in
    1 <= chunkIndex <= chunks cfg /\
    totalChunks = chunks cfg /\
    processed = count (counted_processed env) units /\
    failed = count (fun u => negb (try_resolves env u)) units
  | _ => True
  end.

End Reports.

End Dispatcher.

(** ** Starting a batch: [startBatch], the renderer's form and the HTTP route *)

Module Start.

Import Dispatcher.
Local Open Scope string_scope.
Local Open Scope Z_scope.

Record batchConfig := {
  batchName : string;
  userId : string;
  filePath : string;
  cfg_destinationNumber : string;
  cfg_recipientName : option string;
  cfg_totalCount : Z;
  cfg_priority : string;
  cfg_billingCode1 : option string;
  cfg_billingCode2 : option string
}.

(** What the collaborators of [startBatch] answer. *)
Record world := {
  isLoggedIn : bool;
  login : outcome unit;
  (** [fs.statSync(filePath)]: the file's size *)
  statSync : string -> outcome Z;
  (** [db.createBatch]: the id of the new row *)
  createBatch : outcome Z;
  (** [db.updateBatch(batchId, { status: 'processing', ... })] *)
  updateBatch_processing : outcome unit;
  (** the listeners of [batchStarted] *)
  emit_batchStarted : outcome unit
}.

Record started := {
  (** what the promise of [startBatch] settles with *)
  result : outcome Z;
  fax_batches : list Db.batch;
  events : list event;
  (** [_processBatch] was called *)
  dispatching : bool
}.

Definition set_status (b : Db.batch) (st : string) : Db.batch :=
  {| Db.id := Db.id b; Db.total_faxes := Db.total_faxes b;
     Db.completed_faxes := Db.completed_faxes b; Db.failed_faxes := Db.failed_faxes b;
     Db.batch_status := st |}.

(** [db.updateBatch(batchId, { status })] on the table. *)
Definition updateBatch_status (batchId : Z) (st : string) (rows : list Db.batch)
  : list Db.batch :=
  map (fun b => if Db.id b =? batchId then set_status b st else b) rows.

Definition rejected (message : string) (rows : list Db.batch) : started :=
  {| result := Throws message; fax_batches := rows; events := []; dispatching := false |}.

(** [startBatch(batchConfig)]: log in when needed, read the file's size,
    create the row, set it to ['processing'], emit [batchStarted], call
    [_processBatch] and return the id; an error of any step is thrown again.
    The [emit] is inside the [try] too: when a listener of [batchStarted]
    throws, the event was emitted and the row is ['processing'], and
    [_processBatch] is not called. *)
Definition startBatch (w : world) (rows : list Db.batch) (c : batchConfig) : started :=
  match (if isLoggedIn w then Resolves tt else login w) with
  | Throws message => rejected message rows
  | Resolves _ =>
    match statSync w (filePath c) with
    | Throws message => rejected message rows
    | Resolves _ =>
      match createBatch w with
      | Throws message => rejected message rows
      | Resolves batchId =>
        let rows := Db.createBatch batchId (cfg_totalCount c) :: rows in
        match updateBatch_processing w with
        | Throws message => rejected message rows
        | Resolves _ =>
          let rows := updateBatch_status batchId "processing" rows in
          let events := [batchStarted batchId (cfg_totalCount c)] in
          match emit_batchStarted w with
          | Throws message =>
            {| result := Throws message; fax_batches := rows; events := events;
               dispatching := false |}
          | Resolves _ =>
            {| result := Resolves batchId; fax_batches := rows; events := events;
               dispatching := true |}
          end
        end
      end
    end
  end.

(** The settings [_processBatch] reads from [this.currentBatch]. *)
Definition settings_of (maxConcurrent batchSize batchId : Z) (c : batchConfig) : settings :=
  {| maxConcurrent := maxConcurrent; batchSize := batchSize; batchId := batchId;
     totalCount := cfg_totalCount c; destinationNumber := cfg_destinationNumber c;
     recipientName := cfg_recipientName c; priority := cfg_priority c;
     billingCode1 := cfg_billingCode1 c; billingCode2 := cfg_billingCode2 c |}.

(** [handleBatchSubmit] of the renderer: the form is checked, then
    ['start-batch'] is invoked, which calls [startBatch]. *)
Inductive submitted :=
| Alert (message : string)
| Invoked (r : started).

Definition handleBatchSubmit (w : world) (rows : list Db.batch) (c : batchConfig)
  : submitted :=
  if String.eqb (filePath c) "" then Alert "Please select a file"
  else if (cfg_totalCount c <? 1) || (cfg_totalCount c >? 100000) then
    Alert "Total count must be between 1 and 100,000"
  else Invoked (startBatch w rows c).

(** The route [POST /api/batch/start] of the web server: the body's fields
    are copied ([totalCount] through [parseInt]) and [startBatch] is called. *)
Definition api_batch_start (w : world) (rows : list Db.batch) (body : batchConfig)
  : started :=
  startBatch w rows body.

(** A backend and a database that answer every call of [startBatch]. *)
Definition ready_world : world :=
  {| isLoggedIn := true; login := Resolves tt;
     statSync := fun _ => Resolves 1024;
     createBatch := Resolves 1;
     updateBatch_processing := Resolves tt;
     emit_batchStarted := Resolves tt |}.

Definition request (count : Z) : batchConfig :=
  {| batchName := "batch"; userId := "user"; filePath := "/tmp/fax.pdf";
     cfg_destinationNumber := "5551234"; cfg_recipientName := None;
     cfg_totalCount := count; cfg_priority := "Normal";
     cfg_billingCode1 := None; cfg_billingCode2 := None |}.

(** A database that accepts the new row and rejects its update. *)
Definition world_rejecting_update : world :=
  {| isLoggedIn := true; login := Resolves tt;
     statSync := fun _ => Resolves 1024;
     createBatch := Resolves 1;
     updateBatch_processing := Throws "connection terminated";
     emit_batchStarted := Resolves tt |}.

(** A listener of [batchStarted] that throws. *)
Definition world_with_throwing_listener : world :=
  {| isLoggedIn := true; login := Resolves tt;
     statSync := fun _ => Resolves 1024;
     createBatch := Resolves 1;
     updateBatch_processing := Resolves tt;
     emit_batchStarted := Throws "listener failed" |}.

End Start.

(** ** The hourly metric buckets: [updateMetrics] *)

Module Metrics.

Local Open Scope Z_scope.

(** The values of a record handed to [updateMetrics], and of a row of
    [fax_metrics]. A column is [None] when it is NULL. The columns are
    INTEGER: a statement that binds or computes a value outside the range of
    a 32-bit integer fails ([INTEGER], [accepts]). *)
Record values := {
  total_submitted : option Z;
  total_succeeded : option Z;
  total_failed : option Z;
  total_cancelled : option Z;
  avg_conversion_time : option Z;
  avg_transmission_time : option Z;
  avg_total_time : option Z;
  max_conversion_time : option Z;
  max_transmission_time : option Z;
  total_pages : option Z;
  total_batches : option Z
}.

(** A record: its bucket [(date, hour)] and its values. *)
Record metrics := {
  date : Z;
  hour : Z;
  vals : values
}.

(** The range of the type INTEGER. *)
Definition INTEGER (x : Z) : bool := (-2147483648 <=? x) && (x <=? 2147483647).

(** SQL [a + b]: NULL when an operand is. On INTEGER operands the sum is
    computed in INTEGER: when it leaves the range the statement fails, which
    [sum_fits] tells; [plus] is the value otherwise. *)
Definition plus (a b : option Z) : option Z :=
  match a, b with
  | Some x, Some y => Some (x + y)
  | _, _ => None
  end.

Definition sum_fits (a b : option Z) : bool :=
  match a, b with
  | Some x, Some y => INTEGER (x + y)
  | _, _ => true
  end.

(** SQL [(a + b) / 2] on integers: the quotient truncates. *)
Definition average (a b : option Z) : option Z :=
  match a, b with
  | Some x, Some y => Some ((x + y) ÷ 2)
  | _, _ => None
  end.

(** SQL [GREATEST(a, b)]: NULL operands are ignored. *)
Definition GREATEST (a b : option Z) : option Z :=
  match a, b with
  | Some x, Some y => Some (Z.max x y)
  | Some x, None => Some x
  | None, y => y
  end.

(** [ON CONFLICT (date, hour) DO UPDATE SET ...]: the row and the EXCLUDED
    values. *)
Definition do_update (row excluded : values) : values :=
  {| total_submitted := plus (total_submitted row) (total_submitted excluded);
     total_succeeded := plus (total_succeeded row) (total_succeeded excluded);
     total_failed := plus (total_failed row) (total_failed excluded);
     total_cancelled := plus (total_cancelled row) (total_cancelled excluded);
     avg_conversion_time := average (avg_conversion_time row) (avg_conversion_time excluded);
     avg_transmission_time :=
       average (avg_transmission_time row) (avg_transmission_time excluded);
     avg_total_time := average (avg_total_time row) (avg_total_time excluded);
     max_conversion_time := GREATEST (max_conversion_time row) (max_conversion_time excluded);
     max_transmission_time :=
       GREATEST (max_transmission_time row) (max_transmission_time excluded);
     total_pages := plus (total_pages row) (total_pages excluded);
     total_batches := plus (total_batches row) (total_batches excluded) |}.

(** Every sum of [DO UPDATE SET] stays in the range of INTEGER: those of the
    counts and those under the averages. *)
Definition update_fits (row excluded : values) : bool :=
  sum_fits (total_submitted row) (total_submitted excluded)
  && sum_fits (total_succeeded row) (total_succeeded excluded)
  && sum_fits (total_failed row) (total_failed excluded)
  && sum_fits (total_cancelled row) (total_cancelled excluded)
  && sum_fits (avg_conversion_time row) (avg_conversion_time excluded)
  && sum_fits (avg_transmission_time row) (avg_transmission_time excluded)
  && sum_fits (avg_total_time row) (avg_total_time excluded)
  && sum_fits (total_pages row) (total_pages excluded)
  && sum_fits (total_batches row) (total_batches excluded).

(** The values bound to [$2 ... $13] are in the range of their INTEGER
    columns (NULL is). *)
Definition column_fits (a : option Z) : bool :=
  match a with
  | Some x => INTEGER x
  | None => true
  end.

Definition values_fit (h : Z) (v : values) : bool :=
  INTEGER h
  && column_fits (total_submitted v) && column_fits (total_succeeded v)
  && column_fits (total_failed v) && column_fits (total_cancelled v)
  && column_fits (avg_conversion_time v) && column_fits (avg_transmission_time v)
  && column_fits (avg_total_time v)
  && column_fits (max_conversion_time v) && column_fits (max_transmission_time v)
  && column_fits (total_pages v) && column_fits (total_batches v).

(** The table the statement of [updateMetrics] leaves when it is accepted:
    [fax_metrics] keyed by its unique [(date, hour)], with the new row
    inserted or the row in conflict updated. *)
Definition upsert (m : metrics) (t : gmap (Z * Z) values) : gmap (Z * Z) values :=
  match t !! (date m, hour m) with
  | None => <[(date m, hour m) := vals m]> t
  | Some row => <[(date m, hour m) := do_update row (vals m)]> t
  end.

(** The statement is accepted: the values fit their columns and, when a row
    is in conflict, so do the sums; otherwise PostgreSQL fails it with
    "integer out of range" ("value ... is out of range for type integer")
    and the table stays as it is. *)
Definition accepts (m : metrics) (t : gmap (Z * Z) values) : bool :=
  values_fit (hour m) (vals m)
  && match t !! (date m, hour m) with
     | None => true
     | Some row => update_fits row (vals m)
     end.

(** [updateMetrics(metrics)] on the table [fax_metrics]: the table it leaves,
    or [None] when the statement fails and [updateMetrics] throws. *)
Definition updateMetrics (m : metrics) (t : gmap (Z * Z) values)
  : option (gmap (Z * Z) values) :=
  if accepts m t then Some (upsert m t) else None.

(** The records merged one after the other, the head first, each by a call
    of its own: a call that throws leaves the table to the next. *)
Definition merge_all (l : list metrics) (t : gmap (Z * Z) values) : gmap (Z * Z) values :=
  foldl (fun t m => default t (updateMetrics m t)) t l.

(** Every call of the run is accepted. *)
Fixpoint all_accepted (l : list metrics) (t : gmap (Z * Z) values) : bool :=
  match l with
  | [] => true
  | m :: l' => accepts m t && all_accepted l' (upsert m t)
  end.

(** The count fields and the maximum fields of a row. *)
Record counters := {
  c_submitted : option Z;
  c_succeeded : option Z;
  c_failed : option Z;
  c_cancelled : option Z;
  c_pages : option Z;
  c_batches : option Z;
  c_max_conversion : option Z;
  c_max_transmission : option Z
}.

Definition counters_of (v : values) : counters :=
  {| c_submitted := total_submitted v; c_succeeded := total_succeeded v;
     c_failed := total_failed v; c_cancelled := total_cancelled v;
     c_pages := total_pages v; c_batches := total_batches v;
     c_max_conversion := max_conversion_time v;
     c_max_transmission := max_transmission_time v |}.

(** The counters after an update are a function of the counters before. *)
Definition add_counters (x y : counters) : counters :=
  {| c_submitted := plus (c_submitted x) (c_submitted y);
     c_succeeded := plus (c_succeeded x) (c_succeeded y);
     c_failed := plus (c_failed x) (c_failed y);
     c_cancelled := plus (c_cancelled x) (c_cancelled y);
     c_pages := plus (c_pages x) (c_pages y);
     c_batches := plus (c_batches x) (c_batches y);
     c_max_conversion := GREATEST (c_max_conversion x) (c_max_conversion y);
     c_max_transmission := GREATEST (c_max_transmission x) (c_max_transmission y) |}.

(** Two tables with the same buckets and, in each, the same counters. *)
Definition same_counters (t1 t2 : gmap (Z * Z) values) : Prop :=
  forall key, counters_of <$> (t1 !! key) = counters_of <$> (t2 !! key).

(** A record of [n] submissions, all sent, whose longest conversion took
    [longest] ms. *)
Definition record (d h n longest : Z) : metrics :=
  {| date := d; hour := h;
     vals := {| total_submitted := Some n; total_succeeded := Some n;
                total_failed := Some 0; total_cancelled := Some 0;
                avg_conversion_time := Some longest; avg_transmission_time := Some 0;
                avg_total_time := Some longest;
                max_conversion_time := Some longest; max_transmission_time := Some 0;
                total_pages := Some n; total_batches := Some 1 |} |}.

End Metrics.

(** ** JavaScript strings, on ASCII text *)

Module JsString.

Local Open Scope string_scope.
Local Open Scope list_scope.

Definition newline : string := String "010"%char EmptyString.

(** The white space [trim] removes, on ASCII text: tab, line feed, vertical
    tab, form feed, carriage return and space. *)
Definition is_space (c : ascii) : bool :=
  let n := nat_of_ascii c in
  ((9 <=? n)%nat && (n <=? 13)%nat) || (n =? 32)%nat.

Fixpoint trimStart (s : string) : string :=
  match s with
  | EmptyString => EmptyString
  | String c s' => if is_space c then trimStart s' else s
  end.

Fixpoint trimEnd (s : string) : string :=
  match s with
  | EmptyString => EmptyString
  | String c s' =>
    match trimEnd s' with
    | EmptyString => if is_space c then EmptyString else String c EmptyString
    | t => String c t
    end
  end.

(** [s.trim()] *)
Definition trim (s : string) : string := trimEnd (trimStart s).

(** [s.includes(needle)] *)
Fixpoint includes (needle s : string) : bool :=
  String.prefix needle s ||
  match s with
  | EmptyString => false
  | String _ s' => includes needle s'
  end.

(** [s.split('\n')] *)
Fixpoint split_lines (s : string) : list string :=
  match s with
  | EmptyString => [EmptyString]
  | String c s' =>
    if Ascii.eqb c "010"%char then EmptyString :: split_lines s'
    else match split_lines s' with
         | line :: lines => String c line :: lines
         | [] => [String c EmptyString]
         end
  end.

(** [s.split(';')[0]]: the text before the first semicolon. *)
Fixpoint before_semicolon (s : string) : string :=
  match s with
  | EmptyString => EmptyString
  | String c s' => if Ascii.eqb c ";"%char then EmptyString else String c (before_semicolon s')
  end.

End JsString.

(** ** The statements of the schema: [initializeDatabase] *)

Module Schema.

Import JsString.
Local Open Scope string_scope.
Local Open Scope list_scope.

(** The variables of the loop of [initializeDatabase] that splits the schema. *)
Record splitter := {
  statements : list string;
  currentStatement : string;
  inDollarQuote : bool
}.

(** [line.trim().startsWith('--')] *)
Definition comment_only (line : string) : bool := String.prefix "--" (trim line).

(** [const trimmed = currentStatement.trim();
     if (trimmed.length > 0) statements.push(trimmed)] *)
Definition push_trimmed (statements : list string) (currentStatement : string)
  : list string :=
  let trimmed := trim currentStatement in
  if (0 <? String.length trimmed)%nat then statements ++ [trimmed] else statements.

(** The body of [for (const line of lines)]. *)
Definition loop_line (st : splitter) (line : string) : splitter :=
  if comment_only line then st
  else
    let inDollarQuote := if includes "$$" line then negb (inDollarQuote st)
                         else inDollarQuote st in
    let currentStatement := (currentStatement st ++ line ++ newline)%string in
    if includes ";" line && negb inDollarQuote then
      {| statements := push_trimmed (statements st) currentStatement;
         currentStatement := EmptyString;
         inDollarQuote := inDollarQuote |}
    else
      {| statements := statements st;
         currentStatement := currentStatement;
         inDollarQuote := inDollarQuote |}.

(** The statements [initializeDatabase] splits the schema into. *)
Definition split_statements (schema : string) : list string :=
  let st := foldl loop_line
              {| statements := []; currentStatement := EmptyString; inDollarQuote := false |}
              (split_lines schema) in
  push_trimmed (statements st) (currentStatement st).

(** The statements handed to [client.query]: [if (statement)] skips an
    empty one. *)
Definition executed (schema : string) : list string :=
  List.filter (fun statement => negb (String.eqb statement EmptyString))
              (split_statements schema).

(** The text a group of lines adds to [currentStatement]: each line followed
    by a line feed. *)
Definition joined (group : list string) : string :=
  fold_right (fun line text => (line ++ newline ++ text)%string) EmptyString group.

(** The number of lines of a group that hold a [$$]. *)
Definition dollar_lines (group : list string) : nat :=
  length (List.filter (includes "$$") group).

(** The lines of a statement that was pushed inside the loop: the last one
    holds a semicolon, the lines with a [$$] are even in number, and no line
    before the last could have ended the statement. A line that holds a
    semicolon and does not end the statement is at an odd number of lines
    with [$$], inside a dollar-quoted body. *)
Definition no_end_inside (group : list string) (whole : bool) : Prop :=
  forall p l q, group = p ++ l :: q -> (whole = true -> q <> []) ->
    includes ";" l = true -> Nat.even (dollar_lines (p ++ [l])) = false.

Definition closed (group : list string) : Prop :=
  (exists body l, group = body ++ [l] /\ includes ";" l = true) /\
  Nat.even (dollar_lines group) = true /\
  no_end_inside group true.

Definition splits (lines : list string) (st : splitter) : Prop :=
  exists groups cur,
    concat groups ++ cur = List.filter (fun l => negb (comment_only l)) lines /\
    statements st = List.filter (fun s => (0 <? String.length s)%nat)
                                (map (fun g => trim (joined g)) groups) /\
    currentStatement st = joined cur /\
    inDollarQuote st = Nat.odd (dollar_lines cur) /\
    Forall closed groups /\
    no_end_inside cur false.

(** The function of the schema's trigger, as the file has it. *)
Definition trigger_function : string :=
  ("-- Create function to update updated_at timestamp" ++ newline ++
   "CREATE OR REPLACE FUNCTION update_updated_at_column()" ++ newline ++
   "RETURNS TRIGGER AS $$" ++ newline ++
   "BEGIN" ++ newline ++
   "    NEW.updated_at = CURRENT_TIMESTAMP;" ++ newline ++
   "    RETURN NEW;" ++ newline ++
   "END;" ++ newline ++
   "$$ LANGUAGE plpgsql;" ++ newline ++
   newline ++
   "CREATE INDEX idx_fax_metrics_date ON fax_metrics(date);" ++ newline)%string.

End Schema.

(** ** The transaction of [initializeDatabase] *)

Module Initialize.

Import Dispatcher Schema.
Local Open Scope string_scope.
Local Open Scope list_scope.

(** What the pool, the file system and the client answer: [pool.connect()],
    [fs.readFileSync(schemaPath, 'utf8')], and [client.query] by the position
    of the query among those the call issues. *)
Record database := {
  connect : outcome unit;
  readFileSync : outcome string;
  query : nat -> outcome unit
}.

(** A call of [initializeDatabase]: what its promise settles with, the
    queries issued on the client, in order, and whether the client was
    released. *)
Record run := {
  result : outcome bool;
  queries : list string;
  released : bool
}.

(** [for (const statement of statements) { if (statement) await
    client.query(statement) }], the next query being at [position]: the
    queries issued and the error that left the loop, if any. *)
Fixpoint for_statements (db : database) (position : nat) (statements : list string)
  : list string * option string :=
  match statements with
  | [] => ([], None)
  | statement :: rest =>
    if String.eqb statement EmptyString then for_statements db position rest
    else
      match query db position with
      | Resolves _ =>
        let '(issued, error) := for_statements db (S position) rest in
        (statement :: issued, error)
      | Throws message => ([statement], Some message)
      end
  end.

(** The [try] block: the queries issued and the error thrown, if any. *)
Definition try_block (db : database) : list string * option string :=
  match readFileSync db with
  | Throws message => ([], Some message)
  | Resolves schema =>
    match query db 0 with
    | Throws message => (["BEGIN"], Some message)
    | Resolves _ =>
      let '(issued, error) := for_statements db 1 (split_statements schema) in
      match error with
      | Some message => ("BEGIN" :: issued, Some message)
      | None =>
        ("BEGIN" :: issued ++ ["COMMIT"],
         match query db (S (length issued)) with
         | Resolves _ => None
         | Throws message => Some message
         end)
      end
    end
  end.

(** [initializeDatabase()]: the [catch] block issues [ROLLBACK] and throws
    the error again (or the error of the [ROLLBACK]); the [finally] block
    releases the client. A failure of [getClient()] is outside the [try]. *)
Definition initializeDatabase (db : database) : run :=
  match connect db with
  | Throws message => {| result := Throws message; queries := []; released := false |}
  | Resolves _ =>
    let '(issued, error) := try_block db in
    match error with
    | None => {| result := Resolves true; queries := issued; released := true |}
    | Some message =>
      {| result := match query db (length issued) with
                   | Resolves _ => Throws message
                   | Throws message' => Throws message'
                   end;
         queries := issued ++ ["ROLLBACK"];
         released := true |}
    end
  end.

(** [if (statement)]: the statement is not the empty string. *)
Definition nonempty (statement : string) : bool := negb (String.eqb statement EmptyString).

(** The queries of a call in which nothing throws. *)
Definition transaction (schema : string) : list string :=
  "BEGIN" :: executed schema ++ ["COMMIT"].

(** A database that rejects its third query. *)
Definition rejecting_third : database :=
  {| connect := Resolves tt;
     readFileSync := Resolves trigger_function;
     query := fun position => match position with
                              | 2%nat => Throws "relation does not exist"
                              | _ => Resolves tt
                              end |}.

End Initialize.

(** ** The UPDATE statements of [db.js]: [updateBatch], [updateSubmission] *)

Module Sql.

Local Open Scope string_scope.
Local Open Scope list_scope.

(** [array.join(separator)] *)
Fixpoint join (separator : string) (array : list string) : string :=
  match array with
  | [] => EmptyString
  | [x] => x
  | x :: rest => (x ++ separator ++ join separator rest)%string
  end.

Section Update.

(** The values bound to the placeholders: any JavaScript values. *)
Variable value : Type.

(** The variables of [updateBatch] and [updateSubmission]. *)
Record builder := {
  fields : list string;
  values : list value;
  paramCount : nat
}.

(** The callback of [Object.entries(updates).forEach(([key, value]) => ...)]:
    [fields.push(`${key} = $${paramCount}`); values.push(value); paramCount++]. *)
Definition forEach_entry (b : builder) (entry : string * value) : builder :=
  {| fields := fields b ++ [(fst entry ++ " = $" ++ pretty (paramCount b))%string];
     values := values b ++ [snd entry];
     paramCount := S (paramCount b) |}.

(** The statement and the parameters handed to [query]:
    [values.push(key)] and
    [`UPDATE ${table} SET ${fields.join(', ')} WHERE ${column} = $${paramCount}`]. *)
Definition update_statement (table column : string) (updates : list (string * value))
    (key : value) : string * list value :=
  let b := foldl forEach_entry {| fields := []; values := []; paramCount := 1 |} updates in
  (("UPDATE " ++ table ++ " SET " ++ join ", " (fields b)
    ++ " WHERE " ++ column ++ " = $" ++ pretty (paramCount b))%string,
   values b ++ [key]).

Definition updateBatch (batchId : value) (updates : list (string * value))
  : string * list value :=
  update_statement "fax_batches" "id" updates batchId.

Definition updateSubmission (faxHandle : value) (updates : list (string * value))
  : string * list value :=
  update_statement "fax_submissions" "fax_handle" updates faxHandle.

End Update.

End Sql.

(** ** The client of the fax server: [login] *)

Module FaxApi.

Import Dispatcher JsString.
Local Open Scope string_scope.
Local Open Scope list_scope.
Local Open Scope Z_scope.

Section Login.

(** The values of the fields of the response's body: any JSON values. *)
Variable value : Type.

(** The body of the response, [response.data]: [null], [undefined], or a
    value whose fields [User], [Account], [Server] and [ServerVersion]
    [login] reads (a field the body does not have is [undefined], [None]). *)
Record login_data := {
  User : option value;
  Account : option value;
  Server : option value;
  ServerVersion : option value
}.

Inductive body :=
| Null
| Undefined
| Fields (d : login_data).

(** The response of [GET /login]: its status, its [set-cookie] headers
    ([None] when the response has none) and its body. *)
Record login_response := {
  status : Z;
  set_cookie : option (list string);
  data : body
}.

(** What [login] returns, next to [success: true]. *)
Record login_result := {
  user : option value;
  account : option value;
  server : option value;
  serverVersion : option value
}.

Definition login_failed (message : string) : string :=
  ("Failed to login to fax server: " ++ message)%string.

(** [response.data.User], the first read of the body when the return value
    is built: it throws a TypeError when the body is [null] or [undefined]
    (the messages are those of V8). *)
Definition read_body (b : body) : outcome login_result :=
  match b with
  | Null => Throws "Cannot read properties of null (reading 'User')"
  | Undefined => Throws "Cannot read properties of undefined (reading 'User')"
  | Fields d =>
    Resolves {| user := User d; account := Account d; server := Server d;
                serverVersion := ServerVersion d |}
  end.

(** [login()]: what the promise settles with, and [this.sessionCookie]
    afterwards. The request itself resolves with a response or throws. The
    cookie is stored before the return value is built from the body, inside
    the same [try]: an error there is thrown again with the cookie kept. *)
Definition login (get : outcome login_response) (sessionCookie : option string)
  : outcome login_result * option string :=
  match get with
  | Throws message => (Throws (login_failed message), sessionCookie)
  | Resolves response =>
    if status response =? 200 then
      match set_cookie response with
      | Some (cookie :: cookies) =>
        match List.find (String.prefix "rf-auth=") (cookie :: cookies) with
        | Some authCookie =>
          let sessionCookie := Some (before_semicolon authCookie) in
          match read_body (data response) with
          | Resolves result => (Resolves result, sessionCookie)
          | Throws message => (Throws (login_failed message), sessionCookie)
          end
        | None => (Throws (login_failed "No session cookie received from server"),
                   sessionCookie)
        end
      | _ => (Throws (login_failed "No session cookie received from server"), sessionCookie)
      end
    else (Throws (login_failed ("Login failed with status " ++ pretty (status response))),
          sessionCookie)
  end.

End Login.

Arguments Null {value}.
Arguments Undefined {value}.
Arguments Fields {value} d.
Arguments User {value} l.
Arguments Account {value} l.
Arguments Server {value} l.
Arguments ServerVersion {value} l.
Arguments status {value} l.
Arguments set_cookie {value} l.
Arguments data {value} l.
Arguments user {value} l.
Arguments account {value} l.
Arguments server {value} l.
Arguments serverVersion {value} l.
Arguments read_body {value} b.
Arguments login {value} get sessionCookie.

(** [isLoggedIn()] *)
Definition isLoggedIn (sessionCookie : option string) : bool :=
  match sessionCookie with
  | Some _ => true
  | None => false
  end.

(** The session cookie [login] stores for a response: the response has
    status 200, [header] is one of its [set-cookie] headers and starts with
    [rf-auth=], and the cookie is [header] up to its first semicolon. *)
Definition stores {value} (response : login_response value) (header rest : string)
    (cookie : option string) : Prop :=
  status response = 200 /\
  (exists cookies, set_cookie response = Some cookies /\ header ∈ cookies) /\
  String.prefix "rf-auth=" header = true /\
  header = (before_semicolon header ++ rest)%string /\
  (rest = EmptyString \/ String.prefix ";" rest = true) /\
  cookie = Some (before_semicolon header).

(** A response of the server that sets the session cookie with attributes. *)
Definition welcome : login_response string :=
  {| status := 200;
     set_cookie := Some ["lang=en; Path=/"; "rf-auth=0123abcd; Path=/; HttpOnly"];
     data := Fields {| User := Some "fax"; Account := None;
                       Server := Some "fax01"; ServerVersion := Some "16.6" |} |}.

(** The same response with the body [null]. *)
Definition welcome_without_body : login_response string :=
  {| status := 200;
     set_cookie := Some ["lang=en; Path=/"; "rf-auth=0123abcd; Path=/; HttpOnly"];
     data := Null |}.

End FaxApi.

(** ** The metrics collector: [collectMetrics] *)

Module Collector.

Import Js Metrics.
Local Open Scope string_scope.
Local Open Scope list_scope.
Local Open Scope Z_scope.

(** Clock readings are milliseconds of local time, with days of 24 hours. *)
Definition startOfHour (now : Z) : Z := now - now mod 3600000.
Definition startOfDay (now : Z) : Z := now - now mod 86400000.
Definition getHours (now : Z) : Z := now mod 86400000 / 3600000.

(** SQL aggregates over the values of a column, NULL being [None]: [SUM],
    [MAX] and [AVG] skip the NULLs and are NULL when nothing is left; the
    average is kept as the sum and the number of values. *)
Definition SUM (column : list (option Z)) : option Z :=
  match omap id column with
  | [] => None
  | v :: vs => Some (foldl Z.add v vs)
  end.

Definition MAX (column : list (option Z)) : option Z :=
  match omap id column with
  | [] => None
  | v :: vs => Some (foldl Z.max v vs)
  end.

Definition AVG (column : list (option Z)) : option (Z * Z) :=
  match omap id column with
  | [] => None
  | v :: vs => Some (foldl Z.add v vs, Z.of_nat (length (v :: vs)))
  end.

(** [CASE WHEN condition THEN 1 ELSE 0 END] *)
Definition CASE (condition : bool) : option Z := Some (if condition then 1 else 0).

(** [Math.round(average) || 0]: the nearest integer of the quotient, a tie
    towards plus infinity; 0 for NULL. *)
Definition Math_round_or_0 (average : option (Z * Z)) : Z :=
  match average with
  | Some (total, n) => (2 * total + n) / (2 * n)
  | None => 0
  end.

(** The row the aggregate query of [collectMetrics] returns. *)
Record aggregate := {
  q_total_submitted : option Z;
  q_total_succeeded : option Z;
  q_total_failed : option Z;
  q_total_cancelled : option Z;
  q_avg_conversion_time : option (Z * Z);
  q_avg_transmission_time : option (Z * Z);
  q_avg_total_time : option (Z * Z);
  q_max_conversion_time : option Z;
  q_max_transmission_time : option Z;
  q_total_pages : option Z;
  q_total_batches : option Z
}.

(** [... FROM fax_submissions WHERE queued_at >= $1 AND queued_at < $2], on
    the rows of the table, each with its [queued_at]. *)
Definition selected (hourStart hourEnd : Z) (fax_submissions : list (Z * Db.submission))
  : list Db.submission :=
  snd <$> List.filter (fun r => (hourStart <=? fst r) && (fst r <? hourEnd)) fax_submissions.

Definition query (hourStart hourEnd : Z) (fax_submissions : list (Z * Db.submission))
  : aggregate :=
  let rows := selected hourStart hourEnd fax_submissions in
  {| q_total_submitted := Some (Z.of_nat (length rows));
     q_total_succeeded :=
       SUM ((fun r => CASE (String.eqb (Db.row_status r) "sent")) <$> rows);
     q_total_failed :=
       SUM ((fun r => CASE (String.eqb (Db.row_status r) "failed")) <$> rows);
     q_total_cancelled :=
       SUM ((fun r => CASE (String.eqb (Db.row_status r) "cancelled"
                            || String.eqb (Db.row_status r) "canceled")) <$> rows);
     q_avg_conversion_time := AVG (Db.row_conversion_duration <$> rows);
     q_avg_transmission_time := AVG (Db.row_transmission_duration <$> rows);
     q_avg_total_time := AVG (Db.row_total_duration <$> rows);
     q_max_conversion_time := MAX (Db.row_conversion_duration <$> rows);
     q_max_transmission_time := MAX (Db.row_transmission_duration <$> rows);
     q_total_pages := SUM (Db.row_page_count <$> rows);
     q_total_batches := Some (Z.of_nat (length (remove_dups (Db.row_batch_id <$> rows)))) |}.

(** The record handed to [db.updateMetrics]. *)
Definition record_of (now : Z) (metrics : aggregate) : Metrics.metrics :=
  {| date := startOfDay now;
     hour := getHours now;
     vals :=
       {| total_submitted := Some (parseInt_or (q_total_submitted metrics) 0);
          total_succeeded := Some (parseInt_or (q_total_succeeded metrics) 0);
          total_failed := Some (parseInt_or (q_total_failed metrics) 0);
          total_cancelled := Some (parseInt_or (q_total_cancelled metrics) 0);
          avg_conversion_time := Some (Math_round_or_0 (q_avg_conversion_time metrics));
          avg_transmission_time := Some (Math_round_or_0 (q_avg_transmission_time metrics));
          avg_total_time := Some (Math_round_or_0 (q_avg_total_time metrics));
          max_conversion_time := Some (parseInt_or (q_max_conversion_time metrics) 0);
          max_transmission_time := Some (parseInt_or (q_max_transmission_time metrics) 0);
          total_pages := Some (parseInt_or (q_total_pages metrics) 0);
          total_batches := Some (parseInt_or (q_total_batches metrics) 0) |} |}.

(** One run of the collector: when it is started, the rows of
    [fax_submissions] then, and whether its two calls of the database
    resolve. *)
Record collection := {
  now : Z;
  fax_submissions : list (Z * Db.submission);
  query_ok : bool;
  updateMetrics_ok : bool
}.

(** [collectMetrics()] on the table [fax_metrics]: the aggregate of the
    current hour is handed to [updateMetrics]; an error of either call is
    thrown again ([None]). Whether the statement of [updateMetrics] is
    accepted is the answer [updateMetrics_ok] of the database. *)
Definition collectMetrics (c : collection) (fax_metrics : gmap (Z * Z) values)
  : option (gmap (Z * Z) values) :=
  let hourStart := startOfHour (now c) in
  let hourEnd := hourStart + 60 * 60 * 1000 in
  if query_ok c then
    let metrics := query hourStart hourEnd (fax_submissions c) in
    if updateMetrics_ok c then
      Some (upsert (record_of (now c) metrics) fax_metrics)
    else None
  else None.

(** The collections [start()] runs, one at once and one per interval: a
    collection that fails is logged and leaves the table as it was. *)
Definition collect (fax_metrics : gmap (Z * Z) values) (c : collection)
  : gmap (Z * Z) values :=
  default fax_metrics (collectMetrics c fax_metrics).

Definition collections (cs : list collection) (fax_metrics : gmap (Z * Z) values)
  : gmap (Z * Z) values :=
  foldl collect fax_metrics cs.

(** The submissions of the hour of a collection, and those of them with a
    given status. *)
Definition of_the_hour (c : collection) : list Db.submission :=
  selected (startOfHour (now c)) (startOfHour (now c) + 3600000) (fax_submissions c).

Definition submitted (c : collection) : Z := Z.of_nat (length (of_the_hour c)).

Definition with_status (st : string) (c : collection) : Z :=
  Z.of_nat (length (List.filter (fun r => String.eqb (Db.row_status r) st) (of_the_hour c))).

Definition total (f : collection -> Z) (cs : list collection) : Z :=
  foldr (fun c acc => f c + acc) 0 cs.

(** A ['sent'] submission queued at [queued_at]. *)
Definition sent_row (queued_at : Z) (handle : string) : Z * Db.submission :=
  (queued_at,
   {| Db.row_batch_id := 1; Db.row_fax_handle := Db.JobHandle handle;
      Db.row_send_job_id := Some handle; Db.row_document_id := None;
      Db.row_destination_number := "5551234"; Db.row_recipient_name := Db.Numbered 1;
      Db.row_status := "sent"; Db.row_condition := None; Db.row_priority := "Normal";
      Db.row_page_count := Some 1;
      Db.row_conversion_completed_at := None; Db.row_transmission_completed_at := None;
      Db.row_conversion_duration := Some 5000; Db.row_transmission_duration := Some 0;
      Db.row_total_duration := Some 5000; Db.row_error_message := None;
      Db.row_billing_code1 := None; Db.row_billing_code2 := None |}).

(** Two collections five minutes apart in one hour, over the same two rows. *)
Definition two_collections : list collection :=
  [ {| now := 36000000 + 60000; fax_submissions := [sent_row 36000100 "a"; sent_row 36000200 "b"];
       query_ok := true; updateMetrics_ok := true |};
    {| now := 36000000 + 360000; fax_submissions := [sent_row 36000100 "a"; sent_row 36000200 "b"];
       query_ok := true; updateMetrics_ok := true |} ].

End Collector.

(** ** The activity log of the renderer: [logActivity] *)

Module Renderer.

Local Open Scope list_scope.

Section Log.

(** An entry of the activity log: a [div] with its class and text. *)
Variable entry : Type.

(** [while (logContent.children.length > 100)
       logContent.removeChild(logContent.lastChild)].
    The recursion is on [fuel]; a loop that has none left stops where it is. *)
Fixpoint remove_over_100 (fuel : nat) (children : list entry) : list entry :=
  match fuel with
  | O => children
  | S fuel' =>
    if (100 <? length children)%nat then remove_over_100 fuel' (removelast children)
    else children
  end.

(** [logActivity(message, type)] on the children of [activityLogContent],
    first child first: [logContent.insertBefore(logEntry, logContent.firstChild)],
    then the loop, which removes one child in each turn. *)
Definition logActivity (logEntry : entry) (children : list entry) : list entry :=
  let children := logEntry :: children in
  remove_over_100 (length children) children.

(** The log after the entries of [logged], in the order of the calls. *)
Definition log_after (logged : list entry) (children : list entry) : list entry :=
  foldl (fun children logEntry => logActivity logEntry children) children logged.

End Log.

End Renderer.

(** * Properties of the monitor *)

Module MonitorFacts.
Import Js Monitor.
Local Open Scope string_scope.

Lemma round_to_seconds_0 : round_to_seconds 0 = 0%Z.
Proof. reflexivity. Qed.

Lemma loop_body_throws t0 tst p :
  throws p = true -> exists tst' u, loop_body t0 tst p = Next tst' u.
Proof.
  unfold throws, loop_body, terminal_condition, persist_and_continue.
  destruct (getSendJob p) as [[[st|] c]|]; simpl; eauto.
  destruct (getDocumentsForSendJob p) as [[|doc docs]|]; simpl; eauto.
  - destruct (updateSubmission_ok p); simpl; eauto.
  - destruct (String.eqb (Condition doc) "Succeeded"); simpl.
    + destruct (updateSubmission_ok p), (emit_ok p); simpl; eauto; discriminate.
    + destruct (String.eqb (Condition doc) "Failed" || String.eqb (Condition doc) "Canceled")%bool;
        destruct (updateSubmission_ok p), (emit_ok p); simpl; eauto; discriminate.
Qed.

Lemma loop_body_no_terminal t0 tst p :
  terminal_condition p = false -> exists u, loop_body t0 tst p = Next tst u.
Proof.
  unfold loop_body, terminal_condition, persist_and_continue.
  destruct (getSendJob p) as [[[st|] c]|]; simpl; eauto.
  destruct (getDocumentsForSendJob p) as [[|doc docs]|]; simpl; eauto.
  - destruct (updateSubmission_ok p); eauto.
  - destruct (String.eqb (Condition doc) "Succeeded"); simpl; [discriminate|].
    destruct (String.eqb (Condition doc) "Failed" || String.eqb (Condition doc) "Canceled")%bool;
      simpl; [discriminate|].
    destruct (updateSubmission_ok p); eauto.
Qed.

Lemma loop_body_Next_tst t0 tst p tst' u :
  loop_body t0 tst p = Next tst' u -> observes_Succeeded p = false -> tst' = tst.
Proof.
  unfold loop_body, observes_Succeeded, persist_and_continue.
  destruct (getSendJob p) as [[[st|] c]|]; simpl; try congruence.
  destruct (getDocumentsForSendJob p) as [[|doc docs]|]; simpl; try congruence.
  - destruct (updateSubmission_ok p); congruence.
  - destruct (String.eqb (Condition doc) "Succeeded"); simpl; [congruence|].
    destruct (String.eqb (Condition doc) "Failed" || String.eqb (Condition doc) "Canceled")%bool;
      destruct (updateSubmission_ok p); try destruct (emit_ok p); congruence.
Qed.

Lemma loop_body_ReturnSent t0 tst p u :
  loop_body t0 tst p = ReturnSent u ->
  conversion_completed_at u = Some (t0 + 5000)%Z /\
  (tst = None ->
   conversion_duration u = Some (round_to_seconds (Date_now p - t0)) /\
   transmission_duration u = Some 0%Z /\
   total_duration u = Some (Date_now p - t0)%Z).
Proof.
  unfold loop_body, persist_and_continue.
  destruct (getSendJob p) as [[[st|] c]|]; simpl; try congruence.
  destruct (getDocumentsForSendJob p) as [[|doc docs]|]; simpl; try congruence.
  - destruct (updateSubmission_ok p); congruence.
  - destruct (String.eqb (Condition doc) "Succeeded"); simpl.
    + destruct (updateSubmission_ok p); [|congruence].
      destruct (emit_ok p); [|congruence].
      intros [= <-]; simpl. split; [reflexivity|].
      intros ->; simpl. rewrite Z.sub_diag. auto.
    + destruct (String.eqb (Condition doc) "Failed" || String.eqb (Condition doc) "Canceled")%bool;
        destruct (updateSubmission_ok p); try destruct (emit_ok p); congruence.
Qed.


Section Loop.

Variable maxAttempts : nat.
Variable t0 : Z.
Variable polls : nat -> poll.

Lemma loop_step_cases v :
  (attempts v < maxAttempts)%nat /\
    ((exists tst u, loop_body t0 (transmissionStartTime v) (polls (k v)) = Next tst u /\
        fst (loop_step maxAttempts t0 polls v) =
          Polling {| k := S (k v); attempts := S (attempts v); transmissionStartTime := tst;
                     accepted := match u with Some x => x :: accepted v | None => accepted v end |})
     \/ (exists u, loop_body t0 (transmissionStartTime v) (polls (k v)) = ReturnSent u /\
           fst (loop_step maxAttempts t0 polls v) =
             Returned {| iterations := S (k v); accepted_updates := accepted v; final := Sent u |})
     \/ (exists u, loop_body t0 (transmissionStartTime v) (polls (k v)) = ReturnEnded u /\
           fst (loop_step maxAttempts t0 polls v) =
             Returned {| iterations := S (k v); accepted_updates := accepted v; final := Ended u |}))
  \/ (maxAttempts <= attempts v)%nat /\
     fst (loop_step maxAttempts t0 polls v) =
       Returned {| iterations := k v; accepted_updates := accepted v;
                   final := ceiling_ending (polls (k v)) |}.
Proof.
  unfold loop_step, ceiling_ending.
  destruct (Nat.ltb_spec (attempts v) maxAttempts) as [Hlt|Hge].
  - left. split; [assumption|].
    destruct (loop_body t0 (transmissionStartTime v) (polls (k v))) as [tst u|u|u]; simpl; eauto 6.
  - right. split; [assumption|]. destruct (updateSubmission_ok (polls (k v))); reflexivity.
Qed.

Lemma ceiling_ending_cases p :
  ceiling_ending p = TimedOut timeout_updates \/ ceiling_ending p = Threw timeout_updates.
Proof. unfold ceiling_ending. destruct (updateSubmission_ok p); auto. Qed.

Lemma at_ceiling_ending p n acc :
  at_ceiling {| iterations := n; accepted_updates := acc; final := ceiling_ending p |} = true.
Proof. unfold at_ceiling, ceiling_ending. cbn. destruct (updateSubmission_ok p); reflexivity. Qed.

(** Termination and the ceiling, from any point of the loop. *)
Lemma monitor_loop_bounded fuel : forall v,
  (attempts v <= maxAttempts)%nat ->
  (maxAttempts - attempts v < fuel)%nat ->
  exists r, monitor_loop fuel maxAttempts t0 polls v = Some r /\
    (k v <= iterations r <= k v + (maxAttempts - attempts v))%nat /\
    (iterations r = k v -> at_ceiling r = true) /\
    (at_ceiling r = true ->
       iterations r = (k v + (maxAttempts - attempts v))%nat /\
       final r = ceiling_ending (polls (iterations r))) /\
    (forall j, (k v <= j < iterations r)%nat -> throws (polls j) = true ->
       (S j < iterations r)%nat \/
       (S j = (k v + (maxAttempts - attempts v))%nat /\ at_ceiling r = true)) /\
    ((forall j, (k v <= j < k v + (maxAttempts - attempts v))%nat ->
        terminal_condition (polls j) = false) ->
     at_ceiling r = true).
Proof.
  induction fuel as [|fuel IH]; intros v Hle Hfuel; [lia|].
  simpl.
  destruct (loop_step_cases v) as [[Hlt [(tst & u & Hb & ->)|[(u & Hb & ->)|(u & Hb & ->)]]]|[Hge ->]].
  - destruct (IH {| k := S (k v); attempts := S (attempts v); transmissionStartTime := tst;
                    accepted := match u with Some x => x :: accepted v | None => accepted v end |})
      as (r & Hr & Hit & Hzero & Hto & Hthr & Hnone); simpl in *; [lia|lia|].
    exists r. split; [exact Hr|]. split; [lia|]. split; [lia|]. split; [|split].
    + intros Hc. destruct (Hto Hc) as [-> ->]. split; [lia|reflexivity].
    + intros j Hj Hthrows.
      destruct (Nat.eq_dec j (k v)) as [->|Hne].
      * destruct (Nat.eq_dec (S (k v)) (iterations r)) as [Heq|Hneq]; [|left; lia].
        assert (at_ceiling r = true) as Hfin by (apply Hzero; lia).
        right. split; [|exact Hfin].
        destruct (Hto Hfin) as [Hi _]. lia.
      * destruct (Hthr j) as [?|[? ?]]; [lia|assumption|left; assumption|right; split; [lia|assumption]].
    + intros Hno. apply Hnone. intros j Hj. apply Hno. lia.
  - eexists. split; [reflexivity|]. simpl. split; [lia|]. split; [lia|]. split; [|split].
    + discriminate.
    + intros j Hj Hthrows. assert (j = k v) as -> by lia.
      destruct (loop_body_throws t0 (transmissionStartTime v) _ Hthrows) as (? & ? & Hn). congruence.
    + intros Hno.
      destruct (loop_body_no_terminal t0 (transmissionStartTime v) (polls (k v))) as (? & Hn);
        [apply Hno; lia|congruence].
  - eexists. split; [reflexivity|]. simpl. split; [lia|]. split; [lia|]. split; [|split].
    + discriminate.
    + intros j Hj Hthrows. assert (j = k v) as -> by lia.
      destruct (loop_body_throws t0 (transmissionStartTime v) _ Hthrows) as (? & ? & Hn). congruence.
    + intros Hno.
      destruct (loop_body_no_terminal t0 (transmissionStartTime v) (polls (k v))) as (? & Hn);
        [apply Hno; lia|congruence].
  - eexists. split; [reflexivity|]. cbn [iterations final]. split; [lia|].
    split; [intros _; apply at_ceiling_ending|]. split; [|split].
    + intros _. split; [lia|reflexivity].
    + intros j Hj. lia.
    + intros _. apply at_ceiling_ending.
Qed.

(** What a run that returns from the Succeeded branch has persisted. *)
Lemma monitor_loop_Sent fuel : forall v r u,
  monitor_loop fuel maxAttempts t0 polls v = Some r ->
  final r = Sent u ->
  (k v < iterations r)%nat /\
  conversion_completed_at u = Some (t0 + 5000)%Z /\
  (transmissionStartTime v = None ->
   (forall j, (k v <= j)%nat -> (S j < iterations r)%nat -> observes_Succeeded (polls j) = false) ->
   conversion_duration u = Some (round_to_seconds (Date_now (polls (pred (iterations r))) - t0)) /\
   transmission_duration u = Some 0%Z /\
   total_duration u = Some (Date_now (polls (pred (iterations r))) - t0)%Z).
Proof.
  induction fuel as [|fuel IH]; intros v r u Hrun Hfin; [discriminate|].
  simpl in Hrun.
  destruct (loop_step_cases v) as [[Hlt [(tst & x & Hb & Hs)|[(x & Hb & Hs)|(x & Hb & Hs)]]]|[Hge Hs]];
    rewrite Hs in Hrun.
  - destruct (IH _ _ _ Hrun Hfin) as (Hk & Hc & Hd); simpl in *.
    split; [lia|]. split; [exact Hc|].
    intros Hnone Hobs. apply Hd.
    + rewrite <- Hnone. eapply loop_body_Next_tst; [exact Hb|]. apply Hobs; lia.
    + intros j Hj Hj'. apply Hobs; lia.
  - injection Hrun as <-. simpl in *. injection Hfin as <-.
    destruct (loop_body_ReturnSent _ _ _ _ Hb) as [Hc Hd].
    split; [lia|]. split; [exact Hc|]. intros Hnone _. apply Hd, Hnone.
  - injection Hrun as <-. discriminate.
  - injection Hrun as <-. cbn [final] in Hfin.
    destruct (ceiling_ending_cases (polls (k v))) as [Hc|Hc]; rewrite Hc in Hfin; discriminate.
Qed.

End Loop.


(** C6 fails as stated: the ceiling is reached with no terminal document
    condition observed and the submission is not persisted with status
    ['timeout']. The document stays ['Processing'] and the database rejects
    the updates: the loop runs its 120 iterations, the update after the
    loop throws, and the monitor ends with nothing written. *)
Lemma timeout_not_persisted :
  (forall j, terminal_condition (polls_database_down j) = false) /\
  exists r,
    _monitorFax 121 0 polls_database_down = Some r /\
    iterations r = Monitor.maxAttempts /\
    final r = Threw timeout_updates /\
    accepted_updates r = [] /\
    snd (loop_step Monitor.maxAttempts 0 polls_database_down
           {| k := Monitor.maxAttempts; attempts := Monitor.maxAttempts;
              transmissionStartTime := None; accepted := [] |}) = None.
Proof.
  split; [intros j; reflexivity|].
  exists {| iterations := 120; accepted_updates := []; final := Threw timeout_updates |}.
  vm_compute. repeat split.
Qed.

(** C6, as the code has it. The polling loop of a monitor ends within the
    attempt ceiling, whatever the backend and the database answer: with
    [maxAttempts + 1] evaluations of the loop test the monitor ends; the body
    ran at most [maxAttempts] times; an iteration in which a call threw is
    followed by a further iteration, or was the last one allowed and the
    loop was left at the ceiling; when no poll below the ceiling shows a
    terminal document condition, all [maxAttempts] iterations run and the
    loop is left at the ceiling. A monitor that leaves the loop at the
    ceiling has run [maxAttempts] iterations and issues one update, which
    sets status ['timeout'] and the message
    ['Monitoring timeout - fax status unknown']: when the database accepts
    it the submission is persisted so, and when the database rejects it the
    monitor ends all the same, its promise rejected and nothing written. *)
Theorem monitor_ends_within_ceiling (maxAttempts : nat) (t0 : Z) (polls : nat -> poll) :
  exists r,
    monitor_loop (S maxAttempts) maxAttempts t0 polls initial_vars = Some r /\
    (iterations r <= maxAttempts)%nat /\
    (forall j, (j < iterations r)%nat -> throws (polls j) = true ->
       (S j < iterations r)%nat \/
       (S j = maxAttempts /\ at_ceiling r = true)) /\
    ((forall j, (j < maxAttempts)%nat -> terminal_condition (polls j) = false) ->
     iterations r = maxAttempts /\ at_ceiling r = true) /\
    (at_ceiling r = true ->
     iterations r = maxAttempts /\
     final r = (if updateSubmission_ok (polls maxAttempts)
                then TimedOut timeout_updates else Threw timeout_updates) /\
     snd (loop_step maxAttempts t0 polls
            {| k := maxAttempts; attempts := maxAttempts;
               transmissionStartTime := None; accepted := [] |})
     = (if updateSubmission_ok (polls maxAttempts) then Some timeout_updates else None)) /\
    status timeout_updates = Some "timeout" /\
    error_message timeout_updates = Some "Monitoring timeout - fax status unknown".
Proof.
  destruct (monitor_loop_bounded maxAttempts t0 polls (S maxAttempts) initial_vars)
    as (r & Hr & Hit & _ & Hto & Hthr & Hnone); simpl; [lia|lia|].
  simpl in *. rewrite Nat.sub_0_r in *.
  exists r. split; [exact Hr|]. split; [lia|].
  split; [|split; [|split; [|split; reflexivity]]].
  - intros j Hj Ht. apply Hthr; [lia|exact Ht].
  - intros Hno.
    assert (at_ceiling r = true) as Hfin
      by (apply Hnone; intros j Hj; apply Hno; lia).
    split; [|exact Hfin]. apply (Hto Hfin).
  - intros Hc. destruct (Hto Hc) as [Hi Hf]. split; [exact Hi|].
    rewrite Hf, Hi. split; [reflexivity|].
    unfold loop_step. cbn [attempts k]. rewrite Nat.ltb_irrefl.
    destruct (updateSubmission_ok (polls maxAttempts)); reflexivity.
Qed.

(** The monitor of the code, with its ceiling of 120 attempts, returns within
    121 evaluations of the loop test. *)
Corollary _monitorFax_returns (t0 : Z) (polls : nat -> poll) :
  exists r, _monitorFax 121 t0 polls = Some r /\ (iterations r <= 120)%nat.
Proof.
  destruct (monitor_loop_bounded Monitor.maxAttempts t0 polls 121 initial_vars)
    as (r & Hr & Hit & _); simpl; [unfold Monitor.maxAttempts; lia..|].
  exists r. split; [exact Hr|]. simpl in Hit. unfold Monitor.maxAttempts in Hit. lia.
Qed.

(** C3, as the code has it. When a monitor ends in status ['sent'], the
    persisted [conversion_completed_at] is the start of the monitor plus the
    fixed 5000 ms, and, when the returning poll is the first that observed
    Succeeded, the persisted [conversion_duration] is the time from the start
    to that observation rounded to whole seconds. *)
Theorem sent_conversion_timing (fuel : nat) (t0 : Z) (polls : nat -> poll)
    (r : run) (u : updates) :
  _monitorFax fuel t0 polls = Some r ->
  final r = Sent u ->
  conversion_completed_at u = Some (t0 + 5000)%Z /\
  ((forall j, (S j < iterations r)%nat -> observes_Succeeded (polls j) = false) ->
   conversion_duration u
   = Some (round_to_seconds (Date_now (polls (pred (iterations r))) - t0))).
Proof.
  intros Hrun Hfin.
  destruct (monitor_loop_Sent _ _ _ _ _ _ _ Hrun Hfin) as (_ & Hc & Hd).
  split; [exact Hc|]. intros Hobs.
  apply Hd; [reflexivity|]. intros j _ Hj. apply Hobs, Hj.
Qed.

Lemma sent_conversion_timing_witness :
  exists r u,
    _monitorFax 121 0 polls_sent_at_second = Some r /\ final r = Sent u /\
    conversion_completed_at u = Some 5000%Z /\
    conversion_duration u = Some 10000%Z.
Proof.
  eexists. eexists. split; [vm_compute; reflexivity|]. split; [reflexivity|].
  destruct (sent_conversion_timing 121 0 polls_sent_at_second _ _ eq_refl eq_refl)
    as [Hc Hd].
  split; [exact Hc|]. apply Hd.
  intros [|j] Hj; [reflexivity|]. simpl in Hj. lia.
Defined.

(** C3 as stated fails: a monitor that sees the document succeed at its
    second poll, 10000 ms after its start, persists a conversion duration of
    10000 ms. *)
Lemma conversion_duration_not_one_interval :
  ~ (forall fuel t0 polls r u,
       _monitorFax fuel t0 polls = Some r -> final r = Sent u ->
       conversion_duration u = Some 5000%Z).
Proof.
  intros H.
  specialize (H 121%nat 0%Z polls_sent_at_second _ _ eq_refl eq_refl).
  vm_compute in H. discriminate H.
Qed.

(** C10, as the code has it. When a monitor ends in status ['sent'] at the
    first poll that observed Succeeded, the persisted [transmission_duration]
    is 0, after any number of earlier polls. *)
Theorem sent_transmission_duration_zero (fuel : nat) (t0 : Z) (polls : nat -> poll)
    (r : run) (u : updates) :
  _monitorFax fuel t0 polls = Some r ->
  final r = Sent u ->
  (forall j, (S j < iterations r)%nat -> observes_Succeeded (polls j) = false) ->
  transmission_duration u = Some 0%Z.
Proof.
  intros Hrun Hfin Hobs.
  destruct (monitor_loop_Sent _ _ _ _ _ _ _ Hrun Hfin) as (_ & _ & Hd).
  apply Hd; [reflexivity|]. intros j _ Hj. apply Hobs, Hj.
Qed.

Lemma sent_transmission_duration_zero_witness :
  exists r u,
    _monitorFax 121 0 polls_sent_at_second = Some r /\ final r = Sent u /\
    transmission_duration u = Some 0%Z.
Proof.
  eexists. eexists. split; [vm_compute; reflexivity|]. split; [reflexivity|].
  apply (sent_transmission_duration_zero 121 0 polls_sent_at_second _ _ eq_refl eq_refl).
  intros [|j] Hj; [reflexivity|]. simpl in Hj. lia.
Defined.

(** C10 as stated fails: the first poll observes Succeeded at 5000 ms and its
    update of the row throws, the second observes Succeeded at 10000 ms and
    is persisted; the start of the transmission was kept from the first, and
    the persisted transmission duration is 5000 ms. *)
Lemma transmission_duration_not_always_zero :
  ~ (forall fuel t0 polls r u,
       _monitorFax fuel t0 polls = Some r -> final r = Sent u ->
       transmission_duration u = Some 0%Z).
Proof.
  intros H.
  specialize (H 121%nat 0%Z polls_sent_after_retry _ _ eq_refl eq_refl).
  vm_compute in H. discriminate H.
Qed.

Lemma round_to_seconds_near (d : Z) :
  (round_to_seconds d mod 1000 = 0 /\ -500 < round_to_seconds d - d <= 500)%Z.
Proof.
  unfold round_to_seconds. split.
  - apply Z.mod_mul. lia.
  - pose proof (Z.mul_div_le (d + 500) 1000 ltac:(lia)).
    pose proof (Z.mul_succ_div_gt (d + 500) 1000 ltac:(lia)). lia.
Qed.

(** What the Succeeded branch hands to the database when it returns. *)
Lemma loop_body_ReturnSent_fields t0 tst p u :
  loop_body t0 tst p = ReturnSent u ->
  exists t doc docs,
    getDocumentsForSendJob p = Some (doc :: docs) /\
    Condition doc = "Succeeded" /\
    (t = Date_now p \/ tst = Some t) /\
    status u = Some "sent" /\
    document_id u = Some (Id doc) /\
    page_count u = Some (PageCount doc) /\
    conversion_duration u = Some (round_to_seconds (t - t0)) /\
    transmission_duration u = Some (round_to_seconds (Date_now p - t)) /\
    total_duration u = Some (Date_now p - t0)%Z /\
    error_message u = None.
Proof.
  unfold loop_body, persist_and_continue.
  destruct (getSendJob p) as [[[st|] c]|]; simpl; try congruence.
  destruct (getDocumentsForSendJob p) as [[|doc docs]|]; simpl; try congruence.
  - destruct (updateSubmission_ok p); congruence.
  - destruct (String.eqb_spec (Condition doc) "Succeeded") as [Hc|Hc]; simpl.
    + destruct (updateSubmission_ok p); [|congruence].
      destruct (emit_ok p); [|congruence].
      intros [= <-]; simpl.
      exists (if falsy tst then Date_now p else default (Date_now p) tst), doc, docs.
      split; [reflexivity|]. split; [exact Hc|]. split.
      { destruct tst as [t|]; simpl; [|left; reflexivity].
        destruct (t =? 0)%Z; [left|right]; reflexivity. }
      repeat split.
    + destruct (String.eqb (Condition doc) "Failed" || String.eqb (Condition doc) "Canceled")%bool;
        destruct (updateSubmission_ok p); try destruct (emit_ok p); congruence.
Qed.

(** What the Failed / Canceled branch hands to the database when it returns. *)
Lemma loop_body_ReturnEnded_fields t0 tst p u :
  loop_body t0 tst p = ReturnEnded u ->
  exists doc docs,
    getDocumentsForSendJob p = Some (doc :: docs) /\
    (Condition doc = "Failed" /\ status u = Some "failed" \/
     Condition doc = "Canceled" /\ status u = Some "canceled") /\
    document_id u = Some (Id doc) /\
    page_count u = Some (PageCount doc) /\
    conversion_completed_at u = None /\
    transmission_completed_at u = None /\
    conversion_duration u = None /\
    transmission_duration u = None /\
    total_duration u = None /\
    error_message u = None.
Proof.
  unfold loop_body, persist_and_continue.
  destruct (getSendJob p) as [[[st|] c]|]; simpl; try congruence.
  destruct (getDocumentsForSendJob p) as [[|doc docs]|]; simpl; try congruence.
  - destruct (updateSubmission_ok p); congruence.
  - destruct (String.eqb_spec (Condition doc) "Succeeded") as [Hc|Hc]; simpl.
    + destruct (updateSubmission_ok p); [|congruence].
      destruct (emit_ok p); congruence.
    + destruct (String.eqb_spec (Condition doc) "Failed") as [Hf|Hf]; simpl.
      * destruct (updateSubmission_ok p); [|congruence].
        destruct (emit_ok p); [|congruence].
        intros [= <-]. exists doc, docs. simpl. rewrite Hf. simpl.
        split; [reflexivity|]. split; [left; split; reflexivity|]. repeat split.
      * destruct (String.eqb_spec (Condition doc) "Canceled") as [Hx|Hx]; simpl.
        -- destruct (updateSubmission_ok p); [|congruence].
           destruct (emit_ok p); [|congruence].
           intros [= <-]. exists doc, docs. simpl. rewrite Hx. simpl.
           split; [reflexivity|]. split; [right; split; reflexivity|]. repeat split.
        -- destruct (updateSubmission_ok p); congruence.
Qed.

(** An iteration whose first document has a terminal condition and in which
    no call throws returns. *)
Lemma loop_body_terminal t0 tst p :
  terminal_condition p = true -> throws p = false ->
  if observes_Succeeded p then exists u, loop_body t0 tst p = ReturnSent u
  else exists u, loop_body t0 tst p = ReturnEnded u.
Proof.
  unfold terminal_condition, throws, observes_Succeeded, loop_body, terminal_condition.
  destruct (getSendJob p) as [[[st|] c]|]; simpl; try discriminate.
  destruct (getDocumentsForSendJob p) as [[|doc docs]|]; simpl; try discriminate.
  destruct (String.eqb (Condition doc) "Succeeded"); simpl.
  - destruct (updateSubmission_ok p), (emit_ok p); simpl; try discriminate. eauto.
  - intros ->. destruct (updateSubmission_ok p), (emit_ok p); simpl; try discriminate. eauto.
Qed.

Section Runs.


Variable maxAttempts : nat.
Variable t0 : Z.
Variable polls : nat -> poll.

(** The update of a run that returned from inside the loop is the one its
    last iteration built. *)
Lemma monitor_loop_final fuel : forall v r,
  monitor_loop fuel maxAttempts t0 polls v = Some r ->
  match final r with
  | Sent u =>
    exists tst, loop_body t0 tst (polls (pred (iterations r))) = ReturnSent u
  | Ended u =>
    exists tst, loop_body t0 tst (polls (pred (iterations r))) = ReturnEnded u
  | TimedOut u | Threw u => u = timeout_updates
  end.
Proof.
  induction fuel as [|fuel IH]; intros v r Hrun; [discriminate|].
  simpl in Hrun.
  destruct (loop_step_cases maxAttempts t0 polls v)
    as [[Hlt [(tst & x & Hb & Hs)|[(x & Hb & Hs)|(x & Hb & Hs)]]]|[Hge Hs]];
    rewrite Hs in Hrun.
  - apply (IH _ _ Hrun).
  - injection Hrun as <-. simpl. eauto.
  - injection Hrun as <-. simpl. eauto.
  - injection Hrun as <-. cbn [final].
    destruct (ceiling_ending_cases (polls (k v))) as [Hc|Hc]; rewrite Hc; reflexivity.
Qed.

(** From a point of the loop with [n] polls without a terminal condition
    ahead and the attempts to run them, the loop returns at the poll after
    them when that one shows a terminal condition and no call throws. *)
Lemma monitor_loop_first_terminal (n : nat) : forall fuel v,
  (attempts v + n < maxAttempts)%nat -> (n < fuel)%nat ->
  (forall i, (k v <= i < k v + n)%nat -> terminal_condition (polls i) = false) ->
  terminal_condition (polls (k v + n)) = true ->
  throws (polls (k v + n)) = false ->
  exists r, monitor_loop fuel maxAttempts t0 polls v = Some r /\
    iterations r = S (k v + n) /\
    if observes_Succeeded (polls (k v + n)) then exists u, final r = Sent u
    else exists u, final r = Ended u.
Proof.
  induction n as [|n IH]; intros fuel v Hatt Hfuel Hnone Hterm Hthrow;
    (destruct fuel as [|fuel]; [lia|]); simpl.
  - rewrite Nat.add_0_r in *.
    pose proof (loop_body_terminal t0 (transmissionStartTime v) _ Hterm Hthrow) as Hbody.
    unfold loop_step.
    destruct (Nat.ltb_spec (attempts v) maxAttempts) as [_|?]; [|lia].
    destruct (observes_Succeeded (polls (k v))); destruct Hbody as [u ->]; simpl;
      eexists; (split; [reflexivity|]); simpl; eauto.
  - destruct (loop_body_no_terminal t0 (transmissionStartTime v) (polls (k v))) as [x Hb];
      [apply Hnone; lia|].
    unfold loop_step.
    destruct (Nat.ltb_spec (attempts v) maxAttempts) as [_|?]; [|lia].
    rewrite Hb. simpl.
    match goal with |- context [monitor_loop fuel _ _ _ ?v'] =>
      destruct (IH fuel v') as (r & Hr & Hit & Hfin) end; simpl.
    + lia.
    + lia.
    + intros i Hi. apply Hnone. lia.
    + rewrite <- Nat.add_succ_r. exact Hterm.
    + rewrite <- Nat.add_succ_r. exact Hthrow.
    + exists r. split; [exact Hr|]. simpl in Hit, Hfin.
      rewrite <- Nat.add_succ_r in Hit, Hfin.
      split; [exact Hit|exact Hfin].
Qed.

End Runs.

(** X1. Whatever the backend and the database answered before, the update
    of a monitor that ends in status ['sent'] carries a conversion duration
    and a transmission duration that are whole seconds (multiples of 1000 ms),
    and their sum differs from the total duration, which is not rounded, by
    at most one second. *)
Theorem sent_durations_whole_seconds (fuel : nat) (t0 : Z) (polls : nat -> poll)
    (r : run) (u : updates) :
  _monitorFax fuel t0 polls = Some r ->
  final r = Sent u ->
  status u = Some "sent" /\
  exists c t d,
    conversion_duration u = Some c /\ transmission_duration u = Some t /\
    total_duration u = Some d /\
    (c mod 1000 = 0 /\ t mod 1000 = 0 /\ -1000 < c + t - d <= 1000)%Z.
Proof.
  intros Hrun Hfin.
  pose proof (monitor_loop_final _ _ _ _ _ _ Hrun) as Hlast. rewrite Hfin in Hlast.
  destruct Hlast as [tst Hbody].
  destruct (loop_body_ReturnSent_fields _ _ _ _ Hbody)
    as (t & doc & docs & _ & _ & _ & Hst & _ & _ & Hc & Ht & Hd & _).
  split; [exact Hst|].
  eexists. eexists. eexists. split; [exact Hc|]. split; [exact Ht|]. split; [exact Hd|].
  pose proof (round_to_seconds_near (t - t0)).
  pose proof (round_to_seconds_near (Date_now (polls (pred (iterations r))) - t)).
  lia.
Qed.

Lemma sent_durations_whole_seconds_witness :
  exists r u,
    _monitorFax 121 0 polls_sent_after_retry = Some r /\ final r = Sent u /\
    status u = Some "sent".
Proof.
  eexists. eexists. split; [vm_compute; reflexivity|]. split; [reflexivity|].
  apply (sent_durations_whole_seconds 121 0 polls_sent_after_retry _ _ eq_refl eq_refl).
Defined.

(** X2. A monitor that returns from the Failed / Canceled branch hands the
    database the status ['failed'] or ['canceled'], the lower-case form of the
    condition of the first document of its last poll, with that document's id
    and page count, and sets no timestamp, no duration and no error message. *)
Theorem ended_status_failed_or_canceled (fuel : nat) (t0 : Z) (polls : nat -> poll)
    (r : run) (u : updates) :
  _monitorFax fuel t0 polls = Some r ->
  final r = Ended u ->
  exists doc docs,
    getDocumentsForSendJob (polls (pred (iterations r))) = Some (doc :: docs) /\
    (Condition doc = "Failed" /\ status u = Some "failed" \/
     Condition doc = "Canceled" /\ status u = Some "canceled") /\
    document_id u = Some (Id doc) /\
    page_count u = Some (PageCount doc) /\
    conversion_completed_at u = None /\
    transmission_completed_at u = None /\
    conversion_duration u = None /\
    transmission_duration u = None /\
    total_duration u = None /\
    error_message u = None.
Proof.
  intros Hrun Hfin.
  pose proof (monitor_loop_final _ _ _ _ _ _ Hrun) as Hlast. rewrite Hfin in Hlast.
  destruct Hlast as [tst Hbody].
  exact (loop_body_ReturnEnded_fields _ _ _ _ Hbody).
Qed.

Lemma ended_status_failed_or_canceled_witness :
  exists r u,
    _monitorFax 121 0 polls_canceled_at_third = Some r /\ final r = Ended u /\
    exists doc docs,
      getDocumentsForSendJob (polls_canceled_at_third (pred (iterations r)))
      = Some (doc :: docs) /\
      (Condition doc = "Failed" /\ status u = Some "failed" \/
       Condition doc = "Canceled" /\ status u = Some "canceled").
Proof.
  eexists. eexists. split; [vm_compute; reflexivity|]. split; [reflexivity|].
  destruct (ended_status_failed_or_canceled 121 0 polls_canceled_at_third _ _ eq_refl eq_refl)
    as (doc & docs & Hd & Hs & _).
  exists doc, docs. split; [exact Hd|exact Hs].
Defined.

(** X3. The monitor returns as soon as it can: when poll [j], below the
    ceiling, is the first whose first document shows a terminal condition and
    no call of that iteration throws, the monitor returns in iteration
    [j + 1], from the Succeeded branch when the condition is ['Succeeded'] and
    from the Failed / Canceled branch otherwise, whatever the earlier polls
    answered or threw. *)
Theorem returns_at_first_terminal_poll (t0 : Z) (polls : nat -> poll) (j : nat) :
  (j < Monitor.maxAttempts)%nat ->
  (forall i, (i < j)%nat -> terminal_condition (polls i) = false) ->
  terminal_condition (polls j) = true ->
  throws (polls j) = false ->
  exists r,
    _monitorFax (S Monitor.maxAttempts) t0 polls = Some r /\
    iterations r = S j /\
    if observes_Succeeded (polls j) then exists u, final r = Sent u
    else exists u, final r = Ended u.
Proof.
  intros Hj Hnone Hterm Hthrow.
  destruct (monitor_loop_first_terminal Monitor.maxAttempts t0 polls j
              (S Monitor.maxAttempts) initial_vars) as (r & Hr & Hit & Hfin); simpl.
  - exact Hj.
  - lia.
  - intros i Hi. apply Hnone. lia.
  - exact Hterm.
  - exact Hthrow.
  - exists r. split; [exact Hr|]. split; [exact Hit|exact Hfin].
Qed.

Lemma returns_at_first_terminal_poll_witness :
  exists r,
    _monitorFax (S Monitor.maxAttempts) 0 polls_canceled_at_third = Some r /\
    iterations r = 3%nat.
Proof.
  destruct (returns_at_first_terminal_poll 0 polls_canceled_at_third 2) as (r & Hr & Hit & _).
  - unfold Monitor.maxAttempts. lia.
  - intros [|[|i]] Hi; [reflexivity|reflexivity|lia].
  - reflexivity.
  - reflexivity.
  - exists r. split; [exact Hr|exact Hit].
Defined.

End MonitorFacts.

(** * Properties of the rows of the submissions *)

Module DbFacts.
Import Db.
Local Open Scope string_scope.
Local Open Scope list_scope.
Local Open Scope Z_scope.

Lemma handle_eqb_spec a b : reflect (a = b) (handle_eqb a b).
Proof.
  destruct a as [x|t n], b as [y|t' n']; simpl; try (constructor; discriminate).
  - destruct (String.eqb_spec x y); constructor; congruence.
  - destruct (Z.eqb_spec t t'), (Z.eqb_spec n n'); constructor; congruence.
Qed.

Lemma update_row_handle u r : row_fax_handle (update_row u r) = row_fax_handle r.
Proof. reflexivity. Qed.

Lemma update_row_idem u r : update_row u (update_row u r) = update_row u r.
Proof.
  unfold update_row; cbn. f_equal;
    first [ reflexivity
          | match goal with |- context [set_column ?x _] => destruct x; reflexivity end
          | match goal with |- context [default _ ?x] => destruct x; reflexivity end ].
Qed.

(** X13. [updateSubmission] leaves the number, the order and the handles of
    the rows as they are and changes the rows of its handle only, each to the
    row with the given columns set; with a handle that no row carries it
    changes nothing; applied twice it gives what it gives once; and two
    updates of different handles give the same table in either order. *)
Theorem updateSubmission_only_its_handle (faxHandle : handle) (u : Monitor.updates)
    (rows : list submission) :
  row_fax_handle <$> updateSubmission faxHandle u rows = row_fax_handle <$> rows /\
  (forall (i : nat) (r : submission), rows !! i = Some r ->
     updateSubmission faxHandle u rows !! i
     = Some (if handle_eqb (row_fax_handle r) faxHandle then update_row u r else r)) /\
  ((forall r, r ∈ rows -> row_fax_handle r <> faxHandle) ->
   updateSubmission faxHandle u rows = rows) /\
  updateSubmission faxHandle u (updateSubmission faxHandle u rows)
  = updateSubmission faxHandle u rows /\
  (forall (other : handle) (u' : Monitor.updates), other <> faxHandle ->
     updateSubmission other u' (updateSubmission faxHandle u rows)
     = updateSubmission faxHandle u (updateSubmission other u' rows)).
Proof.
  unfold updateSubmission. split; [|split; [|split; [|split]]].
  - induction rows as [|r rows IH]; [reflexivity|]. cbn. rewrite IH. f_equal.
    destruct (handle_eqb (row_fax_handle r) faxHandle); reflexivity.
  - intros i r Hi. change (map ?f rows) with (f <$> rows).
    rewrite list_lookup_fmap, Hi. reflexivity.
  - intros Hnone. induction rows as [|r rows IH]; [reflexivity|]. cbn.
    rewrite IH by (intros x Hx; apply Hnone, list_elem_of_further, Hx). f_equal.
    destruct (handle_eqb_spec (row_fax_handle r) faxHandle) as [Heq|_]; [|reflexivity].
    exfalso. apply (Hnone r); [apply list_elem_of_here|exact Heq].
  - rewrite map_map. apply map_ext. intros r.
    destruct (handle_eqb (row_fax_handle r) faxHandle) eqn:Heq.
    + rewrite update_row_handle, Heq. apply update_row_idem.
    + rewrite Heq. reflexivity.
  - intros other u' Hne. rewrite !map_map. apply map_ext. intros r.
    destruct (handle_eqb_spec (row_fax_handle r) faxHandle) as [Heq|Hneq];
      destruct (handle_eqb_spec (row_fax_handle r) other) as [Heq'|Hneq'];
      rewrite ?update_row_handle;
      try (destruct (handle_eqb_spec (row_fax_handle r) faxHandle); [|congruence]);
      try (destruct (handle_eqb_spec (row_fax_handle r) other); [|congruence]);
      try congruence.
Qed.

End DbFacts.

(** * Properties of the dispatcher *)

Module DispatcherFacts.

Import Js Dispatcher.
Local Open Scope string_scope.
Local Open Scope list_scope.
Local Open Scope Z_scope.

Ltac reduce_state :=
  cbn [pc activeRequests tasks monitors processedCount failedCount batch
       fax_submissions emitted with_pc with_activeRequests with_task with_monitor
       with_counts with_batch with_fax_submissions emit] in *.

Ltac step_cases H :=
  unfold step_of, dispatcher_step, task_step, finally_step, monitor_step,
         chunk_loop, catch_block, insert_row in H;
  repeat case_match; simplify_eq; reduce_state.

Section Invariants.

Variable cfg : settings.
Variable env : environment.

Lemma reachable_ind (P : state -> Prop) :
  P (initial cfg) ->
  (forall s s', reachable cfg env s -> P s -> step cfg env s s' -> P s') ->
  forall s, reachable cfg env s -> P s.
Proof.
  intros H0 Hstep. unfold reachable.
  apply rtc_ind_r; [exact H0|].
  intros y z Hy Hyz HP. eapply Hstep; eauto.
Qed.

Lemma exec_reachable schedule : forall s s',
  reachable cfg env s -> exec cfg env schedule s = Some s' -> reachable cfg env s'.
Proof.
  induction schedule as [|l schedule IH]; intros s s' Hs Hexec; simpl in Hexec.
  - congruence.
  - destruct (step_of cfg env l s) as [s1|] eqn:Hstep; [|discriminate].
    eapply IH; [|exact Hexec].
    eapply rtc_r; [exact Hs|]. exists l. exact Hstep.
Qed.

(** *** The concurrency gate *)

Lemma gate_step s s' : gate cfg s -> step cfg env s s' -> gate cfg s'.
Proof.
  intros [Hin Hsize] [l Hstep].
  destruct l as [|u|u|u]; step_cases Hstep; split; reduce_state; try assumption;
    try (intros u'; rewrite ?lookup_insert; try case_decide; intros; simplify_eq;
         try (apply Hin; assumption); set_solver).
  - (* a launch *)
    match goal with H : (_ >=? _) = false |- _ => rewrite Z.geb_leb in H; apply Z.leb_gt in H end.
    generalize (chunkStart cfg chunkIndex + i + 1). intros x.
    rewrite size_union_alt.
    assert (size ({[x]} ∖ activeRequests s : gset Z) <= 1)%nat.
    { etrans; [apply (subseteq_size _ {[x]}), subseteq_difference_l; reflexivity|].
      rewrite size_singleton. lia. }
    lia.
  - (* a promise leaves the set *)
    assert (size (activeRequests s ∖ {[u]}) <= size (activeRequests s))%nat
      by (apply subseteq_size, subseteq_difference_l; reflexivity).
    lia.
Qed.

Lemma gate_reachable s : reachable cfg env s -> gate cfg s.
Proof.
  apply reachable_ind.
  - split; [intros u; cbn; rewrite lookup_empty; discriminate|].
    cbn. rewrite size_empty. lia.
  - intros ? ? _. apply gate_step.
Qed.

Lemma in_flight_active s :
  gate cfg s -> (size (in_flight s) <= size (activeRequests s))%nat.
Proof.
  intros [Hin _]. rewrite <- size_dom. apply subseteq_size.
  intros u Hu. apply elem_of_dom in Hu as [t Ht].
  unfold in_flight in Ht. apply map_lookup_filter_Some in Ht as [Ht Heq].
  simpl in Heq. subst t. apply Hin, Ht.
Qed.

(** *** Chunks *)

Lemma seqZ_snoc m n : 0 <= n -> seqZ m (n + 1) = seqZ m n ++ [m + n].
Proof.
  intros Hn. rewrite seqZ_app by lia. reflexivity.
Qed.

Hypothesis batchSize_pos : 0 < batchSize cfg.

Lemma lt_chunks k : k < chunks cfg <-> k * batchSize cfg < totalCount cfg.
Proof.
  unfold chunks, Math_ceil_div.
  pose proof (Z.mul_div_le (- totalCount cfg) (batchSize cfg) batchSize_pos).
  pose proof (Z.mul_succ_div_gt (- totalCount cfg) (batchSize cfg) batchSize_pos).
  split; intros; nia.
Qed.

Lemma chunkSize_inner k :
  0 <= k -> k + 1 < chunks cfg -> chunkSize cfg k = batchSize cfg.
Proof.
  intros Hk Hlt. apply lt_chunks in Hlt.
  unfold chunkSize, chunkEnd, chunkStart. lia.
Qed.

Lemma chunkSize_last k :
  k < chunks cfg -> ~ k + 1 < chunks cfg ->
  chunkSize cfg k = totalCount cfg - batchSize cfg * k.
Proof.
  intros Hlt Hge. rewrite lt_chunks in Hlt, Hge.
  unfold chunkSize, chunkEnd, chunkStart. lia.
Qed.

Lemma chunkSize_pos k : k < chunks cfg -> 0 < chunkSize cfg k.
Proof.
  intros Hlt. rewrite lt_chunks in Hlt.
  unfold chunkSize, chunkEnd, chunkStart. lia.
Qed.

(** *** The shape of the reachable states *)

Lemma chunkStarted_sizes_emit e s :
  chunkStarted_sizes (emit e s) =
  match e with
  | chunkStarted _ _ size => chunkStarted_sizes s ++ [size]
  | _ => chunkStarted_sizes s
  end.
Proof. unfold chunkStarted_sizes. destruct e; reflexivity. Qed.

(** The steps of a unit's call, of a [finally] callback and of a monitor
    leave the dispatcher where it is. *)
Lemma step_frame l s s' :
  l <> Dispatch -> step_of cfg env l s = Some s' ->
  pc s' = pc s /\ batch s' = batch s /\
  chunkStarted_sizes s' = chunkStarted_sizes s /\
  (forall u, is_Some (tasks s' !! u) <-> is_Some (tasks s !! u)) /\
  (forall u, settled s u = true -> settled s' u = true).
Proof.
  intros Hl Hstep. destruct l as [|u|u|u]; [congruence|..]; step_cases Hstep;
    unfold settled, chunkStarted_sizes; reduce_state;
    (split; [reflexivity|]); (split; [reflexivity|]); (split; [reflexivity|]);
    split; intros u'; rewrite ?lookup_insert; try case_decide; subst;
    rewrite ?is_Some_alt; try tauto;
    repeat match goal with H : tasks _ !! _ = _ |- _ => rewrite H end; try tauto; try congruence.
Qed.

Ltac sizes_simpl :=
  unfold dispatched, launched_upto, settled_upto, settled, chunkStarted_sizes in *;
  reduce_state;
  cbn [omap list_omap rev] in *.

Lemma shape_frame s s' :
  pc s' = pc s -> batch s' = batch s ->
  chunkStarted_sizes s' = chunkStarted_sizes s ->
  (forall u, is_Some (tasks s' !! u) <-> is_Some (tasks s !! u)) ->
  (forall u, settled s u = true -> settled s' u = true) ->
  shape cfg s -> shape cfg s'.
Proof.
  intros Hpc Hb Hsz Hdom Hset [Hdone Hshape].
  assert (forall m, launched_upto s m -> launched_upto s' m) as Hl
    by (intros m H u; rewrite Hdom; apply H).
  assert (forall m, settled_upto s m -> settled_upto s' m) as Hs
    by (intros m H u Hu; apply Hset, H, Hu).
  assert (dispatched cfg s -> dispatched cfg s') as Hd.
  { intros (? & ? & ?). split; [|split]; [apply Hl|apply Hs|rewrite Hsz]; assumption. }
  unfold shape. rewrite Hpc, Hb. split.
  { intros H. destruct (Hdone H) as [Hdis Hat]. split; [apply Hd, Hdis|exact Hat]. }
  destruct (pc s) as [|chunkIndex i promises| |message|].
  - destruct Hshape as [Ht Hz]. split; [|rewrite Hsz; exact Hz].
    apply map_eq. intros u. rewrite lookup_empty. apply eq_None_not_Some.
    rewrite Hdom, Ht, lookup_empty. apply is_Some_None.
  - destruct Hshape as (? & ? & ? & ? & ? & ?).
    split; [assumption|]. split; [assumption|]. split; [apply Hl; assumption|].
    split; [apply Hs; assumption|]. split; [assumption|]. rewrite Hsz. assumption.
  - apply Hd, Hshape.
  - exact I.
  - exact I.
Qed.

Lemma forallb_settled s promises u :
  forallb (settled s) promises = true -> u ∈ promises -> settled s u = true.
Proof.
  intros Hall Hu. rewrite forallb_forall in Hall. apply Hall, list_elem_of_In, Hu.
Qed.

(** The row is not ['completed'] while the dispatcher is before its final
    update. *)
Ltac not_completed Hdone :=
  let H := fresh in
  reduce_state; intros H; destruct (Hdone H) as [_ [?|[? ?]]]; congruence.

Lemma shape_step s s' : shape cfg s -> step cfg env s s' -> shape cfg s'.
Proof.
  intros Hshape [l Hstep].
  destruct l as [|u|u|u].
  2,3,4: (match type of Hstep with
          | step_of _ _ ?l _ = _ =>
            destruct (step_frame l s s' ltac:(discriminate) Hstep) as (? & ? & ? & ? & ?)
          end; eapply shape_frame; eauto).
  destruct Hshape as [Hdone Hshape].
  simpl in Hstep. unfold dispatcher_step in Hstep.
  destruct (pc s) as [|chunkIndex i promises| |message|] eqn:Hpc.
  - (* the upload settles *)
    destruct Hshape as [Ht Hz].
    destruct (emit_uploadingFile env) as [[]|message];
      [|simplify_eq; split; [not_completed Hdone|exact I]].
    destruct (uploadAttachment env) as [url|message];
      [|simplify_eq; split; [not_completed Hdone|exact I]].
    destruct (emit_fileUploaded env) as [[]|message]; simplify_eq;
      [|split; [not_completed Hdone|exact I]].
    unfold chunk_loop. destruct (Z.ltb_spec 0 (chunks cfg)) as [Hlt|Hge].
    + destruct (emit_chunkStarted env (0 + 1)) as [[]|message];
        [|split; [not_completed Hdone|exact I]].
      split; [not_completed Hdone|].
      reduce_state. sizes_simpl. rewrite Hz.
      pose proof (chunkSize_pos 0 Hlt).
      split; [lia|]. split; [lia|]. split; [|split; [|split; [|reflexivity]]].
      * intros u. rewrite Ht, lookup_empty. unfold chunkStart.
        split; [intros [? ?]; discriminate|lia].
      * intros u Hu. unfold chunkStart in Hu. lia.
      * intros u Hu. lia.
    + split; [not_completed Hdone|].
      reduce_state. sizes_simpl. split; [|split].
      * intros u. rewrite Ht, lookup_empty. split; [intros [? ?]; discriminate|].
        intros Hu. pose proof (lt_chunks 0). lia.
      * intros u Hu. pose proof (lt_chunks 0). lia.
      * rewrite Hz.
        rewrite Z.max_l by lia. reflexivity.
  - destruct Hshape as (Hk & Hi & Hlaunched & Hsettled & Hprom & Hsizes).
    destruct (Z.ltb_spec i (chunkSize cfg chunkIndex)) as [Hlt|Hge].
    + destruct (Z.of_nat (size (activeRequests s)) >=? maxConcurrent cfg); simplify_eq.
      * (* the delay *)
        split; [not_completed Hdone|]. rewrite Hpc.
        split; [assumption|]. split; [assumption|]. split; [assumption|].
        split; [assumption|]. split; assumption.
      * (* a call of _sendSingleFax *)
        split; [not_completed Hdone|].
        reduce_state. sizes_simpl.
        assert (0 <= chunkStart cfg chunkIndex) by (unfold chunkStart; nia).
        split; [lia|]. split; [lia|]. split; [|split; [|split; [|exact Hsizes]]].
        -- intros u. rewrite lookup_insert. case_decide.
           ++ split; [lia|eauto].
           ++ rewrite (Hlaunched u). lia.
        -- intros u Hu.
           rewrite lookup_insert_ne by lia. apply Hsettled, Hu.
        -- intros u Hu. apply elem_of_app.
           destruct (decide (u = chunkStart cfg chunkIndex + i + 1)) as [->|Hne].
           ++ right. apply list_elem_of_singleton. reflexivity.
           ++ left. apply Hprom. lia.
    + (* the chunk's promises have settled *)
      destruct (forallb (settled s) promises) eqn:Hall; [|discriminate].
      destruct (emit_chunkCompleted env (chunkIndex + 1)) as [[]|message]; simplify_eq;
        [|split; [not_completed Hdone|exact I]].
      assert (i = chunkSize cfg chunkIndex) as -> by lia.
      assert (settled_upto s (chunkEnd cfg chunkIndex)) as Hend.
      { intros u Hu.
        destruct (Z.le_gt_cases u (chunkStart cfg chunkIndex)) as [Hle|Hgt].
        - apply Hsettled. lia.
        - eapply forallb_settled; [exact Hall|]. apply Hprom.
          unfold chunkSize. lia. }
      clear Hall.
      replace (chunkStart cfg chunkIndex + chunkSize cfg chunkIndex)
        with (chunkEnd cfg chunkIndex) in Hlaunched by (unfold chunkSize; lia).
      unfold chunk_loop. destruct (Z.ltb_spec (chunkIndex + 1) (chunks cfg)) as [Hnext|Hlast].
      * destruct (emit_chunkStarted env (chunkIndex + 1 + 1)) as [[]|message];
          [|split; [not_completed Hdone|exact I]].
        split; [not_completed Hdone|].
        reduce_state. sizes_simpl. rewrite Hsizes.
        assert (chunkEnd cfg chunkIndex = chunkStart cfg (chunkIndex + 1)) as Heq.
        { pose proof Hnext as Hn. rewrite lt_chunks in Hn.
          unfold chunkEnd, chunkStart. lia. }
        pose proof (chunkSize_pos _ Hnext).
        rewrite Heq in Hlaunched, Hend. rewrite Z.add_0_r.
        split; [lia|]. split; [lia|]. split; [exact Hlaunched|]. split; [exact Hend|]. split.
        -- intros u Hu. lia.
        -- rewrite (seqZ_snoc 0 (chunkIndex + 1)) by lia. rewrite fmap_app. reflexivity.
      * split; [not_completed Hdone|].
        reduce_state. sizes_simpl.
        assert (chunkEnd cfg chunkIndex = totalCount cfg) as Heq.
        { pose proof (lt_chunks chunkIndex). pose proof (lt_chunks (chunkIndex + 1)).
          unfold chunkEnd, chunkStart. lia. }
        rewrite Heq in Hlaunched, Hend.
        split; [exact Hlaunched|]. split; [exact Hend|].
        rewrite Hsizes.
        replace (Z.max 0 (chunks cfg)) with (chunkIndex + 1) by lia. reflexivity.
  - (* the final update settles *)
    assert (forall s0, tasks s0 = tasks s -> chunkStarted_sizes s0 = chunkStarted_sizes s ->
              dispatched cfg s0) as Hkept.
    { intros s0 Ht Hz. destruct Hshape as (Hl & Hs & Hsz).
      unfold dispatched, launched_upto, settled_upto, settled in *. rewrite Ht, Hz. auto. }
    destruct (updateBatch_completed env) as [[]|message];
      [|simplify_eq; split; [not_completed Hdone|exact I]].
    destruct (emit_batchCompleted env) as [[]|message]; simplify_eq.
    + split; [|exact I]. reduce_state. intros _. split; [|left; reflexivity].
      apply Hkept; reflexivity.
    + split; [|exact I]. reduce_state. intros _. split; [|right; eauto].
      apply Hkept; reflexivity.
  - (* the update of the catch block settles *)
    assert (forall s0, tasks s0 = tasks s -> chunkStarted_sizes s0 = chunkStarted_sizes s ->
              dispatched cfg s -> dispatched cfg s0) as Hkept.
    { intros s0 Ht Hz (Hl & Hs & Hsz).
      unfold dispatched, launched_upto, settled_upto, settled in *. rewrite Ht, Hz. auto. }
    destruct (updateBatch_failed env) as [[]|message'].
    + destruct (emit_batchFailed env) as [[]|message'']; simplify_eq;
        (split; [|exact I]); reduce_state; cbn; intros [=].
    + simplify_eq. split; [|exact I]. reduce_state. intros H.
      destruct (Hdone H) as [Hdis _]. split; [|left; reflexivity].
      apply Hkept; [reflexivity|reflexivity|exact Hdis].
  - discriminate.
Qed.

Lemma shape_reachable s : reachable cfg env s -> shape cfg s.
Proof.
  apply reachable_ind.
  - split; [cbn; intros [=]|]. cbn. split; reflexivity.
  - intros ? ? _. apply shape_step.
Qed.

(** *** The rows of the submissions *)

Lemma update_rows_fst h u rows : fst <$> update_rows h u rows = fst <$> rows.
Proof.
  unfold update_rows. destruct u as [u|]; [|reflexivity].
  induction rows as [|r rows IH]; [reflexivity|]. simpl. f_equal. exact IH.
Qed.

Lemma update_rows_origin h u rows :
  Forall (row_origin cfg env) rows -> Forall (row_origin cfg env) (update_rows h u rows).
Proof.
  unfold update_rows. destruct u as [u|]; [|trivial].
  intros H. apply Forall_fmap. eapply Forall_impl; [exact H|].
  intros [n r] Hr. unfold row_origin in *. simpl in *.
  destruct Hr as [(j & Hj & Hh)|(message & ->)].
  - left. exists j. split; [exact Hj|].
    destruct (Db.handle_eqb (Db.row_fax_handle r) (Db.JobHandle h)); [|exact Hh].
    exact Hh.
  - right. exists message. reflexivity.
Qed.

Lemma task_rows_other s s' u :
  tasks s' !! u = tasks s !! u ->
  (u ∈ (fst <$> fax_submissions s') <-> u ∈ (fst <$> fax_submissions s)) ->
  task_rows env s u -> task_rows env s' u.
Proof.
  unfold task_rows. intros -> Hrows.
  destruct (tasks s !! u) as [[| | |]|]; rewrite Hrows; trivial.
Qed.

Lemma rows_inv_set s s' u t' :
  rows_inv cfg env s ->
  tasks s' = <[u := t']> (tasks s) ->
  (fax_submissions s' = fax_submissions s \/
   exists r, fax_submissions s' = (u, r) :: fax_submissions s /\
             (u ∉ (fst <$> fax_submissions s)) /\ row_origin cfg env (u, r)) ->
  task_rows env s' u ->
  rows_inv cfg env s'.
Proof.
  intros (Hnodup & Htasks & Horigin) Ht Hrows Hu.
  assert (forall u', u' <> u ->
            (u' ∈ (fst <$> fax_submissions s') <-> u' ∈ (fst <$> fax_submissions s))) as Hmem.
  { intros u' Hne. destruct Hrows as [->|(r & -> & _)]; [reflexivity|].
    rewrite fmap_cons, elem_of_cons. simpl. tauto. }
  split; [|split].
  - destruct Hrows as [->|(r & -> & Hfresh & _)]; [exact Hnodup|].
    rewrite fmap_cons. apply NoDup_cons. split; assumption.
  - intros u'. destruct (decide (u' = u)) as [->|Hne]; [exact Hu|].
    apply (task_rows_other s); [rewrite Ht, lookup_insert_ne by congruence; reflexivity| |].
    + apply Hmem, Hne.
    + apply Htasks.
  - destruct Hrows as [->|(r & -> & _ & Hr)]; [exact Horigin|].
    apply Forall_cons. split; assumption.
Qed.

Lemma rows_step s s' : shape cfg s -> rows_inv cfg env s -> step cfg env s s' -> rows_inv cfg env s'.
Proof.
  intros [_ Hshape] (Hnodup & Htasks & Horigin) [l Hstep].
  destruct l as [|u|u|u].
  - (* the dispatcher *)
    simpl in Hstep. unfold dispatcher_step, chunk_loop in Hstep.
    destruct (pc s) as [|chunkIndex i promises| |message|] eqn:Hpc;
      repeat case_match; simplify_eq; unfold rows_inv; reduce_state;
      try (split; [exact Hnodup|split; [exact Htasks|exact Horigin]]).
    (* a call of _sendSingleFax *)
    split; [exact Hnodup|]. split; [|exact Horigin].
    destruct Hshape as (_ & _ & Hlaunched & _).
    intros u. unfold task_rows; reduce_state. rewrite lookup_insert. case_decide.
    + subst u. specialize (Htasks (chunkStart cfg chunkIndex + i + 1)).
      unfold task_rows in Htasks.
      assert (tasks s !! (chunkStart cfg chunkIndex + i + 1) = None) as Hnone.
      { apply eq_None_not_Some. rewrite (Hlaunched _). lia. }
      rewrite Hnone in Htasks. exact Htasks.
    + apply Htasks.
  - (* a unit's call *)
    pose proof (Htasks u) as Hu. unfold task_rows in Hu.
    simpl in Hstep. unfold task_step, catch_block, insert_row in Hstep.
    destruct (tasks s !! u) as [[|sendJobId|message|b]|] eqn:Htask; [| | |discriminate..].
    + destruct (createSendJob env u) as [sendJobId|message] eqn:Hcreate; simplify_eq;
        (eapply (rows_inv_set s); [repeat split; eassumption|reflexivity|left; reflexivity|]);
        unfold task_rows; reduce_state; rewrite lookup_insert_eq.
      * split; [exact Hcreate|exact Hu].
      * split; [exact Hu|]. unfold has_row. rewrite Hcreate. reflexivity.
    + destruct Hu as [Hcreate Hfresh].
      destruct (createSubmission_converting env u) as [submissionId|message] eqn:Hinsert.
      * assert (has_row env u = true) as Hhas
          by (unfold has_row; rewrite Hcreate, Hinsert; reflexivity).
        destruct (emit_faxSubmitted env u) as [[]|message]; simplify_eq;
          (eapply (rows_inv_set s);
           [repeat split; eassumption|reflexivity
           |right; eexists; split; [reflexivity|split; [exact Hfresh|]];
            left; exists sendJobId; split; [exact Hcreate|reflexivity]|]);
          unfold task_rows; reduce_state; rewrite lookup_insert_eq, fmap_cons;
          (split; [intros _; exact Hhas|intros _; apply list_elem_of_here]).
      * simplify_eq.
        eapply (rows_inv_set s); [repeat split; eassumption|reflexivity|left; reflexivity|].
        unfold task_rows; reduce_state; rewrite lookup_insert_eq.
        split; [exact Hfresh|]. unfold has_row. rewrite Hcreate, Hinsert. reflexivity.
    + destruct Hu as [Hfresh Hhas].
      destruct (createSubmission_failed env u) as [rowId|message'] eqn:Hinsert; simplify_eq.
      * eapply (rows_inv_set s);
          [repeat split; eassumption|reflexivity
          |right; eexists; split; [reflexivity|split; [exact Hfresh|]];
           right; exists message; reflexivity|].
        unfold task_rows; reduce_state. rewrite lookup_insert_eq, fmap_cons.
        split; [intros _; rewrite Hhas; reflexivity|intros _; apply list_elem_of_here].
      * eapply (rows_inv_set s); [repeat split; eassumption|reflexivity|left; reflexivity|].
        unfold task_rows; reduce_state; rewrite lookup_insert_eq.
        rewrite Hhas. split; [intros Hin; contradiction|discriminate].
  - (* a finally callback *)
    clear Hshape. step_cases Hstep. split; [exact Hnodup|]. split; [exact Htasks|exact Horigin].
  - (* a monitor *)
    simpl in Hstep. unfold monitor_step in Hstep.
    destruct (monitors s !! u) as [m|]; [|discriminate].
    destruct (progress m) as [v|r]; [|discriminate].
    destruct (Monitor.loop_step Monitor.maxAttempts (started_at m) (polls env u) v)
      as [p upd].
    assert (forall s0 : state,
              fax_submissions s0 = update_rows (faxHandle m) upd (fax_submissions s) ->
              tasks s0 = tasks s -> rows_inv cfg env s0) as Hgen.
    { intros s0 Hrows Ht. unfold rows_inv. rewrite Hrows, update_rows_fst.
      split; [exact Hnodup|]. split; [|apply update_rows_origin, Horigin].
      intros u'. apply (task_rows_other s); [rewrite Ht; reflexivity| |apply Htasks].
      rewrite Hrows, update_rows_fst. reflexivity. }
    injection Hstep as <-.
    apply Hgen; destruct (reaches_emit _ _ _); reflexivity.
Qed.

Lemma shape_rows_reachable s : reachable cfg env s -> shape cfg s /\ rows_inv cfg env s.
Proof.
  revert s. apply (reachable_ind (fun s => shape cfg s /\ rows_inv cfg env s)).
  - split; [apply shape_reachable, rtc_refl|].
    split; [cbn; apply NoDup_nil_2|]. split; [|cbn; apply Forall_nil_2].
    intros u. unfold task_rows. cbn. rewrite lookup_empty. apply not_elem_of_nil.
  - intros s0 s1 _ [Hshape Hrows] Hstep.
    split; [eapply shape_step; eauto|eapply rows_step; eauto].
Qed.

End Invariants.

Lemma reachable_after cfg env schedule s :
  exec cfg env schedule (initial cfg) = Some s -> reachable cfg env s.
Proof. apply exec_reachable, rtc_refl. Qed.

Lemma settled_Some (s : state) u :
  settled s u = true -> exists success, tasks s !! u = Some (Settled success).
Proof.
  unfold settled. destruct (tasks s !! u) as [[| | |b]|]; try discriminate. eauto.
Qed.

Lemma completed_dispatched cfg env s :
  0 < batchSize cfg -> reachable cfg env s ->
  Db.batch_status (batch s) = "completed" -> dispatched cfg s.
Proof.
  intros Hc Hs Hdone.
  destruct (shape_reachable cfg env Hc s Hs) as [Hpc _].
  apply (Hpc Hdone).
Qed.

(** *** Failures of single units do not stop the batch *)

Section Isolation.

Variable cfg : settings.
Variable env : environment.

Hypothesis listeners : listeners_return env.

Ltac listeners_in H :=
  let L1 := fresh in let L2 := fresh in let L3 := fresh in
  let L4 := fresh in let L5 := fresh in
  pose proof listeners as (L1 & L2 & L3 & L4 & L5);
  rewrite ?L1, ?L2, ?L3, ?L4, ?L5 in H.

(** The batch is marked ['failed'] only when the upload or the final update
    threw, or a listener of one of the dispatcher's events did (which the
    hypothesis excludes): no failure inside [_sendSingleFax] leads there. *)
Lemma failed_only_by_upload_or_update s :
  reachable cfg env s ->
  (exists message, pc s = AwaitUpdateFailed message) \/ Db.batch_status (batch s) = "failed" ->
  resolves (uploadAttachment env) = false \/ resolves (updateBatch_completed env) = false.
Proof.
  revert s. apply (reachable_ind cfg env (fun s =>
    (exists message, pc s = AwaitUpdateFailed message) \/ Db.batch_status (batch s) = "failed" ->
    resolves (uploadAttachment env) = false \/ resolves (updateBatch_completed env) = false)).
  - cbn. intros [[message [=]]|[=]].
  - intros s s' _ IH [l Hstep].
    destruct l as [|u|u|u].
    2,3,4: (match type of Hstep with
            | step_of _ _ ?l _ = _ =>
              destruct (step_frame cfg env l s s' ltac:(discriminate) Hstep) as (Hpc & Hb & _)
            end; rewrite Hpc, Hb; exact IH).
    simpl in Hstep. unfold dispatcher_step, chunk_loop in Hstep.
    destruct (pc s) as [|chunkIndex i promises| |message|] eqn:Hpc;
      listeners_in Hstep;
      repeat case_match; simplify_eq; reduce_state; intros Hhyp;
      first
        [ solve [left; reflexivity]
        | solve [right; reflexivity]
        | solve [apply IH; left; eexists; reflexivity]
        | solve [destruct Hhyp as [[? Hx]|Hx];
                 [rewrite ?Hpc in Hx; discriminate Hx
                 |first [discriminate Hx|apply IH; right; exact Hx]]] ].
Qed.

Hypothesis batchSize_pos : 0 < batchSize cfg.
Hypothesis maxConcurrent_pos : 1 <= maxConcurrent cfg.

Lemma failed_insert_settles s u message :
  tasks s !! u = Some (AwaitCreateFailedSubmission message) ->
  exists s', task_step cfg env u s = Some s' /\
    tasks s' = <[u := Settled false]> (tasks s) /\
    pc s' = pc s /\ activeRequests s' = activeRequests s /\ batch s' = batch s.
Proof.
  intros Htask. unfold task_step. rewrite Htask.
  destruct (createSubmission_failed env u); eexists; (split; [reflexivity|]); repeat split.
Qed.

(** The call of a unit whose creation call is in flight runs to its end,
    whatever the backend and the database answer. *)
Lemma task_settles s u :
  tasks s !! u = Some AwaitCreateSendJob ->
  exists s' success,
    rtc (step cfg env) s s' /\
    tasks s' = <[u := Settled success]> (tasks s) /\
    pc s' = pc s /\ activeRequests s' = activeRequests s /\ batch s' = batch s.
Proof.
  intros Htask.
  assert (forall s1 message,
            task_step cfg env u s = Some s1 ->
            tasks s1 = <[u := AwaitCreateFailedSubmission message]> (tasks s) ->
            pc s1 = pc s -> activeRequests s1 = activeRequests s -> batch s1 = batch s ->
            exists s' success,
              rtc (step cfg env) s s' /\
              tasks s' = <[u := Settled success]> (tasks s) /\
              pc s' = pc s /\ activeRequests s' = activeRequests s /\ batch s' = batch s)
    as Hfailed.
  { intros s1 message Hs1 Ht1 Hpc1 Ha1 Hb1.
    destruct (failed_insert_settles s1 u message) as (s2 & Hs2 & Ht2 & Hpc2 & Ha2 & Hb2).
    { rewrite Ht1. apply lookup_insert_eq. }
    exists s2, false. split.
    - eapply rtc_l; [exists (Task u); exact Hs1|]. apply rtc_once. exists (Task u). exact Hs2.
    - rewrite Ht2, Ht1, insert_insert_eq, Hpc2, Ha2, Hb2. repeat split; assumption. }
  destruct (createSendJob env u) as [sendJobId|message] eqn:Hcreate.
  - set (s1 := with_task s u (AwaitCreateSubmission sendJobId)).
    assert (task_step cfg env u s = Some s1) as Hs1
      by (unfold task_step; rewrite Htask, Hcreate; reflexivity).
    assert (tasks s1 !! u = Some (AwaitCreateSubmission sendJobId)) as Ht1
      by (subst s1; reduce_state; apply lookup_insert_eq).
    destruct (createSubmission_converting env u) as [submissionId|message] eqn:Hinsert.
    + assert (exists s2 success, task_step cfg env u s1 = Some s2 /\
                tasks s2 = <[u := Settled success]> (tasks s) /\
                pc s2 = pc s /\ activeRequests s2 = activeRequests s /\ batch s2 = batch s)
        as (s2 & success & Hs2 & Hrest).
      { unfold task_step, catch_block, insert_row. rewrite Ht1, Hinsert.
        destruct (emit_faxSubmitted env u) as [[]|message];
          eexists; eexists; (split; [reflexivity|]); subst s1; reduce_state;
          rewrite insert_insert_eq; repeat split. }
      exists s2, success. split; [|exact Hrest].
      eapply rtc_l; [exists (Task u); exact Hs1|]. apply rtc_once. exists (Task u). exact Hs2.
    + set (s2 := catch_block u None message s1).
      assert (task_step cfg env u s1 = Some s2) as Hs2
        by (unfold task_step; rewrite Ht1, Hinsert; reflexivity).
      destruct (failed_insert_settles s2 u message) as (s3 & Hs3 & Ht3 & Hpc3 & Ha3 & Hb3).
      { subst s2 s1. unfold catch_block. reduce_state. apply lookup_insert_eq. }
      exists s3, false. split.
      * eapply rtc_l; [exists (Task u); exact Hs1|].
        eapply rtc_l; [exists (Task u); exact Hs2|]. apply rtc_once. exists (Task u). exact Hs3.
      * rewrite Ht3, Hpc3, Ha3, Hb3. subst s2 s1. unfold catch_block. reduce_state.
        rewrite !insert_insert_eq. repeat split.
  - apply (Hfailed (catch_block u None message s) message).
    + unfold task_step. rewrite Htask, Hcreate. reflexivity.
    + reflexivity.
    + reflexivity.
    + reflexivity.
    + reflexivity.
Qed.

Lemma unit_runs s chunkIndex i :
  idle s chunkIndex i -> i < chunkSize cfg chunkIndex ->
  exists s', rtc (step cfg env) s s' /\ idle s' chunkIndex (i + 1).
Proof.
  intros (promises & Hpc & Hactive & Hall & Hstatus) Hi.
  set (u := chunkStart cfg chunkIndex + i + 1).
  set (s0 := with_pc (with_activeRequests (with_task s u AwaitCreateSendJob)
                        (activeRequests s ∪ {[u]}))
                     (InChunk chunkIndex (i + 1) (promises ++ [u]))).
  assert (dispatcher_step cfg env s = Some s0) as Hlaunch.
  { unfold dispatcher_step. rewrite Hpc.
    destruct (Z.ltb_spec i (chunkSize cfg chunkIndex)) as [_|?]; [|lia].
    rewrite Hactive, size_empty.
    destruct (Z.geb_spec (Z.of_nat 0) (maxConcurrent cfg)) as [?|_]; [lia|].
    reflexivity. }
  destruct (task_settles s0 u) as (s2 & b & Hrun & Htasks & Hpc2 & Hact2 & Hb2).
  { subst s0. reduce_state. apply lookup_insert_eq. }
  assert (finally_step u s2 = Some (with_activeRequests s2 (activeRequests s2 ∖ {[u]}))) as Hfin.
  { unfold finally_step. rewrite Htasks, lookup_insert_eq, Hact2. subst s0. reduce_state.
    rewrite decide_True by (apply elem_of_union_r, elem_of_singleton; reflexivity).
    reflexivity. }
  eexists. split.
  - eapply rtc_l; [exists Dispatch; exact Hlaunch|].
    eapply rtc_trans; [exact Hrun|]. apply rtc_once. exists (Finally u). exact Hfin.
  - exists (promises ++ [u]). reduce_state.
    split; [rewrite Hpc2; reflexivity|]. split.
    { rewrite Hact2. subst s0. reduce_state. rewrite Hactive.
      rewrite (left_id_L ∅ (∪)). apply difference_diag_L. }
    split; [|rewrite Hb2; exact Hstatus].
    assert (forall x, settled s x = true ->
                      settled (with_activeRequests s2 (activeRequests s2 ∖ {[u]})) x = true)
      as Hmono.
    { intros x Hx. unfold settled in *. reduce_state. rewrite Htasks. subst s0. reduce_state.
      rewrite insert_insert_eq, lookup_insert. case_decide; [reflexivity|exact Hx]. }
    rewrite forallb_app. apply andb_true_iff. split.
    + rewrite forallb_forall in *. intros x Hx. apply Hmono, Hall, Hx.
    + simpl. unfold settled. reduce_state. rewrite Htasks, lookup_insert_eq. reflexivity.
Qed.

Lemma chunk_runs chunkIndex (m : nat) : forall s i,
  idle s chunkIndex i -> chunkSize cfg chunkIndex - i = Z.of_nat m ->
  exists s', rtc (step cfg env) s s' /\ idle s' chunkIndex (chunkSize cfg chunkIndex).
Proof.
  induction m as [|m IH]; intros s i Hidle Hm.
  - exists s. split; [apply rtc_refl|]. replace (chunkSize cfg chunkIndex) with i by lia.
    exact Hidle.
  - destruct (unit_runs s chunkIndex i Hidle) as (s1 & Hrun & Hidle1); [lia|].
    destruct (IH s1 (i + 1) Hidle1) as (s' & Hrun' & Hidle'); [lia|].
    exists s'. split; [eapply rtc_trans; eassumption|exact Hidle'].
Qed.

Lemma chunk_loop_idle s chunkIndex :
  activeRequests s = ∅ -> Db.batch_status (batch s) = "processing" ->
  idle (chunk_loop cfg env chunkIndex s) chunkIndex 0 /\ chunkIndex < chunks cfg \/
  dispatch_over (chunk_loop cfg env chunkIndex s) /\ chunks cfg <= chunkIndex.
Proof.
  intros Hactive Hstatus. unfold chunk_loop.
  destruct listeners as (_ & _ & Hstarted & _). rewrite Hstarted.
  destruct (Z.ltb_spec chunkIndex (chunks cfg)) as [Hlt|Hge].
  - left. split; [|exact Hlt]. exists []. reduce_state. repeat split; assumption.
  - right. split; [|exact Hge]. split; [reflexivity|exact Hstatus].
Qed.

Lemma chunks_run (m : nat) : forall s chunkIndex,
  idle s chunkIndex 0 -> chunkIndex < chunks cfg -> chunks cfg - chunkIndex <= Z.of_nat m ->
  exists s', rtc (step cfg env) s s' /\ dispatch_over s'.
Proof.
  induction m as [|m IH]; intros s chunkIndex Hidle Hk Hm; [lia|].
  pose proof (chunkSize_pos cfg batchSize_pos chunkIndex Hk) as Hsize.
  destruct (chunk_runs chunkIndex (Z.to_nat (chunkSize cfg chunkIndex)) s 0 Hidle)
    as (s1 & Hrun & promises & Hpc & Hactive & Hall & Hstatus); [lia|].
  set (s2 := chunk_loop cfg env (chunkIndex + 1)
               (emit (chunkCompleted (chunkIndex + 1) (chunks cfg)
                        (processedCount s1) (failedCount s1)) s1)).
  assert (dispatcher_step cfg env s1 = Some s2) as Hstep.
  { unfold dispatcher_step. rewrite Hpc.
    destruct (Z.ltb_spec (chunkSize cfg chunkIndex) (chunkSize cfg chunkIndex)); [lia|].
    rewrite Hall. destruct listeners as (_ & _ & _ & Hcompleted & _). rewrite Hcompleted.
    reflexivity. }
  assert (rtc (step cfg env) s s2) as Hrun2
    by (eapply rtc_r; [exact Hrun|exists Dispatch; exact Hstep]).
  destruct (chunk_loop_idle
              (emit (chunkCompleted (chunkIndex + 1) (chunks cfg)
                       (processedCount s1) (failedCount s1)) s1) (chunkIndex + 1))
    as [[Hidle2 Hlt]|[Hover _]]; [exact Hactive|exact Hstatus| |].
  - destruct (IH s2 (chunkIndex + 1) Hidle2 Hlt) as (s' & Hrun' & Hover); [lia|].
    exists s'. split; [eapply rtc_trans; eassumption|exact Hover].
  - exists s2. split; [exact Hrun2|exact Hover].
Qed.

(** Whatever the creation calls and the inserts of the units answer, a batch
    whose upload and final update resolve (and whose listeners return) can
    run to ['completed']. *)
Lemma completion_reachable :
  resolves (uploadAttachment env) = true ->
  resolves (updateBatch_completed env) = true ->
  exists s, reachable cfg env s /\ Db.batch_status (batch s) = "completed".
Proof.
  intros Hupload Hupdate.
  destruct (uploadAttachment env) as [url|] eqn:Hurl; [clear Hupload|discriminate].
  destruct (updateBatch_completed env) as [[]|] eqn:Hfinal; [clear Hupdate|discriminate].
  destruct listeners as (Huploading & Huploaded & _ & _ & Hcompleted).
  set (s0 := chunk_loop cfg env 0 (emit (fileUploaded (batchId cfg) url) (initial cfg))).
  assert (reachable cfg env s0) as Hs0.
  { apply rtc_once. exists Dispatch. simpl. unfold dispatcher_step. simpl.
    rewrite Huploading, Hurl, Huploaded. reflexivity. }
  assert (exists s1, reachable cfg env s1 /\ dispatch_over s1) as (s1 & Hs1 & Hpc & Hstatus).
  { destruct (chunk_loop_idle (emit (fileUploaded (batchId cfg) url) (initial cfg)) 0)
      as [[Hidle Hlt]|[Hover _]]; [reflexivity|reflexivity| |].
    - destruct (chunks_run (Z.to_nat (chunks cfg)) s0 0 Hidle Hlt) as (s1 & Hrun & Hover);
        [lia|].
      exists s1. split; [eapply rtc_trans; [exact Hs0|exact Hrun]|exact Hover].
    - exists s0. split; [exact Hs0|exact Hover]. }
  eexists. split.
  - eapply rtc_r; [exact Hs1|]. exists Dispatch. simpl. unfold dispatcher_step.
    rewrite Hpc, Hfinal, Hcompleted. reflexivity.
  - reflexivity.
Qed.

End Isolation.

(** C5. With a configured maximum that is not negative, at every point of a
    batch at most [maxConcurrent] job-creation calls are in flight, and a step
    that starts the creation call of a unit is taken only when
    [activeRequests] has fewer than [maxConcurrent] members. *)
Theorem creation_calls_bounded (cfg : settings) (env : environment) (s : state) :
  0 <= maxConcurrent cfg ->
  reachable cfg env s ->
  Z.of_nat (size (in_flight s)) <= maxConcurrent cfg /\
  (forall l s' u,
     step_of cfg env l s = Some s' ->
     tasks s' !! u = Some AwaitCreateSendJob ->
     tasks s !! u <> Some AwaitCreateSendJob ->
     Z.of_nat (size (activeRequests s)) < maxConcurrent cfg).
Proof.
  intros Hmax Hs. pose proof (gate_reachable cfg env s Hs) as Hgate. split.
  - pose proof (in_flight_active cfg s Hgate). destruct Hgate as [_ Hsize]. lia.
  - intros l s' u Hstep Hnew Hold.
    destruct l as [|u0|u0|u0]; step_cases Hstep;
      try (rewrite lookup_insert in Hnew; case_decide; simplify_eq);
      try contradiction; try congruence.
    match goal with H : (_ >=? _) = false |- _ => rewrite Z.geb_leb in H; apply Z.leb_gt in H end.
    assumption.
Qed.

Lemma creation_calls_bounded_witness :
  Z.of_nat (size (in_flight
     (state_after (batch_of 250 100) (backend []) (replicate 11 Dispatch)))) <= 10.
Proof.
  apply (creation_calls_bounded (batch_of 250 100) (backend [])).
  - simpl. lia.
  - apply (reachable_after _ _ (replicate 11 Dispatch)). vm_compute. reflexivity.
Defined.

(** C1, as the code has it. The batch row is set to ['completed'] only after
    the [_sendSingleFax] call of every unit has settled (its creation call
    resolved or threw and its row was dealt with); no creation call is then in
    flight. The monitors are not waited for. *)
Theorem completed_after_every_call_settled (cfg : settings) (env : environment) (s : state) :
  0 < batchSize cfg ->
  reachable cfg env s ->
  Db.batch_status (batch s) = "completed" ->
  (forall u, 1 <= u <= totalCount cfg ->
     exists success, tasks s !! u = Some (Settled success)) /\
  in_flight s = ∅.
Proof.
  intros Hc Hs Hdone.
  destruct (completed_dispatched cfg env s Hc Hs Hdone) as (Hlaunched & Hsettled & _).
  split.
  - intros u Hu. apply settled_Some, Hsettled, Hu.
  - apply map_eq. intros u. rewrite lookup_empty. unfold in_flight.
    apply map_lookup_filter_None. destruct (tasks s !! u) as [t|] eqn:Ht; [right|left; reflexivity].
    intros t' [= <-] Heq. simpl in Heq. subst t.
    assert (1 <= u <= totalCount cfg) as Hu by (apply Hlaunched; eauto).
    destruct (settled_Some s u (Hsettled u Hu)) as [b Hb]. congruence.
Qed.

Lemma completed_after_every_call_settled_witness :
  exists success,
    tasks (state_after (batch_of 1 100) (backend []) (batch_schedule [(1, 1)])) !! 1
    = Some (Settled success).
Proof.
  apply (completed_after_every_call_settled (batch_of 1 100) (backend [])).
  - simpl. lia.
  - apply (reachable_after _ _ (batch_schedule [(1, 1)])). vm_compute. reflexivity.
  - vm_compute. reflexivity.
  - simpl. lia.
Defined.

(** C1 as stated fails: a batch of one unit whose creation succeeds is
    ['completed'] as soon as the unit's call has settled, while the monitor
    the call started has not run its first poll. *)
Lemma completed_while_a_monitor_polls :
  ~ (forall cfg env s,
       0 < batchSize cfg -> reachable cfg env s ->
       Db.batch_status (batch s) = "completed" ->
       forall u m, monitors s !! u = Some m -> polling m = false).
Proof.
  intros H.
  assert (reachable (batch_of 1 100) (backend [])
            (state_after (batch_of 1 100) (backend []) (batch_schedule [(1, 1)]))) as Hr
    by (apply (reachable_after _ _ (batch_schedule [(1, 1)])); vm_compute; reflexivity).
  specialize (H (batch_of 1 100) (backend []) _ ltac:(simpl; lia) Hr
                ltac:(vm_compute; reflexivity) 1).
  destruct (monitors (state_after (batch_of 1 100) (backend []) (batch_schedule [(1, 1)])) !! 1)
    as [m|] eqn:Hm; [|vm_compute in Hm; discriminate Hm].
  specialize (H m eq_refl). vm_compute in Hm. injection Hm as <-. discriminate H.
Qed.

Lemma rows_of_completed cfg env s :
  0 < batchSize cfg -> reachable cfg env s ->
  Db.batch_status (batch s) = "completed" ->
  forall u, u ∈ (fst <$> fax_submissions s) <->
            1 <= u <= totalCount cfg /\ has_row env u = true.
Proof.
  intros Hc Hs Hdone u.
  destruct (completed_dispatched cfg env s Hc Hs Hdone) as (Hlaunched & Hsettled & _).
  destruct (shape_rows_reachable cfg env Hc s Hs) as (_ & _ & Htasks & _).
  specialize (Htasks u). unfold task_rows in Htasks.
  destruct (decide (1 <= u <= totalCount cfg)) as [Hu|Hu].
  - destruct (settled_Some s u (Hsettled u Hu)) as [b Hb]. rewrite Hb in Htasks.
    rewrite Htasks. tauto.
  - assert (tasks s !! u = None) as Hnone
      by (apply eq_None_not_Some; rewrite (Hlaunched u); exact Hu).
    rewrite Hnone in Htasks. tauto.
Qed.

(** A row inserted after a creation failure is a ['failed'] row with the
    synthetic handle, and its error message is NULL. *)
Lemma row_of_failed_creation cfg env s u r message :
  0 < batchSize cfg -> reachable cfg env s ->
  (u, r) ∈ fax_submissions s -> createSendJob env u = Throws message ->
  Db.row_status r = "failed" /\
  Db.row_fax_handle r = Db.FailedHandle (Date_now env u) u /\
  Db.row_error_message r = None.
Proof.
  intros Hc Hs Hin Hthrow.
  destruct (shape_rows_reachable cfg env Hc s Hs) as (_ & _ & _ & Horigin).
  rewrite Forall_forall in Horigin. specialize (Horigin _ Hin).
  destruct Horigin as [(j & Hj & _)|(msg & Hr)]; simpl in *; [congruence|].
  subst r. repeat split.
Qed.

(** C2, as the code has it. After the dispatch of a batch completes, no unit
    has more than one Submission row; the units that have a row are those for
    which an insert resolved; when that is so for every unit there are exactly
    [totalCount] rows, one per unit; and the row of a unit whose creation call
    threw is a ['failed'] row with the synthetic handle. *)
Theorem one_row_per_unit (cfg : settings) (env : environment) (s : state) :
  0 < batchSize cfg ->
  0 <= totalCount cfg ->
  reachable cfg env s ->
  Db.batch_status (batch s) = "completed" ->
  NoDup (fst <$> fax_submissions s) /\
  (forall u, u ∈ (fst <$> fax_submissions s) <->
             1 <= u <= totalCount cfg /\ has_row env u = true) /\
  ((forall u, 1 <= u <= totalCount cfg -> has_row env u = true) ->
   Z.of_nat (length (fax_submissions s)) = totalCount cfg) /\
  (forall u r message,
     (u, r) ∈ fax_submissions s -> createSendJob env u = Throws message ->
     Db.row_status r = "failed" /\
     Db.row_fax_handle r = Db.FailedHandle (Date_now env u) u).
Proof.
  intros Hc Hn Hs Hdone.
  destruct (shape_rows_reachable cfg env Hc s Hs) as (_ & Hnodup & _ & _).
  pose proof (rows_of_completed cfg env s Hc Hs Hdone) as Hrows.
  split; [exact Hnodup|]. split; [exact Hrows|]. split.
  - intros Hall.
    assert (fst <$> fax_submissions s ≡ₚ seqZ 1 (totalCount cfg)) as Hperm.
    { apply NoDup_Permutation; [exact Hnodup|apply NoDup_seqZ|].
      intros u. rewrite Hrows, elem_of_seqZ. specialize (Hall u). split; [lia|].
      intros Hu. split; [lia|apply Hall; lia]. }
    apply Permutation_length in Hperm.
    rewrite length_fmap, length_seqZ in Hperm. lia.
  - intros u r message Hin Hthrow.
    destruct (row_of_failed_creation cfg env s u r message Hc Hs Hin Hthrow) as (? & ? & _).
    split; assumption.
Qed.

Lemma backend_has_row failing u : has_row (backend failing) u = true.
Proof. unfold has_row. simpl. destruct (existsb (Z.eqb u) failing); reflexivity. Qed.

Lemma one_row_per_unit_witness :
  Z.of_nat (length (fax_submissions
     (state_after (batch_of 5 100) (backend [3]) (batch_schedule [(1, 5)])))) = 5.
Proof.
  apply (one_row_per_unit (batch_of 5 100) (backend [3])).
  - simpl. lia.
  - simpl. lia.
  - apply (reachable_after _ _ (batch_schedule [(1, 5)])). vm_compute. reflexivity.
  - vm_compute. reflexivity.
  - intros u _. apply backend_has_row.
Defined.

(** C2 as stated fails: when the creation call of the only unit throws and
    the database rejects the insert of the [catch] block, the error is logged,
    the batch completes and the unit has no row. *)
Lemma unit_without_row :
  ~ (forall cfg env s,
       0 < batchSize cfg -> 1 <= totalCount cfg <= 100000 ->
       reachable cfg env s -> Db.batch_status (batch s) = "completed" ->
       Z.of_nat (length (fax_submissions s)) = totalCount cfg).
Proof.
  intros H.
  specialize (H (batch_of 1 100) (backend_rejecting_failed_rows [1])
                (state_after (batch_of 1 100) (backend_rejecting_failed_rows [1])
                   (batch_schedule [(1, 1)]))).
  assert (0 = 1) as Habs; [|discriminate Habs].
  apply H.
  - simpl. lia.
  - simpl. lia.
  - apply (reachable_after _ _ (batch_schedule [(1, 1)])). vm_compute. reflexivity.
  - vm_compute. reflexivity.
Qed.

(** C7, evaluated. Five units of which the creation call of the third
    throws: the batch completes with five rows, four ['converting'] and the
    third ['failed'], and although the object handed to [createSubmission]
    carries the error's message, the row's error message is NULL. *)
Theorem failed_row_without_message :
  let cfg := batch_of 5 100 in
  let env := backend [3] in
  let s := state_after cfg env (batch_schedule [(1, 5)]) in
  reachable cfg env s /\
  Db.batch_status (batch s) = "completed" /\
  map (fun ur => (fst ur, Db.row_status (snd ur), Db.row_error_message (snd ur)))
      (fax_submissions s)
  = [(5, "converting", None); (4, "converting", None); (3, "failed", None);
     (2, "converting", None); (1, "converting", None)] /\
  Db.error_message
    (failed_submission cfg env 3
       "Failed to create send job: Request failed with status code 500")
  = Some "Failed to create send job: Request failed with status code 500".
Proof.
  split; [|split; [|split]].
  - apply (reachable_after _ _ (batch_schedule [(1, 5)])). vm_compute. reflexivity.
  - vm_compute. reflexivity.
  - vm_compute. reflexivity.
  - reflexivity.
Qed.

(** C8. The dispatcher works through the chunks one after the other: while
    it is in chunk [k] the calls of all units of the chunks before have
    settled and the chunks 0 to [k] were announced; and once the batch is
    completed, [ceil(n / c)] chunks were announced, each of size [c] but
    possibly the last, of size [n - c * (ceil(n / c) - 1)]; 250 units in
    chunks of 100 are announced as 100, 100 and 50. *)
Theorem chunk_partition (cfg : settings) (env : environment) (s : state) :
  0 < batchSize cfg ->
  0 <= totalCount cfg ->
  reachable cfg env s ->
  let n := totalCount cfg in
  let c := batchSize cfg in
  let m := Math_ceil_div n c in
  c * (m - 1) < n <= c * m /\
  (forall k i promises,
     pc s = InChunk k i promises ->
     (forall u, 1 <= u <= c * k -> settled s u = true) /\
     chunkStarted_sizes s = chunkSize cfg <$> seqZ 0 (k + 1)) /\
  (Db.batch_status (batch s) = "completed" ->
   Z.of_nat (length (chunkStarted_sizes s)) = m /\
   (forall k : nat, Z.of_nat k + 1 < m -> chunkStarted_sizes s !! k = Some c) /\
   (1 <= n -> last (chunkStarted_sizes s) = Some (n - c * (m - 1))) /\
   (n = 250 -> c = 100 -> chunkStarted_sizes s = [100; 100; 50])).
Proof.
  intros Hc Hn Hs n c m.
  assert (m = chunks cfg) as Hm by reflexivity.
  assert (c * (m - 1) < n <= c * m) as Hceil.
  { pose proof (lt_chunks cfg Hc (m - 1)). pose proof (lt_chunks cfg Hc m).
    subst n c. rewrite Hm in *. lia. }
  split; [exact Hceil|]. split.
  - intros k i promises Hpc.
    destruct (shape_reachable cfg env Hc s Hs) as [_ Hshape]. rewrite Hpc in Hshape.
    destruct Hshape as (_ & _ & _ & Hsettled & _ & Hsizes).
    split; [|exact Hsizes]. intros u Hu. apply Hsettled. unfold chunkStart. subst c. lia.
  - intros Hdone.
    destruct (completed_dispatched cfg env s Hc Hs Hdone) as (_ & _ & Hsizes).
    assert (0 <= m) as Hm0 by nia.
    rewrite Z.max_r in Hsizes by lia. rewrite <- Hm in Hsizes. rewrite Hsizes.
    split; [rewrite length_fmap, length_seqZ; lia|]. split; [|split].
    + intros k Hk. rewrite list_lookup_fmap, lookup_seqZ_lt by lia. simpl.
      f_equal. apply chunkSize_inner; [exact Hc|lia|lia].
    + intros Hn1. assert (1 <= m) as Hm1 by nia.
      replace m with (m - 1 + 1) at 1 by lia.
      rewrite seqZ_snoc, fmap_app by lia. simpl. rewrite last_snoc. f_equal.
      rewrite chunkSize_last; [subst n c; lia|exact Hc|lia|lia].
    + intros Hn250 Hc100. subst n c m.
      unfold chunkSize, chunkEnd, chunkStart, Math_ceil_div.
      rewrite Hn250, Hc100. reflexivity.
Qed.

Lemma chunk_partition_witness :
  chunkStarted_sizes
    (state_after (batch_of 250 100) (backend [])
       (batch_schedule [(1, 100); (101, 100); (201, 50)]))
  = [100; 100; 50].
Proof.
  apply (chunk_partition (batch_of 250 100) (backend [])).
  - simpl. lia.
  - simpl. lia.
  - apply (reachable_after _ _ (batch_schedule [(1, 100); (101, 100); (201, 50)])).
    vm_compute. reflexivity.
  - vm_compute. reflexivity.
  - reflexivity.
  - reflexivity.
Defined.

(** *** The counters, the events and the rows *)

Ltac hide_goal s' :=
  pattern s'; match goal with |- ?P s' => let G := fresh "Target" in set (G := P) end.

Lemma sumZ_ext f g l : (forall u, u ∈ l -> g u = f u) -> sumZ g l = sumZ f l.
Proof.
  induction l as [|x l IH]; intros H; simpl; [reflexivity|].
  rewrite (H x) by apply list_elem_of_here. rewrite IH; [reflexivity|].
  intros u Hu. apply H. apply list_elem_of_further, Hu.
Qed.

Lemma sumZ_change f g l u0 :
  NoDup l -> u0 ∈ l -> (forall u, u <> u0 -> g u = f u) ->
  sumZ g l = sumZ f l + (g u0 - f u0).
Proof.
  induction l as [|x l IH]; intros Hnd Hin H; [inversion Hin|].
  apply NoDup_cons in Hnd as [Hx Hnd]. simpl.
  destruct (decide (x = u0)) as [->|Hne].
  - rewrite (sumZ_ext f g l); [lia|].
    intros u Hu. apply H. intros ->. contradiction.
  - apply elem_of_cons in Hin as [->|Hin]; [contradiction|].
    rewrite (H x Hne), IH by assumption. lia.
Qed.

Lemma sumZ_count (b : Z -> bool) l : sumZ (fun u => if b u then 1 else 0) l = count b l.
Proof.
  unfold count. induction l as [|x l IH]; simpl; [reflexivity|].
  rewrite IH. destruct (b x); simpl; lia.
Qed.

Section Counting.

Variable cfg : settings.
Variable env : environment.
Hypothesis batchSize_pos : 0 < batchSize cfg.

Lemma fresh_unit s chunkIndex i promises :
  shape cfg s -> pc s = InChunk chunkIndex i promises ->
  tasks s !! (chunkStart cfg chunkIndex + i + 1) = None.
Proof.
  intros [_ Hshape] Hpc. rewrite Hpc in Hshape.
  destruct Hshape as (_ & _ & Hlaunched & _).
  apply eq_None_not_Some. rewrite (Hlaunched _). lia.
Qed.

Lemma outcome_step s s' :
  shape cfg s -> outcome_inv env s -> step cfg env s s' -> outcome_inv env s'.
Proof.
  intros Hshape Hinv [l Hstep].
  destruct l as [|u|u|u].
  - (* the dispatcher *)
    simpl in Hstep. unfold dispatcher_step, chunk_loop in Hstep.
    destruct (pc s) as [|chunkIndex i promises| |message|] eqn:Hpc;
      repeat case_match; simplify_eq; unfold outcome_inv; reduce_state; try exact Hinv.
    pose proof (fresh_unit s _ _ _ Hshape Hpc) as Hfresh.
    intros u. rewrite lookup_insert. case_decide.
    + subst u. split; [exact I|].
      destruct (Hinv (chunkStart cfg chunkIndex + i + 1)) as [_ Hm].
      rewrite Hm, Hfresh. split; discriminate.
    + apply Hinv.
  - (* a unit's call *)
    pose proof (Hinv u) as [Hu Hm].
    simpl in Hstep. unfold task_step, catch_block in Hstep.
    destruct (tasks s !! u) as [[|sendJobId|message|b]|] eqn:Htask; [| | |discriminate..].
    + destruct (createSendJob env u) as [sendJobId|message] eqn:Hcreate; simplify_eq;
        intros u'; unfold insert_row; reduce_state; rewrite lookup_insert; case_decide;
        try apply Hinv; subst u'.
      * split; [rewrite Hcreate; reflexivity|]. rewrite Hm. split; discriminate.
      * split; [unfold counted_processed; rewrite Hcreate; reflexivity|].
        rewrite Hm. split; discriminate.
    + destruct (createSubmission_converting env u) as [submissionId|message] eqn:Hinsert.
      * destruct (emit_faxSubmitted env u) as [[]|message] eqn:Hemit; simplify_eq;
          intros u'; unfold insert_row; reduce_state; rewrite lookup_insert; case_decide;
          rewrite ?lookup_insert_ne by congruence; try apply Hinv; subst u'.
        -- rewrite lookup_insert_eq. split.
           ++ unfold try_resolves, counted_processed. rewrite Hu, Hinsert, Hemit. reflexivity.
           ++ split; eauto.
        -- split.
           ++ unfold try_resolves, counted_processed. rewrite Hu, Hinsert, Hemit. reflexivity.
           ++ rewrite Hm. split; discriminate.
      * simplify_eq.
        intros u'; unfold insert_row; reduce_state; rewrite lookup_insert; case_decide;
          try apply Hinv; subst u'.
        split; [unfold counted_processed; rewrite Hinsert; apply andb_false_r|].
        rewrite Hm. split; discriminate.
    + assert (tasks s' = <[u := Settled false]> (tasks s) /\ monitors s' = monitors s)
        as [Ht' Hm'].
      { destruct (createSubmission_failed env u); simplify_eq; unfold insert_row;
          reduce_state; split; reflexivity. }
      intros u'. rewrite Ht', Hm', lookup_insert. case_decide; [subst u'|apply Hinv].
      split; [unfold try_resolves; rewrite Hu; reflexivity|].
      rewrite Hm. split; discriminate.
  - (* a finally callback *)
    clear Hshape. step_cases Hstep. exact Hinv.
  - (* a monitor *)
    simpl in Hstep. unfold monitor_step in Hstep.
    destruct (monitors s !! u) as [m|] eqn:Hmon; [|discriminate].
    destruct (progress m) as [v|r]; [|discriminate].
    destruct (Monitor.loop_step Monitor.maxAttempts (started_at m) (polls env u) v)
      as [p upd].
    assert (tasks s' = tasks s /\ exists m', monitors s' = <[u := m']> (monitors s))
      as [Ht' [m' Hm']].
    { injection Hstep as <-. destruct (reaches_emit _ _ _); reduce_state; eauto. }
    intros u'. rewrite Ht', Hm'. destruct (Hinv u') as [Hu' Hmu']. split; [exact Hu'|].
    rewrite lookup_insert. case_decide; [subst u'|exact Hmu'].
    rewrite <- Hmu', Hmon. split; eauto.
Qed.

Lemma covers_same s s' l :
  (forall u, is_Some (tasks s !! u) -> is_Some (tasks s' !! u)) ->
  covers s' l -> covers s l.
Proof. intros Hdom [Hnd Hall]. split; [exact Hnd|]. intros u Hu. apply Hall, Hdom, Hu. Qed.

(** The counters after the call of unit [u] moved from one [await] to the
    next, adding [dp] and [df]. *)
Lemma counts_set s s' u t t' dp df :
  counts_inv env s ->
  tasks s !! u = Some t ->
  tasks s' = <[u := t']> (tasks s) ->
  processedCount s' = processedCount s + dp ->
  failedCount s' = failedCount s + df ->
  processed_of env s' u = processed_of env s u + dp ->
  failed_of s' u = failed_of s u + df ->
  counts_inv env s'.
Proof.
  intros Hinv Ht Ht' Hp Hf Hpu Hfu l Hl.
  assert (covers s l) as Hl0.
  { apply (covers_same s s'); [|exact Hl]. intros u0 Hu0. rewrite Ht', lookup_insert.
    case_decide; [eauto|exact Hu0]. }
  destruct (Hinv l Hl0) as [Hp0 Hf0]. destruct Hl0 as [Hnd Hall].
  assert (u ∈ l) as Hin by (apply Hall; eauto).
  rewrite Hp, Hf, Hp0, Hf0.
  rewrite (sumZ_change (processed_of env s) (processed_of env s') l u Hnd Hin).
  2: { intros u0 Hne. unfold processed_of. rewrite Ht', lookup_insert_ne by congruence.
       reflexivity. }
  rewrite (sumZ_change (failed_of s) (failed_of s') l u Hnd Hin).
  2: { intros u0 Hne. unfold failed_of. rewrite Ht', lookup_insert_ne by congruence.
       reflexivity. }
  lia.
Qed.

Lemma counts_frame s s' :
  counts_inv env s ->
  (forall u, processed_of env s' u = processed_of env s u) ->
  (forall u, failed_of s' u = failed_of s u) ->
  (forall u, is_Some (tasks s !! u) -> is_Some (tasks s' !! u)) ->
  processedCount s' = processedCount s -> failedCount s' = failedCount s ->
  counts_inv env s'.
Proof.
  intros Hinv Hpu Hfu Hdom Hp Hf l Hl.
  destruct (Hinv l (covers_same s s' l Hdom Hl)) as [Hp0 Hf0].
  rewrite Hp, Hf, Hp0, Hf0. split; apply sumZ_ext; intros; auto.
Qed.

Lemma counts_step s s' :
  shape cfg s -> outcome_inv env s -> counts_inv env s -> step cfg env s s' ->
  counts_inv env s'.
Proof.
  intros Hshape Hout Hinv [l Hstep].
  destruct l as [|u|u|u].
  - (* the dispatcher *)
    simpl in Hstep. unfold dispatcher_step, chunk_loop in Hstep.
    destruct (pc s) as [|chunkIndex i promises| |message|] eqn:Hpc;
      repeat case_match; simplify_eq; try exact Hinv;
      try (eapply counts_frame; [exact Hinv|reflexivity..|auto|reflexivity|reflexivity];
           fail).
    pose proof (fresh_unit s _ _ _ Hshape Hpc) as Hfresh.
    apply (counts_frame s); [exact Hinv| | | |reflexivity|reflexivity].
    + intros u. unfold processed_of. reduce_state. rewrite lookup_insert. case_decide.
      * subst u. rewrite Hfresh. reflexivity.
      * reflexivity.
    + intros u. unfold failed_of. reduce_state. rewrite lookup_insert. case_decide.
      * subst u. rewrite Hfresh. reflexivity.
      * reflexivity.
    + intros u Hu. reduce_state. rewrite lookup_insert. case_decide; eauto.
  - (* a unit's call *)
    pose proof (Hout u) as [Hu _].
    simpl in Hstep. unfold task_step, catch_block in Hstep.
    destruct (tasks s !! u) as [[|sendJobId|message|b]|] eqn:Htask; [| | |discriminate..].
    + destruct (createSendJob env u) as [sendJobId|message] eqn:Hcreate; simplify_eq.
      * apply (counts_set s _ u _ (AwaitCreateSubmission sendJobId) 0 0 Hinv Htask);
          unfold processed_of, failed_of; reduce_state;
          rewrite ?lookup_insert_eq, ?Htask; try reflexivity; lia.
      * apply (counts_set s _ u _ (AwaitCreateFailedSubmission message) 0 1 Hinv Htask);
          unfold processed_of, failed_of; reduce_state;
          rewrite ?lookup_insert_eq, ?Htask; try reflexivity; lia.
    + assert (resolves (createSendJob env u) = true) as Hcreate by exact Hu.
      destruct (createSubmission_converting env u) as [submissionId|message] eqn:Hinsert.
      * assert (counted_processed env u = true) as Hcp
          by (unfold counted_processed; rewrite Hcreate, Hinsert; reflexivity).
        destruct (emit_faxSubmitted env u) as [[]|message] eqn:Hemit; simplify_eq.
        -- apply (counts_set s _ u _ (Settled true) 1 0 Hinv Htask);
             unfold processed_of, failed_of, insert_row; reduce_state;
             rewrite ?lookup_insert_eq, ?Htask, ?Hcp; try reflexivity; lia.
        -- apply (counts_set s _ u _ (Settled false) 1 1 Hinv Htask);
             unfold processed_of, failed_of, insert_row; reduce_state;
             rewrite ?lookup_insert_eq, ?Htask, ?Hcp; try reflexivity; lia.
      * simplify_eq.
        apply (counts_set s _ u _ (AwaitCreateFailedSubmission message) 0 1 Hinv Htask);
          unfold processed_of, failed_of; reduce_state;
          rewrite ?lookup_insert_eq, ?Htask; try reflexivity; lia.
    + assert (counted_processed env u = false) as Hcp by exact Hu.
      apply (counts_set s s' u _ (Settled false) 0 0 Hinv Htask);
        destruct (createSubmission_failed env u); simplify_eq;
        unfold processed_of, failed_of, insert_row; reduce_state;
        rewrite ?lookup_insert_eq, ?Htask, ?Hcp; try reflexivity; lia.
  - (* a finally callback *)
    clear Hshape Hout. step_cases Hstep.
    apply (counts_frame s); [exact Hinv|reflexivity..|auto|reflexivity|reflexivity].
  - (* a monitor *)
    simpl in Hstep. unfold monitor_step in Hstep.
    destruct (monitors s !! u) as [m|] eqn:Hmon; [|discriminate].
    destruct (progress m) as [v|r]; [|discriminate].
    destruct (Monitor.loop_step Monitor.maxAttempts (started_at m) (polls env u) v)
      as [p upd].
    assert (tasks s' = tasks s /\ processedCount s' = processedCount s /\
            failedCount s' = failedCount s) as (Ht' & Hp' & Hf').
    { injection Hstep as <-. destruct (reaches_emit _ _ _); reduce_state; eauto. }
    apply (counts_frame s); [exact Hinv| | | |exact Hp'|exact Hf'].
    + intros u0. unfold processed_of. rewrite Ht'. reflexivity.
    + intros u0. unfold failed_of. rewrite Ht'. reflexivity.
    + intros u0. rewrite Ht'. auto.
Qed.

Lemma completed_step s s' :
  reachable cfg env s -> completed_inv s -> step cfg env s s' -> completed_inv s'.
Proof.
  intros Hs Hinv [l Hstep].
  pose proof (shape_reachable cfg env batchSize_pos s Hs) as [Hdone _].
  destruct l as [|u|u|u].
  - simpl in Hstep. unfold dispatcher_step, chunk_loop in Hstep.
    destruct (pc s) as [|chunkIndex i promises| |message|] eqn:Hpc;
      repeat case_match; simplify_eq; unfold completed_inv; reduce_state; simpl;
      try exact Hinv; try discriminate;
      try (intros H; destruct (Hdone H) as [_ [?|[? ?]]]; congruence);
      intros _; split; reflexivity.
  - intros Hcompleted.
    destruct (step_frame cfg env (Task u) s s' ltac:(discriminate) Hstep) as (_ & Hb & _).
    rewrite Hb in Hcompleted.
    destruct (completed_dispatched cfg env s batchSize_pos Hs Hcompleted)
      as (Hlaunched & Hsettled & _).
    simpl in Hstep. unfold task_step in Hstep.
    destruct (tasks s !! u) as [t|] eqn:Ht; [|discriminate].
    assert (1 <= u <= totalCount cfg) as Hu by (apply Hlaunched; eauto).
    destruct (settled_Some s u (Hsettled u Hu)) as [b Hb']. rewrite Ht in Hb'.
    injection Hb' as ->. discriminate.
  - step_cases Hstep. exact Hinv.
  - simpl in Hstep. unfold monitor_step in Hstep.
    destruct (monitors s !! u) as [m|] eqn:Hmon; [|discriminate].
    destruct (progress m) as [v|r]; [|discriminate].
    destruct (Monitor.loop_step Monitor.maxAttempts (started_at m) (polls env u) v)
      as [p upd].
    assert (batch s' = batch s /\ processedCount s' = processedCount s /\
            failedCount s' = failedCount s) as (Hb' & Hp' & Hf').
    { injection Hstep as <-. destruct (reaches_emit _ _ _); reduce_state; eauto. }
    unfold completed_inv. rewrite Hb', Hp', Hf'. exact Hinv.
Qed.

Lemma counting_reachable s :
  reachable cfg env s -> outcome_inv env s /\ counts_inv env s /\ completed_inv s.
Proof.
  revert s. apply (reachable_ind cfg env
    (fun s => outcome_inv env s /\ counts_inv env s /\ completed_inv s)).
  - split; [|split].
    + intros u. cbn. rewrite !lookup_empty. split; [exact I|].
      split; [intros [? [=]]|discriminate].
    + intros l _. cbn.
      rewrite (sumZ_ext (fun _ => 0) (processed_of env (initial cfg)) l),
              (sumZ_ext (fun _ => 0) (failed_of (initial cfg)) l).
      * split; induction l as [|x l IH]; simpl; lia.
      * intros u _. unfold failed_of. cbn. rewrite lookup_empty. reflexivity.
      * intros u _. unfold processed_of. cbn. rewrite lookup_empty. reflexivity.
    + cbn. intros [=].
  - intros s s' Hs (Hout & Hcounts & Hcompleted) Hstep.
    pose proof (shape_reachable cfg env batchSize_pos s Hs) as Hshape.
    split; [|split].
    + eapply outcome_step; eauto.
    + eapply counts_step; eauto.
    + eapply completed_step; eauto.
Qed.

End Counting.

(** X4. What the promise of [_sendSingleFax] is fulfilled with depends on the
    answers of its three calls only, not on the order in which the tasks ran:
    a unit's call has settled with [success: true] exactly when its
    creation call, its insert and the listeners of [faxSubmitted] all
    resolved, and a monitor was started for exactly these units. *)
Theorem unit_success_determined (cfg : settings) (env : environment) (s : state)
    (u : Z) (success : bool) :
  0 < batchSize cfg ->
  reachable cfg env s ->
  tasks s !! u = Some (Settled success) ->
  success = try_resolves env u /\
  (is_Some (monitors s !! u) <-> success = true).
Proof.
  intros Hc Hs Ht.
  destruct (counting_reachable cfg env Hc s Hs) as (Hout & _ & _).
  destruct (Hout u) as [Hu Hm]. rewrite Ht in Hu, Hm.
  split; [exact Hu|]. rewrite Hm. split; [intros [= <-]; reflexivity|intros ->; reflexivity].
Qed.

Lemma unit_success_determined_witness :
  false = try_resolves (backend [3]) 3.
Proof.
  apply (unit_success_determined (batch_of 5 100) (backend [3])
           (state_after (batch_of 5 100) (backend [3]) (batch_schedule [(1, 5)])) 3 false).
  - simpl. lia.
  - apply (reachable_after _ _ (batch_schedule [(1, 5)])). vm_compute. reflexivity.
  - vm_compute. reflexivity.
Defined.

(** X5. The counters written with status ['completed']: [completed_faxes]
    is the number of units whose creation call and insert resolved,
    [failed_faxes] the number of units one of whose three calls threw. Their
    sum is at least the number of units, and is the number of units when no
    listener of [faxSubmitted] throws; a unit whose listener throws after its
    row was inserted is counted in both. *)
Theorem batch_counters_at_completion (cfg : settings) (env : environment) (s : state) :
  0 < batchSize cfg ->
  0 <= totalCount cfg ->
  reachable cfg env s ->
  Db.batch_status (batch s) = "completed" ->
  let units := seqZ 1 (totalCount cfg) in
  Db.completed_faxes (batch s) = count (counted_processed env) units /\
  Db.failed_faxes (batch s) = count (fun u => negb (try_resolves env u)) units /\
  totalCount cfg <= Db.completed_faxes (batch s) + Db.failed_faxes (batch s) /\
  ((forall u, 1 <= u <= totalCount cfg -> resolves (emit_faxSubmitted env u) = true) ->
   Db.completed_faxes (batch s) + Db.failed_faxes (batch s) = totalCount cfg).
Proof.
  intros Hc Hn Hs Hdone units. subst units.
  destruct (counting_reachable cfg env Hc s Hs) as (Hout & Hcounts & Hcompleted).
  destruct (Hcompleted Hdone) as [-> ->].
  destruct (completed_dispatched cfg env s Hc Hs Hdone) as (Hlaunched & Hsettled & _).
  destruct (Hcounts (seqZ 1 (totalCount cfg))) as [Hp Hf].
  { split; [apply NoDup_seqZ|]. intros u Hu. apply Hlaunched in Hu.
    apply elem_of_seqZ. lia. }
  assert (forall u, u ∈ (seqZ 1 (totalCount cfg)) ->
            processed_of env s u = (if counted_processed env u then 1 else 0) /\
            failed_of s u = (if negb (try_resolves env u) then 1 else 0)) as Hunit.
  { intros u Hu. apply elem_of_seqZ in Hu.
    destruct (settled_Some s u (Hsettled u ltac:(lia))) as [b Hb].
    destruct (Hout u) as [Hbu _]. rewrite Hb in Hbu.
    unfold processed_of, failed_of. rewrite Hb. split; [reflexivity|].
    rewrite <- Hbu. destruct b; reflexivity. }
  rewrite (sumZ_ext (fun u => if counted_processed env u then 1 else 0)) in Hp
    by (intros u Hu; apply Hunit, Hu).
  rewrite (sumZ_ext (fun u => if negb (try_resolves env u) then 1 else 0)) in Hf
    by (intros u Hu; apply Hunit, Hu).
  rewrite sumZ_count in Hp, Hf. rewrite Hp, Hf.
  split; [reflexivity|]. split; [reflexivity|].
  assert (forall l : list Z,
            Z.of_nat (length l) <=
              count (counted_processed env) l + count (fun u => negb (try_resolves env u)) l /\
            ((forall u, u ∈ l -> resolves (emit_faxSubmitted env u) = true) ->
             count (counted_processed env) l + count (fun u => negb (try_resolves env u)) l
             = Z.of_nat (length l))) as Hlen.
  { unfold count, try_resolves. induction l as [|x l [IH1 IH2]]; simpl; [split; lia|].
    split.
    - destruct (counted_processed env x), (resolves (emit_faxSubmitted env x)); simpl; lia.
    - intros Hall. rewrite (Hall x) by apply list_elem_of_here.
      specialize (IH2 (fun u Hu => Hall u (list_elem_of_further _ _ _ Hu))).
      destruct (counted_processed env x); simpl; lia. }
  destruct (Hlen (seqZ 1 (totalCount cfg))) as [Hle Heq].
  rewrite length_seqZ in Hle, Heq.
  split; [lia|].
  intros Hall. rewrite Heq; [lia|].
  intros u Hu. apply Hall. apply elem_of_seqZ in Hu. lia.
Qed.

Lemma batch_counters_at_completion_witness :
  let s := state_after (batch_of 5 100) (backend [3]) (batch_schedule [(1, 5)]) in
  Db.completed_faxes (batch s) + Db.failed_faxes (batch s) = 5.
Proof.
  apply (batch_counters_at_completion (batch_of 5 100) (backend [3])).
  - simpl. lia.
  - simpl. lia.
  - apply (reachable_after _ _ (batch_schedule [(1, 5)])). vm_compute. reflexivity.
  - vm_compute. reflexivity.
  - intros u _. reflexivity.
Defined.

(** The row of the batch and the dispatcher: the row is ['failed'] only
    once [_processBatch] has returned, and ['completed'] only then or while
    the update of the [catch] block is awaited, which a listener of
    [batchCompleted] that threw has led to. *)
Lemma left_processing cfg env s :
  reachable cfg env s ->
  Db.batch_status (batch s) = "processing" \/
  Db.batch_status (batch s) = "completed" /\
    (pc s = Done \/ exists message, pc s = AwaitUpdateFailed message /\
                                    emit_batchCompleted env = Throws message) \/
  Db.batch_status (batch s) = "failed" /\ pc s = Done.
Proof.
  revert s. apply reachable_ind.
  - left. reflexivity.
  - intros s s' _ IH [l Hstep].
    destruct l as [|u|u|u].
    2,3,4: (match type of Hstep with
            | step_of _ _ ?l _ = _ =>
              destruct (step_frame cfg env l s s' ltac:(discriminate) Hstep) as (Hpc & Hb & _)
            end; rewrite Hpc, Hb; exact IH).
    simpl in Hstep. unfold dispatcher_step, chunk_loop in Hstep.
    destruct IH as [Hproc|[[Hcompleted [Hpc|(m & Hpc & Hthrows)]]|[_ Hpc]]];
      try (rewrite Hpc in Hstep; discriminate).
    + destruct (pc s) as [|chunkIndex i promises| |message|] eqn:Hpc;
        repeat case_match; simplify_eq; reduce_state; simpl; eauto 7.
    + rewrite Hpc in Hstep.
      destruct (updateBatch_failed env) as [[]|message'];
        [destruct (emit_batchFailed env) as [[]|message'']|];
        simplify_eq; reduce_state; simpl; auto.
Qed.

Lemma step_from_done cfg env s s' :
  pc s = Done -> step cfg env s s' -> pc s' = Done /\ batch s' = batch s.
Proof.
  intros Hpc [l Hstep]. destruct l as [|u|u|u].
  2,3,4: (match type of Hstep with
          | step_of _ _ ?l _ = _ =>
            destruct (step_frame cfg env l s s' ltac:(discriminate) Hstep) as (Hpc' & Hb & _)
          end; rewrite Hpc', Hb; auto).
  simpl in Hstep. unfold dispatcher_step in Hstep. rewrite Hpc in Hstep. discriminate.
Qed.

Lemma run_from_done cfg env s s' :
  pc s = Done -> rtc (step cfg env) s s' -> pc s' = Done /\ batch s' = batch s.
Proof.
  intros Hpc Hrun. revert s' Hrun. apply rtc_ind_r; [auto|].
  intros s1 s2 _ Hstep [Hpc1 Hb1].
  destruct (step_from_done cfg env s1 s2 Hpc1 Hstep) as [Hpc2 Hb2].
  split; [exact Hpc2|]. rewrite Hb2. exact Hb1.
Qed.

(** The one step that writes a row that has left ['processing']: the
    update of the [catch] block on a ['completed'] row. *)
Lemma step_after_completed cfg env s s' message :
  pc s = AwaitUpdateFailed message -> step cfg env s s' ->
  batch s' = batch s /\ (pc s' = pc s \/ pc s' = Done) \/
  batch s' = Db.mark_failed (batch s) /\ pc s' = Done.
Proof.
  intros Hpc [l Hstep]. destruct l as [|u|u|u].
  2,3,4: (match type of Hstep with
          | step_of _ _ ?l _ = _ =>
            destruct (step_frame cfg env l s s' ltac:(discriminate) Hstep) as (Hpc' & Hb & _)
          end; left; auto).
  simpl in Hstep. unfold dispatcher_step in Hstep. rewrite Hpc in Hstep.
  destruct (updateBatch_failed env) as [[]|message'];
    [destruct (emit_batchFailed env) as [[]|message'']|];
    simplify_eq; reduce_state; auto.
Qed.

(** X8. The batch row once it has left ['processing']. It is then
    ['completed'] or ['failed']. Once [_processBatch] has returned no later
    step of the dispatcher, of a unit's call or of a monitor changes the
    row, and a ['failed'] row never changes. A ['completed'] row changes at
    most once more, and only when a listener of [batchCompleted] threw: the
    update of the [catch] block then sets the status to ['failed'] and
    leaves the counters. *)
Theorem batch_row_final (cfg : settings) (env : environment) (s s' : state) :
  reachable cfg env s ->
  Db.batch_status (batch s) <> "processing" ->
  rtc (step cfg env) s s' ->
  (Db.batch_status (batch s) = "completed" \/ Db.batch_status (batch s) = "failed") /\
  (finished s = true -> batch s' = batch s) /\
  (Db.batch_status (batch s) = "failed" -> batch s' = batch s) /\
  (batch s' = batch s \/
   Db.batch_status (batch s) = "completed" /\
   (exists message, emit_batchCompleted env = Throws message) /\
   batch s' = Db.mark_failed (batch s) /\ finished s' = true).
Proof.
  intros Hs Hleft Hrun.
  assert (finished s = true -> batch s' = batch s) as Hfinished.
  { unfold finished. intros Hpc. destruct (pc s) eqn:Hpc'; try discriminate.
    apply (run_from_done cfg env s s' Hpc' Hrun). }
  destruct (left_processing cfg env s Hs)
    as [Hproc|[[Hcompleted [Hpc|(m & Hpc & Hthrows)]]|[Hfailed Hpc]]]; [contradiction|..].
  - assert (batch s' = batch s) as Hb by (apply Hfinished; unfold finished; rewrite Hpc; reflexivity).
    split; [left; exact Hcompleted|]. split; [exact Hfinished|]. split; [intros _; exact Hb|].
    left. exact Hb.
  - split; [left; exact Hcompleted|].
    assert (batch s' = batch s /\ (pc s' = pc s \/ pc s' = Done) \/
            batch s' = Db.mark_failed (batch s) /\ pc s' = Done) as Hrow.
    { clear Hfinished. revert s' Hrun. apply rtc_ind_r; [left; auto|].
      intros s1 s2 _ Hstep [[Hb1 [Hpc1|Hpc1]]|[Hb1 Hpc1]].
      - rewrite Hpc in Hpc1.
        destruct (step_after_completed cfg env s1 s2 m Hpc1 Hstep)
          as [[Hb2 [Hpc2|Hpc2]]|[Hb2 Hpc2]].
        + left. split; [congruence|left; congruence].
        + left. split; [congruence|right; exact Hpc2].
        + right. split; [congruence|exact Hpc2].
      - destruct (step_from_done cfg env s1 s2 Hpc1 Hstep) as [Hpc2 Hb2].
        left. split; [congruence|right; exact Hpc2].
      - destruct (step_from_done cfg env s1 s2 Hpc1 Hstep) as [Hpc2 Hb2].
        right. split; [congruence|exact Hpc2]. }
    split; [exact Hfinished|]. split; [rewrite Hcompleted; discriminate|].
    destruct Hrow as [[Hb _]|[Hb Hpc']]; [left; exact Hb|].
    right. split; [exact Hcompleted|]. split; [eauto|]. split; [exact Hb|].
    unfold finished. rewrite Hpc'. reflexivity.
  - assert (batch s' = batch s) as Hb by (apply Hfinished; unfold finished; rewrite Hpc; reflexivity).
    split; [right; exact Hfailed|]. split; [exact Hfinished|]. split; [intros _; exact Hb|].
    left. exact Hb.
Qed.

Lemma batch_row_final_witness :
  let env := backend_with_listener_of_batchCompleted [] in
  let s := state_after (batch_of 1 100) env (batch_schedule [(1, 1)]) in
  let s' := state_after (batch_of 1 100) env (batch_schedule [(1, 1)] ++ [Dispatch; Poll 1]) in
  (Db.batch_status (batch s) = "completed" \/ Db.batch_status (batch s) = "failed") /\
  (finished s = true -> batch s' = batch s) /\
  (Db.batch_status (batch s) = "failed" -> batch s' = batch s) /\
  (batch s' = batch s \/
   Db.batch_status (batch s) = "completed" /\
   (exists message, emit_batchCompleted env = Throws message) /\
   batch s' = Db.mark_failed (batch s) /\ finished s' = true).
Proof.
  intros env s s'. apply (batch_row_final (batch_of 1 100) env s s').
  - apply (reachable_after _ _ (batch_schedule [(1, 1)])). vm_compute. reflexivity.
  - vm_compute. discriminate.
  - apply (rtc_l _ _ (state_after (batch_of 1 100) env (batch_schedule [(1, 1)] ++ [Dispatch]))).
    + exists Dispatch. vm_compute. reflexivity.
    + apply rtc_once. exists (Poll 1). vm_compute. reflexivity.
Defined.

(** A ['completed'] row that ends ['failed']: the listener of
    [batchCompleted] throws. *)
Example completed_then_failed :
  let env := backend_with_listener_of_batchCompleted [] in
  Db.batch_status (batch (state_after (batch_of 1 100) env (batch_schedule [(1, 1)])))
  = "completed" /\
  Db.batch_status
    (batch (state_after (batch_of 1 100) env (batch_schedule [(1, 1)] ++ [Dispatch])))
  = "failed".
Proof. split; vm_compute; reflexivity. Qed.

(** A monitor at the ceiling whose last update the database rejects: the
    row of its submission is left ['converting']. *)
Example row_left_converting :
  let s := state_after (batch_of 1 100) backend_processing_forever
             (batch_schedule [(1, 1)] ++ replicate 121 (Poll 1)) in
  (Db.row_status ∘ snd) <$> fax_submissions s = ["converting"] /\
  (progress <$> monitors s !! 1)
  = Some (Monitor.Returned {| Monitor.iterations := 120; Monitor.accepted_updates := [];
                              Monitor.final := Monitor.Threw Monitor.timeout_updates |}).
Proof. vm_compute. split; reflexivity. Qed.

Lemma update_rows_keeps h upd rows (ur : Z * Db.submission) :
  ur ∈ rows -> Db.row_fax_handle (snd ur) <> Db.JobHandle h ->
  ur ∈ update_rows h upd rows.
Proof.
  intros Hin Hne. unfold update_rows. destruct upd as [x|]; [|exact Hin].
  apply list_elem_of_fmap. exists ur. split; [|exact Hin].
  destruct (DbFacts.handle_eqb_spec (Db.row_fax_handle (snd ur)) (Db.JobHandle h))
    as [Heq|_]; [contradiction|].
  destruct ur; reflexivity.
Qed.

(** X9. A Submission row, once inserted, is changed only by a monitor
    polling the job whose id is the row's handle: every other step leaves it
    as it is. A row with the synthetic handle of a failed creation therefore
    stays as it was inserted, whatever runs afterwards. *)
Theorem rows_change_only_under_their_monitor (cfg : settings) (env : environment)
    (s s' : state) (u : Z) (r : Db.submission) :
  (u, r) ∈ fax_submissions s ->
  (forall l, step_of cfg env l s = Some s' ->
     (forall u0 m, l = Poll u0 -> monitors s !! u0 = Some m ->
                   Db.row_fax_handle r <> Db.JobHandle (faxHandle m)) ->
     (u, r) ∈ fax_submissions s') /\
  ((forall sendJobId, Db.row_fax_handle r <> Db.JobHandle sendJobId) ->
   rtc (step cfg env) s s' -> (u, r) ∈ fax_submissions s').
Proof.
  assert (forall l s1 s2,
            step_of cfg env l s1 = Some s2 -> (u, r) ∈ fax_submissions s1 ->
            (forall u0 m, l = Poll u0 -> monitors s1 !! u0 = Some m ->
                          Db.row_fax_handle r <> Db.JobHandle (faxHandle m)) ->
            (u, r) ∈ fax_submissions s2) as Hone.
  { intros l s1 s2 Hstep Hin Hother. destruct l as [|u0|u0|u0].
    - step_cases Hstep; exact Hin.
    - step_cases Hstep; try exact Hin; apply list_elem_of_further, Hin.
    - step_cases Hstep; exact Hin.
    - simpl in Hstep. unfold monitor_step in Hstep.
      destruct (monitors s1 !! u0) as [m|] eqn:Hmon; [|discriminate].
      destruct (progress m) as [v|x]; [|discriminate].
      destruct (Monitor.loop_step Monitor.maxAttempts (started_at m) (polls env u0) v)
        as [p upd].
      assert (fax_submissions s2 = update_rows (faxHandle m) upd (fax_submissions s1)) as ->.
      { injection Hstep as <-. destruct (reaches_emit _ _ _); reflexivity. }
      apply update_rows_keeps; [exact Hin|]. apply (Hother u0 m eq_refl Hmon). }
  intros Hin. split.
  - intros l Hstep Hother. exact (Hone l s s' Hstep Hin Hother).
  - intros Hsynthetic Hrun. revert s' Hrun. apply rtc_ind_r; [exact Hin|].
    intros s1 s2 _ [l Hstep] Hin1.
    apply (Hone l s1 s2 Hstep Hin1). intros u0 m _ _. apply Hsynthetic.
Qed.

Lemma rows_change_only_under_their_monitor_witness :
  let cfg := batch_of 5 100 in
  let env := backend [3] in
  let s := state_after cfg env (batch_schedule [(1, 5)]) in
  let s' := state_after cfg env (batch_schedule [(1, 5)] ++ [Poll 1; Poll 2; Poll 4; Poll 5]) in
  (3, Db.createSubmission
        (failed_submission cfg env 3
           "Failed to create send job: Request failed with status code 500"))
  ∈ fax_submissions s'.
Proof.
  apply (rows_change_only_under_their_monitor (batch_of 5 100) (backend [3])
           (state_after (batch_of 5 100) (backend [3]) (batch_schedule [(1, 5)]))).
  - vm_compute. do 2 apply list_elem_of_further. apply list_elem_of_here.
  - intros sendJobId. discriminate.
  - eapply rtc_l; [exists (Poll 1); vm_compute; reflexivity|].
    eapply rtc_l; [exists (Poll 2); vm_compute; reflexivity|].
    eapply rtc_l; [exists (Poll 4); vm_compute; reflexivity|].
    apply rtc_once. exists (Poll 5). vm_compute. reflexivity.
Defined.

(** X10. Failures of units do not fail the batch. When the upload and the
    final update resolve and no listener of the dispatcher's own events
    ([uploadingFile], [fileUploaded], [chunkStarted], [chunkCompleted],
    [batchCompleted]) throws, the batch row is never ['failed'], whichever
    creation calls, inserts and listeners of the units' events throw, and
    some schedule of the tasks leads to ['completed']. (A listener of one of
    the dispatcher's events that throws does so inside the [try] of
    [_processBatch] and fails the batch: [completed_then_failed].) *)
Theorem unit_failures_do_not_fail_the_batch (cfg : settings) (env : environment) :
  0 < batchSize cfg ->
  1 <= maxConcurrent cfg ->
  resolves (uploadAttachment env) = true ->
  resolves (updateBatch_completed env) = true ->
  listeners_return env ->
  (forall s, reachable cfg env s -> Db.batch_status (batch s) <> "failed") /\
  (exists s, reachable cfg env s /\ Db.batch_status (batch s) = "completed").
Proof.
  intros Hc Hmax Hupload Hupdate Hlisteners. split.
  - intros s Hs Hfailed.
    destruct (failed_only_by_upload_or_update cfg env Hlisteners s Hs (or_intror Hfailed));
      congruence.
  - apply completion_reachable; assumption.
Qed.

Lemma unit_failures_do_not_fail_the_batch_witness :
  (forall s, reachable (batch_of 5 100) (backend_with_listener_of_faxSubmitted [2; 4]) s ->
             Db.batch_status (batch s) <> "failed") /\
  (exists s, reachable (batch_of 5 100) (backend_with_listener_of_faxSubmitted [2; 4]) s /\
             Db.batch_status (batch s) = "completed").
Proof.
  apply (unit_failures_do_not_fail_the_batch (batch_of 5 100)
           (backend_with_listener_of_faxSubmitted [2; 4])).
  - simpl. lia.
  - simpl. lia.
  - reflexivity.
  - reflexivity.
  - repeat split.
Defined.

(** X11. With a limit [maxConcurrent] of zero or less (a negative
    [MAX_CONCURRENT_FAXES] passes [parseInt(...) || 10]) the test
    [activeRequests.size >= maxConcurrent] always holds: a batch of at least
    one unit never starts a call of [_sendSingleFax], inserts no row and is
    never ['completed']. *)
Theorem nonpositive_limit_never_launches (cfg : settings) (env : environment) (s : state) :
  0 < batchSize cfg ->
  1 <= totalCount cfg ->
  maxConcurrent cfg <= 0 ->
  reachable cfg env s ->
  tasks s = ∅ /\ fax_submissions s = [] /\ Db.batch_status (batch s) <> "completed".
Proof.
  intros Hc Hn Hmax Hs.
  assert (tasks s = ∅ /\ activeRequests s = ∅ /\ fax_submissions s = [] /\
          Db.batch_status (batch s) <> "completed" /\
          match pc s with
          | InChunk chunkIndex i _ => chunkIndex = 0 /\ i = 0
          | AwaitUpdateCompleted => False
          | _ => True
          end) as (Ht & _ & Hrows & Hstatus & _); [|auto].
  revert s Hs. apply reachable_ind.
  - cbn. repeat split. discriminate.
  - intros s s' _ (Ht & Ha & Hrows & Hstatus & Hpc) [l Hstep].
    assert (0 < chunks cfg) as Hchunks by (apply lt_chunks; lia).
    pose proof (chunkSize_pos cfg Hc 0 Hchunks) as Hsize.
    destruct l as [|u|u|u].
    + simpl in Hstep. unfold dispatcher_step, chunk_loop in Hstep.
      destruct (pc s) as [|chunkIndex i promises| |message|] eqn:Hpc';
        [| destruct Hpc as [-> ->] |contradiction| |discriminate].
      * repeat case_match; simplify_eq; reduce_state; repeat split; auto;
          try (match goal with
               | H : (0 <? chunks cfg) = false |- _ => apply Z.ltb_ge in H; lia
               end);
          simplify_eq; reflexivity.
      * destruct (Z.ltb_spec 0 (chunkSize cfg 0)); [|lia].
        rewrite Ha, size_empty in Hstep.
        destruct (Z.geb_spec (Z.of_nat 0) (maxConcurrent cfg)); [|lia].
        simplify_eq. rewrite Hpc'. repeat split; auto.
      * repeat case_match; simplify_eq; reduce_state; simpl;
          repeat split; auto; discriminate.
    + simpl in Hstep. unfold task_step in Hstep. rewrite Ht, lookup_empty in Hstep.
      discriminate.
    + simpl in Hstep. unfold finally_step in Hstep. rewrite Ht, lookup_empty in Hstep.
      discriminate.
    + simpl in Hstep. unfold monitor_step in Hstep.
      destruct (monitors s !! u) as [m|] eqn:Hmon; [|discriminate].
      destruct (progress m) as [v|x]; [|discriminate].
      destruct (Monitor.loop_step Monitor.maxAttempts (started_at m) (polls env u) v)
        as [p [upd|]]; injection Hstep as <-;
        destruct (reaches_emit _ _ _); reduce_state; rewrite Hrows; repeat split; auto.
Qed.

Lemma nonpositive_limit_never_launches_witness :
  tasks (state_after
           (batch_with_limit (-2) 3)
           (backend []) (replicate 5 Dispatch)) = ∅.
Proof.
  apply (nonpositive_limit_never_launches
           (batch_with_limit (-2) 3) (backend [])).
  - simpl. lia.
  - simpl. lia.
  - simpl. lia.
  - apply (reachable_after _ _ (replicate 5 Dispatch)). vm_compute. reflexivity.
Defined.

Lemma occurrences_emit p e s :
  occurrences p (emit e s) = ((if p e then 1 else 0) + occurrences p s)%nat.
Proof. unfold occurrences. cbn. destruct (p e); reflexivity. Qed.

(** The events of the calls of the units, of the [finally] callbacks and of
    the monitors: [faxSubmitted], [faxFailed] and [faxCompleted]. *)
Lemma unit_step_events cfg env l s s' (p : event -> bool) :
  l <> Dispatch -> step_of cfg env l s = Some s' ->
  (forall u j i c, p (faxSubmitted u j i c) = false) ->
  (forall u m, p (faxFailed u m) = false) ->
  (forall h i, p (faxCompleted h i) = false) ->
  occurrences p s' = occurrences p s.
Proof.
  intros Hl Hstep Hs Hf Hc. destruct l as [|u|u|u]; [congruence|..].
  - step_cases Hstep; unfold insert_row, occurrences; reduce_state;
      cbn [List.filter]; rewrite ?Hs, ?Hf; reflexivity.
  - step_cases Hstep; reflexivity.
  - simpl in Hstep. unfold monitor_step in Hstep.
    destruct (monitors s !! u) as [m|]; [|discriminate].
    destruct (progress m) as [v|x]; [|discriminate].
    destruct (Monitor.loop_step Monitor.maxAttempts (started_at m) (polls env u) v)
      as [q upd].
    injection Hstep as <-. destruct (reaches_emit _ _ _); unfold occurrences; cbn;
      rewrite ?Hc; reflexivity.
Qed.

Lemma poll_step_events cfg env u s s' :
  step_of cfg env (Poll u) s = Some s' ->
  tasks s' = tasks s /\
  forall p : event -> bool,
    (forall h i, p (faxCompleted h i) = false) -> occurrences p s' = occurrences p s.
Proof.
  intros Hstep. simpl in Hstep. unfold monitor_step in Hstep.
  destruct (monitors s !! u) as [m|]; [|discriminate].
  destruct (progress m) as [v|x]; [|discriminate].
  destruct (Monitor.loop_step Monitor.maxAttempts (started_at m) (polls env u) v)
    as [q upd].
  injection Hstep as <-.
  split; [destruct (reaches_emit _ _ _); reflexivity|].
  intros p Hc. destruct (reaches_emit _ _ _); unfold occurrences; cbn;
    rewrite ?Hc; reflexivity.
Qed.

Lemma occurrences_terminal s :
  occurrences terminal s
  = (occurrences reports_completed s + occurrences reports_batch_failed s
     + occurrences reports_batch_error s)%nat.
Proof.
  unfold occurrences. induction (emitted s) as [|e l IH]; [reflexivity|].
  destruct e; simpl; rewrite IH; lia.
Qed.

(** The events that end a batch and the row, by where [_processBatch] is. *)
Lemma terminal_events_reachable cfg env s :
  reachable cfg env s ->
  match pc s with
  | Done =>
    Db.batch_status (batch s) = "completed" /\
      occurrences reports_completed s = 1%nat /\
      occurrences reports_batch_failed s = 0%nat /\
      (occurrences reports_batch_error s = 0%nat /\
         resolves (emit_batchCompleted env) = true \/
       occurrences reports_batch_error s = 1%nat /\
         resolves (emit_batchCompleted env) = false) \/
    Db.batch_status (batch s) = "failed" /\
      occurrences reports_batch_failed s = 1%nat /\
      occurrences reports_batch_error s
      = (if resolves (emit_batchFailed env) then 0 else 1)%nat /\
      (occurrences reports_completed s = 0%nat \/
       occurrences reports_completed s = 1%nat /\
         resolves (emit_batchCompleted env) = false) \/
    Db.batch_status (batch s) = "processing" /\
      occurrences reports_completed s = 0%nat /\
      occurrences reports_batch_failed s = 0%nat /\
      occurrences reports_batch_error s = 1%nat
  | AwaitUpdateFailed _ =>
    occurrences reports_batch_failed s = 0%nat /\
    occurrences reports_batch_error s = 0%nat /\
    (Db.batch_status (batch s) = "processing" /\ occurrences reports_completed s = 0%nat \/
     Db.batch_status (batch s) = "completed" /\ occurrences reports_completed s = 1%nat /\
       resolves (emit_batchCompleted env) = false)
  | _ =>
    Db.batch_status (batch s) = "processing" /\
    occurrences reports_completed s = 0%nat /\
    occurrences reports_batch_failed s = 0%nat /\
    occurrences reports_batch_error s = 0%nat
  end.
Proof.
  revert s. apply reachable_ind.
  - repeat split.
  - intros s s' Hs IH [l Hstep].
    destruct l as [|u|u|u].
    2,3,4: (match type of Hstep with
            | step_of _ _ ?l _ = _ =>
              destruct (step_frame cfg env l s s' ltac:(discriminate) Hstep) as (Hpc & Hb & _);
              rewrite !(unit_step_events cfg env l s s' _ ltac:(discriminate) Hstep)
                by reflexivity
            end; rewrite Hpc, Hb; exact IH).
    simpl in Hstep. unfold dispatcher_step, chunk_loop in Hstep.
    destruct (pc s) as [|chunkIndex i promises| |message|] eqn:Hpc; [| | | |discriminate];
      [ (destruct IH as (Hproc & Hc & Hf & He);
         unfold occurrences in *;
         (match goal with |- ?G =>
            pattern s'; match goal with |- ?P s' => set (Target := P) end end);
         repeat case_match; simplify_eq; subst Target; cbv beta; reduce_state; cbn;
         rewrite ?Hc, ?Hf, ?He, ?Hpc;
         try match goal with
         | H : emit_batchCompleted _ = _ |- _ => rewrite H
         end; simpl; naive_solver) .. | ].
    destruct IH as (Hf & He & Hrow). unfold occurrences in *.
    destruct (updateBatch_failed env) as [[]|message'];
      [destruct (emit_batchFailed env) as [[]|message'']|];
      simplify_eq; reduce_state; cbn; rewrite ?Hf, ?He; simpl; naive_solver.
Qed.

(** X7. The events that end a batch. Each of [batchCompleted],
    [batchFailed] and [batchError] is emitted at most once and, once
    [_processBatch] has returned, at least one of them has been;
    [batchFailed] and [batchError] are emitted by the [catch] block only,
    [batchFailed] exactly when the batch row is ['failed'], and a
    ['completed'] row has had its [batchCompleted]. When no listener of
    [batchCompleted] or [batchFailed] throws, exactly one of the three has
    been emitted once [_processBatch] has returned and none before, and
    [batchCompleted] exactly when the row is ['completed']. (A listener of
    [batchCompleted] that throws does so inside the [try]: the [catch] block
    then adds [batchFailed], or [batchError] when its update throws.) *)
Theorem terminal_events (cfg : settings) (env : environment) (s : state) :
  reachable cfg env s ->
  (occurrences reports_completed s <= 1 /\ occurrences reports_batch_failed s <= 1 /\
   occurrences reports_batch_error s <= 1)%nat /\
  occurrences terminal s
  = (occurrences reports_completed s + occurrences reports_batch_failed s
     + occurrences reports_batch_error s)%nat /\
  (finished s = true -> (1 <= occurrences terminal s)%nat) /\
  (finished s = false ->
   occurrences reports_batch_failed s = 0%nat /\ occurrences reports_batch_error s = 0%nat) /\
  occurrences reports_batch_failed s
  = (if String.eqb (Db.batch_status (batch s)) "failed" then 1 else 0)%nat /\
  (Db.batch_status (batch s) = "completed" -> occurrences reports_completed s = 1%nat) /\
  (resolves (emit_batchCompleted env) = true ->
   resolves (emit_batchFailed env) = true ->
   occurrences terminal s = (if finished s then 1 else 0)%nat /\
   occurrences reports_completed s
   = (if String.eqb (Db.batch_status (batch s)) "completed" then 1 else 0)%nat).
Proof.
  intros Hs. pose proof (terminal_events_reachable cfg env s Hs) as H.
  rewrite (occurrences_terminal s). unfold finished.
  destruct (pc s) as [|chunkIndex i promises| |message|].
  1,2,3: destruct H as (-> & -> & -> & ->); repeat split; simpl; auto; discriminate.
  - destruct H as (-> & -> & [[-> ->]|(-> & -> & Hthrows)]);
      repeat split; simpl; auto; try discriminate; congruence.
  - destruct H as [(-> & -> & -> & [[-> Hl]|[-> Hl]])
                  |[(-> & -> & -> & [->|[-> Hl]])|(-> & -> & -> & ->)]];
      repeat split; simpl; auto; try discriminate; try lia; try congruence;
      try (destruct (resolves (emit_batchFailed env)); simpl; lia);
      try (intros _ ->; split; reflexivity).
Qed.

Lemma terminal_events_witness :
  let env := backend_with_listener_of_batchCompleted [] in
  let s := state_after (batch_of 5 100) env (batch_schedule [(1, 5)] ++ [Dispatch]) in
  occurrences terminal s = 2%nat /\ occurrences reports_completed s = 1%nat /\
  occurrences reports_batch_failed s = 1%nat /\ finished s = true.
Proof.
  intros env s.
  destruct (terminal_events (batch_of 5 100) env s) as (_ & Hsum & _ & _ & Hfailed & _).
  - apply (reachable_after _ _ (batch_schedule [(1, 5)] ++ [Dispatch])). vm_compute. reflexivity.
  - rewrite Hsum, Hfailed. vm_compute. repeat split.
Defined.

(** X6. The events of a unit. No [faxSubmitted] and no [faxFailed] event
    names a unit before its call has settled. Once it has settled with
    [success: true], exactly one [faxSubmitted] and no [faxFailed] names it.
    Once it has settled otherwise (with [success: false], or rejected by a
    listener of [faxFailed] that threw), exactly one [faxFailed] names it,
    and no [faxSubmitted] unless the creation call and the insert had
    resolved: then it is a listener of [faxSubmitted] that threw, after the
    event was emitted, and the unit has one event of each kind. *)
Theorem events_of_a_unit (cfg : settings) (env : environment) (s : state) (u : Z) :
  0 < batchSize cfg ->
  reachable cfg env s ->
  occurrences (reports_submitted u) s
  = (match tasks s !! u with
     | Some (Settled true) => 1
     | Some (Settled false) => if counted_processed env u then 1 else 0
     | _ => 0
     end)%nat /\
  occurrences (reports_failed u) s
  = (match tasks s !! u with Some (Settled false) => 1 | _ => 0 end)%nat.
Proof.
  intros Hc Hs.
  assert (reported env s u) as H.
  { revert s Hs u. apply (reachable_ind cfg env (fun s => forall u, reported env s u)).
    - intros u. unfold reported. cbn. rewrite lookup_empty. auto.
    - intros s s' Hs IH [l Hstep] u.
      pose proof (shape_reachable cfg env Hc s Hs) as Hshape.
      pose proof (IH u) as Hu.
      destruct l as [|u0|u0|u0].
      + simpl in Hstep. unfold dispatcher_step, chunk_loop in Hstep.
        hide_goal s'.
        destruct (pc s) as [|chunkIndex i promises| |message|] eqn:Hpc;
          repeat case_match; simplify_eq; subst Target; cbv beta;
          unfold reported, occurrences in *; reduce_state;
          cbn [List.filter reports_submitted reports_failed];
          try exact Hu.
        pose proof (fresh_unit cfg _ _ _ _ Hshape Hpc) as Hfresh.
        rewrite lookup_insert. case_decide; [subst u; rewrite Hfresh in Hu|]; exact Hu.
      + simpl in Hstep. unfold task_step, catch_block in Hstep.
        hide_goal s'.
        destruct (decide (u = u0)) as [->|Hne].
        * destruct (counting_reachable cfg env Hc s Hs) as (Hout & _ & _).
          destruct (Hout u0) as [Hcounted _]. clear Hout.
          destruct (tasks s !! u0) as [[|sendJobId|message|b]|] eqn:Htask;
            [| | |discriminate..];
            repeat case_match; simplify_eq; subst Target; cbv beta;
            unfold reported, insert_row, occurrences in *; rewrite Htask in Hu;
            destruct Hu as [Hu1 Hu2]; reduce_state;
            rewrite ?lookup_insert_eq;
            cbn [List.filter reports_submitted reports_failed]; rewrite ?Z.eqb_refl;
            cbn [length]; rewrite ?Hu1, ?Hu2; rewrite ?Hcounted; auto.
          unfold counted_processed.
          match goal with
          | H : createSubmission_converting env u0 = Resolves _ |- _ => rewrite H
          end.
          rewrite Hcounted. auto.
        * assert ((u0 =? u) = false) as Hneq by (apply Z.eqb_neq; congruence).
          destruct (tasks s !! u0) as [[|sendJobId|message|b]|] eqn:Htask;
            [| | |discriminate..];
            repeat case_match; simplify_eq; subst Target; cbv beta;
            unfold reported, insert_row, occurrences in *; reduce_state;
            rewrite ?lookup_insert_ne by congruence;
            cbn [List.filter reports_submitted reports_failed];
            rewrite ?Hneq; exact Hu.
      + clear Hshape. hide_goal s'. step_cases Hstep. subst Target. exact Hu.
      + destruct (poll_step_events cfg env u0 s s' Hstep) as [Ht Hev].
        unfold reported. rewrite Ht, !Hev by reflexivity. exact Hu. }
  unfold reported in H.
  destruct (tasks s !! u) as [[| | |[|]]|]; exact H.
Qed.

Lemma events_of_a_unit_witness :
  let env := backend_with_listener_of_faxSubmitted [3] in
  let s := state_after (batch_of 5 100) env (batch_schedule [(1, 5)]) in
  occurrences (reports_submitted 3) s = 1%nat /\ occurrences (reports_failed 3) s = 1%nat /\
  occurrences (reports_submitted 4) s = 1%nat /\ occurrences (reports_failed 4) s = 0%nat.
Proof.
  intros env s.
  assert (reachable (batch_of 5 100) env s) as Hs.
  { apply (reachable_after _ _ (batch_schedule [(1, 5)])). vm_compute. reflexivity. }
  destruct (events_of_a_unit (batch_of 5 100) env s 3) as [H1 H2]; [simpl; lia|exact Hs|].
  rewrite H1, H2.
  destruct (events_of_a_unit (batch_of 5 100) env s 4) as [H3 H4]; [simpl; lia|exact Hs|].
  rewrite H3, H4. vm_compute. repeat split.
Defined.

Lemma held_reachable cfg env s : reachable cfg env s -> held s.
Proof.
  revert s. apply reachable_ind.
  - split; intros u Hu; cbn in Hu; [apply elem_of_empty in Hu; contradiction|inversion Hu].
  - intros s s' _ [Ha Hp] [l Hstep].
    destruct l as [|u|u|u].
    + simpl in Hstep. unfold dispatcher_step, chunk_loop in Hstep.
      unfold promises_of in Hp. hide_goal s'.
      destruct (pc s) as [|chunkIndex i promises| |message|] eqn:Hpc;
        repeat case_match; simplify_eq; subst Target; cbv beta;
        unfold held, promises_of; reduce_state; rewrite ?Hpc; split; intros u Hu;
        first [ solve [inversion Hu] | solve [apply Ha; exact Hu]
              | solve [apply Hp; exact Hu] | idtac ].
      * rewrite lookup_insert. case_decide; [eauto|].
        apply Ha. apply elem_of_union in Hu as [Hu|Hu]; [exact Hu|].
        apply elem_of_singleton in Hu. congruence.
      * rewrite lookup_insert. case_decide; [eauto|].
        apply Hp. apply elem_of_app in Hu as [Hu|Hu]; [exact Hu|].
        apply list_elem_of_singleton in Hu. congruence.
    + destruct (step_frame cfg env (Task u) s s' ltac:(discriminate) Hstep)
        as (Hpc & _ & _ & Hdom & _).
      assert (activeRequests s' = activeRequests s) as Hact.
      { clear Ha Hp Hdom Hpc. step_cases Hstep; reflexivity. }
      unfold held, promises_of. rewrite Hpc, Hact.
      split; intros u0 Hu0; apply Hdom; [apply Ha|apply Hp]; exact Hu0.
    + destruct (step_frame cfg env (Finally u) s s' ltac:(discriminate) Hstep)
        as (Hpc & _ & _ & Hdom & _).
      unfold held, promises_of. rewrite Hpc.
      split; intros u0 Hu0; apply Hdom; [apply Ha|apply Hp; exact Hu0].
      clear Ha Hp Hdom Hpc. step_cases Hstep.
      apply elem_of_difference in Hu0 as [Hu0 _]. exact Hu0.
    + destruct (step_frame cfg env (Poll u) s s' ltac:(discriminate) Hstep)
        as (Hpc & _ & _ & Hdom & _).
      destruct (poll_step_events cfg env u s s' Hstep) as [Ht _].
      assert (activeRequests s' = activeRequests s) as Hact.
      { simpl in Hstep. unfold monitor_step in Hstep.
        destruct (monitors s !! u) as [m|]; [|discriminate].
        destruct (progress m) as [v|x]; [|discriminate].
        destruct (Monitor.loop_step Monitor.maxAttempts (started_at m) (polls env u) v)
          as [q upd].
        injection Hstep as <-. destruct (reaches_emit _ _ _); reflexivity. }
      unfold held, promises_of. rewrite Hpc, Hact.
      split; intros u0 Hu0; apply Hdom; [apply Ha|apply Hp]; exact Hu0.
Qed.

Lemma forallb_false {A} (f : A -> bool) (l : list A) :
  forallb f l = false -> exists x, x ∈ l /\ f x = false.
Proof.
  induction l as [|x l IH]; [discriminate|]. simpl. intros H.
  apply andb_false_iff in H as [H|H].
  - exists x. split; [apply list_elem_of_here|exact H].
  - destruct (IH H) as (y & Hy & Hf). exists y. split; [apply list_elem_of_further, Hy|exact Hf].
Qed.

(** A call that has been started and has not settled can resume, and the
    [finally] callback of a settled call whose promise is still held can run. *)
Lemma held_promise_moves cfg env s u :
  is_Some (tasks s !! u) ->
  (settled s u = false /\ exists s', task_step cfg env u s = Some s' /\ tasks s' !! u <> tasks s !! u) \/
  (settled s u = true /\
   (u ∈ activeRequests s ->
    exists s', finally_step u s = Some s' /\ u ∉ activeRequests s')).
Proof.
  intros [t Ht]. unfold settled, task_step, finally_step, catch_block. rewrite Ht.
  destruct t as [|sendJobId|message|b].
  - left. split; [reflexivity|].
    destruct (createSendJob env u); eexists; (split; [reflexivity|]); reduce_state;
      rewrite lookup_insert_eq; discriminate.
  - left. split; [reflexivity|].
    destruct (createSubmission_converting env u); [destruct (emit_faxSubmitted env u)|];
      eexists; (split; [reflexivity|]); unfold insert_row; reduce_state;
      rewrite lookup_insert_eq; discriminate.
  - left. split; [reflexivity|].
    destruct (createSubmission_failed env u);
      eexists; (split; [reflexivity|]); unfold insert_row; reduce_state;
      rewrite lookup_insert_eq; discriminate.
  - right. split; [reflexivity|]. intros Hin. rewrite decide_True by exact Hin.
    eexists. split; [reflexivity|]. reduce_state.
    intros H. apply elem_of_difference in H as [_ H]. apply H, elem_of_singleton. reflexivity.
Qed.

(** X19. A batch cannot get stuck. In every reachable state of a batch with
    [maxConcurrent >= 1] in which [_processBatch] has not returned, some task
    can take a step that changes the state: the dispatcher itself, or, when
    it waits at the gate ([activeRequests.size >= maxConcurrent]) or at
    [Promise.allSettled], a call whose promise it holds (the call resumes, or
    its [finally] callback frees the slot). *)
Theorem no_deadlock (cfg : settings) (env : environment) (s : state) :
  1 <= maxConcurrent cfg ->
  reachable cfg env s ->
  finished s = false ->
  exists l s', step_of cfg env l s = Some s' /\ s' <> s.
Proof.
  intros Hmax Hs Hrun.
  destruct (held_reachable cfg env s Hs) as [Ha Hp].
  assert (forall u, is_Some (tasks s !! u) ->
            (settled s u = false -> exists l s', step_of cfg env l s = Some s' /\ s' <> s) /\
            (u ∈ activeRequests s -> exists l s', step_of cfg env l s = Some s' /\ s' <> s))
    as Hmove.
  { intros u Hu.
    destruct (held_promise_moves cfg env s u Hu) as [[Hset (s' & Hstep & Hne)]|[Hset Hfin]].
    - assert (exists l s', step_of cfg env l s = Some s' /\ s' <> s) as H
        by (exists (Task u), s'; split; [exact Hstep|intros ->; contradiction]).
      split; intros _; exact H.
    - split; [congruence|]. intros Hin. destruct (Hfin Hin) as (s' & Hstep & Hout).
      exists (Finally u), s'. split; [exact Hstep|]. intros ->. contradiction. }
  unfold finished in Hrun.
  destruct (pc s) as [|chunkIndex i promises| |message|] eqn:Hpc; [| | | |discriminate].
  - exists Dispatch. simpl. unfold dispatcher_step, chunk_loop. rewrite Hpc.
    clear Hmove Ha Hp. repeat case_match;
      eexists; (split; [reflexivity|]); intros Heq; apply (f_equal pc) in Heq;
      reduce_state; congruence.
  - destruct (Z.ltb_spec i (chunkSize cfg chunkIndex)) as [Hlt|Hge].
    + destruct (Z.geb_spec (Z.of_nat (size (activeRequests s))) (maxConcurrent cfg))
        as [Hfull|Hfree].
      * (* the gate is closed: a promise is held *)
        destruct (set_choose_or_empty (activeRequests s)) as [[u Hu]|Hempty].
        -- destruct (Hmove u (Ha u Hu)) as [_ Hrelease]. apply Hrelease, Hu.
        -- apply size_empty_iff in Hempty. lia.
      * exists Dispatch. simpl. unfold dispatcher_step. rewrite Hpc.
        destruct (Z.ltb_spec i (chunkSize cfg chunkIndex)); [|lia].
        destruct (Z.geb_spec (Z.of_nat (size (activeRequests s))) (maxConcurrent cfg)); [lia|].
        eexists. split; [reflexivity|]. intros Heq. apply (f_equal pc) in Heq.
        reduce_state. rewrite Hpc in Heq. injection Heq. lia.
    + destruct (forallb (settled s) promises) eqn:Hall.
      * exists Dispatch. simpl. unfold dispatcher_step, chunk_loop. rewrite Hpc.
        destruct (Z.ltb_spec i (chunkSize cfg chunkIndex)); [lia|]. rewrite Hall.
        clear Hmove Ha Hp. repeat case_match;
          eexists; (split; [reflexivity|]); intros Heq; apply (f_equal pc) in Heq;
          reduce_state; rewrite Hpc in Heq; try discriminate; injection Heq; lia.
      * destruct (forallb_false (settled s) promises Hall) as (u & Hu & Hset).
        assert (u ∈ promises_of s) as Hheld by (unfold promises_of; rewrite Hpc; exact Hu).
        destruct (Hmove u (Hp u Hheld)) as [Hresume _]. apply Hresume, Hset.
  - exists Dispatch. simpl. unfold dispatcher_step. rewrite Hpc.
    clear Hmove Ha Hp. repeat case_match;
      eexists; (split; [reflexivity|]); intros Heq; apply (f_equal pc) in Heq;
      reduce_state; congruence.
  - exists Dispatch. simpl. unfold dispatcher_step. rewrite Hpc.
    clear Hmove Ha Hp. repeat case_match;
      eexists; (split; [reflexivity|]); intros Heq; apply (f_equal pc) in Heq;
      reduce_state; congruence.
Qed.

Lemma no_deadlock_witness :
  exists l s',
    step_of (batch_of 250 100) (backend [])
      l (state_after (batch_of 250 100) (backend []) (replicate 11 Dispatch)) = Some s' /\
    s' <> state_after (batch_of 250 100) (backend []) (replicate 11 Dispatch).
Proof.
  apply (no_deadlock (batch_of 250 100) (backend [])).
  - simpl. lia.
  - apply (reachable_after _ _ (replicate 11 Dispatch)). vm_compute. reflexivity.
  - vm_compute. reflexivity.
Defined.

Lemma work_of_insert {A} (f : A -> nat) (m : gmap Z A) u a :
  (work_of f (<[u := a]> m) + from_option f 0 (m !! u) = work_of f m + f a)%nat.
Proof.
  assert (forall (m' : gmap Z A) b, m' !! u = None ->
            work_of f (<[u := b]> m') = (f b + work_of f m')%nat) as Hfresh.
  { intros m' b Hnone. unfold work_of.
    apply (map_fold_insert_L (fun (_ : Z) (x : A) (n : nat) => (f x + n)%nat)); [|exact Hnone].
    intros. lia. }
  destruct (m !! u) as [b|] eqn:Hu; cbn.
  - rewrite <- (insert_delete_eq m u a).
    rewrite <- (insert_delete_id m u b Hu) at 2.
    rewrite !Hfresh by apply lookup_delete_eq. lia.
  - rewrite Hfresh by exact Hu. lia.
Qed.

Lemma loop_step_work started polls v p upd :
  Monitor.loop_step Monitor.maxAttempts started polls v = (p, upd) ->
  (progress_work p < progress_work (Monitor.Polling v))%nat.
Proof.
  unfold Monitor.loop_step.
  destruct (Nat.ltb_spec (Monitor.attempts v) Monitor.maxAttempts) as [Hlt|Hge].
  - destruct (Monitor.loop_body _ _ _); intros [= <- <-]; cbn [progress_work Monitor.attempts]; lia.
  - destruct (Monitor.updateSubmission_ok _); intros [= <- <-]; cbn [progress_work]; lia.
Qed.

Section Work.

Variable cfg : settings.
Variable env : environment.
Hypothesis batchSize_pos : 0 < batchSize cfg.

Lemma step_work l s s' :
  reachable cfg env s -> step_of cfg env l s = Some s' ->
  if delays cfg l s then s' = s else (work cfg s' < work cfg s)%nat.
Proof.
  intros Hs Hstep.
  pose proof (shape_reachable cfg env batchSize_pos s Hs) as [_ Hshape].
  destruct l as [|u|u|u]; unfold delays.
  - simpl in Hstep. unfold dispatcher_step, chunk_loop in Hstep.
    destruct (pc s) as [|chunkIndex i promises| |message|] eqn:Hpc.
    + destruct (emit_uploadingFile env);
        [destruct (uploadAttachment env);
           [destruct (emit_fileUploaded env);
              [destruct (Z.ltb_spec 0 (chunks cfg));
                 [destruct (emit_chunkStarted env (0 + 1))|]|]|]|];
        injection Hstep as <-;
        unfold work; reduce_state; rewrite Hpc; cbn [dispatcher_work];
        unfold chunkStart; lia.
    + destruct Hshape as (Hk & Hi & _).
      destruct (Z.ltb_spec i (chunkSize cfg chunkIndex)) as [Hlt|Hge]; cbn [andb].
      * destruct (Z.geb_spec (Z.of_nat (size (activeRequests s))) (maxConcurrent cfg)).
        -- injection Hstep as <-. reflexivity.
        -- injection Hstep as <-. unfold work; reduce_state; rewrite Hpc; cbn [dispatcher_work].
           set (u := chunkStart cfg chunkIndex + i + 1).
           pose proof (work_of_insert task_work (tasks s) u AwaitCreateSendJob) as Hins.
           assert (size (activeRequests s ∪ {[u]}) <= S (size (activeRequests s)))%nat as Hsize.
           { rewrite size_union_alt.
             assert (({[u]} ∖ activeRequests s : gset Z) ⊆ {[u]}) as Hincl
               by (intros x Hx; apply elem_of_difference in Hx as [Hx _]; exact Hx).
             apply subseteq_size in Hincl. rewrite size_singleton in Hincl. lia. }
           assert (chunkStart cfg chunkIndex + i < totalCount cfg) as Hroom
             by (unfold chunkSize, chunkEnd in Hlt; lia).
           replace (Z.to_nat (totalCount cfg - (chunkStart cfg chunkIndex + i)))
             with (S (Z.to_nat (totalCount cfg - (chunkStart cfg chunkIndex + (i + 1))))) by lia.
           rewrite Nat.mul_succ_r.
           generalize (unit_work
                       * Z.to_nat (totalCount cfg - (chunkStart cfg chunkIndex + (i + 1))))%nat.
           unfold unit_work. cbn [task_work] in *. lia.
      * destruct (forallb (settled s) promises); [|discriminate].
        destruct (emit_chunkCompleted env (chunkIndex + 1));
          [destruct (Z.ltb_spec (chunkIndex + 1) (chunks cfg));
             [destruct (emit_chunkStarted env (chunkIndex + 1 + 1))|]|];
          injection Hstep as <-;
          unfold work; reduce_state; rewrite Hpc; cbn [dispatcher_work];
          try (generalize
                 (unit_work * Z.to_nat (totalCount cfg - (chunkStart cfg chunkIndex + i)))%nat;
               lia).
        assert (i = chunkSize cfg chunkIndex) as -> by lia.
        assert (chunkStart cfg chunkIndex + chunkSize cfg chunkIndex
                <= chunkStart cfg (chunkIndex + 1) + 0) as Hnext
          by (unfold chunkSize, chunkEnd, chunkStart; lia).
        assert (Z.to_nat (totalCount cfg - (chunkStart cfg (chunkIndex + 1) + 0))
                <= Z.to_nat (totalCount cfg
                             - (chunkStart cfg chunkIndex + chunkSize cfg chunkIndex)))%nat
          as Hleft by lia.
        assert (Z.to_nat (chunks cfg - (chunkIndex + 1)) < Z.to_nat (chunks cfg - chunkIndex))%nat
          by lia.
        nia.
    + destruct (updateBatch_completed env); [destruct (emit_batchCompleted env)|];
        injection Hstep as <-;
        unfold work; reduce_state; rewrite Hpc; cbn [dispatcher_work]; lia.
    + destruct (updateBatch_failed env); [destruct (emit_batchFailed env)|];
        injection Hstep as <-;
        unfold work; reduce_state; rewrite Hpc; cbn [dispatcher_work]; lia.
    + discriminate.
  - simpl in Hstep. unfold task_step, catch_block, insert_row in Hstep.
    destruct (tasks s !! u) as [t|] eqn:Ht; [|discriminate].
    pose proof (fun t' => work_of_insert task_work (tasks s) u t') as Hins.
    pose proof (fun m => work_of_insert monitor_work (monitors s) u m) as Hmon.
    rewrite Ht in Hins. cbn [from_option] in Hins.
    destruct t as [|sendJobId|message|b]; [| | |discriminate].
    + destruct (createSendJob env u); injection Hstep as <-;
        unfold work; reduce_state;
        match goal with |- context [<[u := ?t']> (tasks s)] => specialize (Hins t') end;
        cbn [task_work] in *; lia.
    + destruct (createSubmission_converting env u);
        [destruct (emit_faxSubmitted env u)|]; injection Hstep as <-;
        unfold work; reduce_state;
        match goal with |- context [<[u := ?t']> (tasks s)] => specialize (Hins t') end;
        try match goal with |- context [<[u := ?m]> (monitors s)] => specialize (Hmon m) end;
        cbn [task_work monitor_work progress_work progress Monitor.attempts
             Monitor.initial_vars] in *; lia.
    + injection Hstep as <-. unfold work.
      destruct (createSubmission_failed env u); reduce_state;
        match goal with |- context [<[u := ?t']> (tasks s)] => specialize (Hins t') end;
        cbn [task_work] in *; lia.
  - simpl in Hstep. unfold finally_step in Hstep.
    destruct (tasks s !! u) as [[| | |b]|]; try discriminate.
    destruct (decide (u ∈ activeRequests s)) as [Hin|]; [|discriminate].
    injection Hstep as <-. unfold work; reduce_state.
    assert (({[u]} : gset Z) ⊆ activeRequests s) as Hsub
      by (intros x Hx; apply elem_of_singleton in Hx as ->; exact Hin).
    pose proof (subseteq_size _ _ Hsub) as Hone.
    rewrite (size_difference _ _ Hsub). rewrite size_singleton in *.
    destruct (pc s); lia.
  - simpl in Hstep. unfold monitor_step in Hstep.
    destruct (monitors s !! u) as [m|] eqn:Hm; [|discriminate].
    destruct (progress m) as [v|x] eqn:Hprogress; [|discriminate].
    destruct (Monitor.loop_step Monitor.maxAttempts (started_at m) (polls env u) v)
      as [p upd] eqn:Hloop.
    apply loop_step_work in Hloop.
    injection Hstep as <-. 
    assert (forall s0, monitors s0 = monitors s -> pc s0 = pc s ->
              activeRequests s0 = activeRequests s -> tasks s0 = tasks s ->
              (work cfg (with_monitor s0 u {| faxHandle := faxHandle m;
                                              submissionId := submissionId m;
                                              started_at := started_at m; progress := p |})
               < work cfg s)%nat) as Hless.
    { intros s0 H1 H2 H3 H4. unfold work; reduce_state. rewrite H1, H2, H3, H4.
      pose proof (work_of_insert monitor_work (monitors s) u
                    {| faxHandle := faxHandle m; submissionId := submissionId m;
                       started_at := started_at m; progress := p |}) as Hins.
      rewrite Hm in Hins. cbn [from_option] in Hins.
      change (monitor_work m) with (progress_work (progress m)) in Hins.
      rewrite Hprogress in Hins.
      change (monitor_work {| faxHandle := faxHandle m; submissionId := submissionId m;
                              started_at := started_at m; progress := p |})
        with (progress_work p) in Hins.
      lia. }
    destruct (reaches_emit _ _ _); apply Hless; reflexivity.
Qed.

Lemma run_work schedule : forall s s',
  reachable cfg env s -> exec cfg env schedule s = Some s' ->
  (resumptions cfg env schedule s + work cfg s' <= work cfg s)%nat.
Proof.
  induction schedule as [|l schedule IH]; intros s s' Hs Hexec.
  - injection Hexec as <-. cbn. lia.
  - cbn [exec resumptions] in *.
    destruct (step_of cfg env l s) as [s1|] eqn:Hstep; [|discriminate].
    assert (reachable cfg env s1) as Hs1
      by (eapply rtc_r; [exact Hs|exists l; exact Hstep]).
    specialize (IH s1 s' Hs1 Hexec).
    pose proof (step_work l s s1 Hs Hstep) as Hless.
    destruct (delays cfg l s); [subst s1|]; lia.
Qed.

End Work.

(** X20. A batch does a bounded amount of work. Along every run of a batch
    with [batchSize > 0], the steps other than the delays at the gate
    ([await this._delay(100)] while [activeRequests.size >= maxConcurrent])
    number at most [3 + chunks + 126 * totalCount]: the upload, one
    [Promise.allSettled] per chunk and the final update (two when it throws),
    and for each unit its launch, at most three resumptions of
    [_sendSingleFax], the [finally] callback and at most [maxAttempts + 1]
    resumptions of its monitor. Every such step lowers [work] by at least
    one; a delay leaves the state as it is. *)
Theorem batch_work_bounded (cfg : settings) (env : environment) (schedule : list label)
    (s : state) :
  0 < batchSize cfg ->
  exec cfg env schedule (initial cfg) = Some s ->
  (resumptions cfg env schedule (initial cfg) + work cfg s
   <= 3 + Z.to_nat (chunks cfg) + (6 + Monitor.maxAttempts) * Z.to_nat (totalCount cfg))%nat.
Proof.
  intros Hsize Hexec.
  pose proof (run_work cfg env Hsize schedule (initial cfg) s (rtc_refl _ _) Hexec) as Hrun.
  assert (work cfg (initial cfg)
          = (3 + Z.to_nat (chunks cfg) + (6 + Monitor.maxAttempts) * Z.to_nat (totalCount cfg))%nat)
    as Hinit.
  { unfold work, initial, work_of; reduce_state. rewrite !map_fold_empty, size_empty.
    cbn [dispatcher_work]. unfold unit_work. cbn [task_work]. lia. }
  lia.
Qed.

Lemma batch_work_bounded_witness :
  (resumptions (batch_of 5 100) (backend []) schedule_with_polls
     (initial (batch_of 5 100))
   + work (batch_of 5 100)
       (state_after (batch_of 5 100) (backend []) schedule_with_polls)
   <= 3 + Z.to_nat (chunks (batch_of 5 100))
      + (6 + Monitor.maxAttempts) * Z.to_nat (totalCount (batch_of 5 100)))%nat.
Proof.
  apply batch_work_bounded; vm_compute; reflexivity.
Defined.

Example work_of_a_run :
  let schedule := schedule_with_polls in
  resumptions (batch_of 5 100) (backend []) schedule (initial (batch_of 5 100)) = 25%nat /\
  work (batch_of 5 100) (initial (batch_of 5 100)) = 634%nat /\
  work (batch_of 5 100) (state_after (batch_of 5 100) (backend []) schedule) = 363%nat.
Proof. vm_compute. auto. Qed.

Lemma settled_no_task_step cfg env s u :
  none_pending s -> task_step cfg env u s = None.
Proof.
  intros Hnone. unfold task_step. specialize (Hnone u). unfold settled in Hnone.
  destruct (tasks s !! u) as [[| | |b]|]; try reflexivity;
    (assert (false = true) as Habs by (apply Hnone; eauto); discriminate).
Qed.

(** At [Promise.allSettled]: the calls of the earlier chunks and the
    promises of this one have settled. *)
Lemma none_pending_at_allSettled cfg s chunkIndex i promises :
  launched_upto s (chunkStart cfg chunkIndex + i) ->
  settled_upto s (chunkStart cfg chunkIndex) ->
  (forall u, chunkStart cfg chunkIndex < u <= chunkStart cfg chunkIndex + i -> u ∈ promises) ->
  forallb (settled s) promises = true ->
  none_pending s.
Proof.
  intros Hlaunched Hsettled Hprom Hall u Hu. apply Hlaunched in Hu.
  destruct (Z.le_gt_cases u (chunkStart cfg chunkIndex)) as [Hle|Hgt].
  - apply Hsettled. lia.
  - eapply forallb_settled; [exact Hall|]. apply Hprom. lia.
Qed.

Lemma none_pending_after_chunks cfg env s :
  0 < batchSize cfg -> reachable cfg env s -> chunks_over s = true -> none_pending s.
Proof.
  intros Hsize. revert s.
  apply (reachable_ind cfg env (fun s => chunks_over s = true -> none_pending s));
    [discriminate|].
  intros s s' Hs IH [l Hstep] Hover.
  pose proof (shape_reachable cfg env Hsize s Hs) as [_ Hshape].
  assert (reachable cfg env s') as Hs' by (eapply rtc_r; [exact Hs|exists l; exact Hstep]).
  pose proof (shape_reachable cfg env Hsize s' Hs') as [_ Hshape'].
  assert (dispatched cfg s' -> none_pending s') as Hdispatched.
  { intros (Hlaunched & Hsettled & _) u Hu. apply Hsettled, Hlaunched, Hu. }
  destruct l as [|u|u|u].
  - simpl in Hstep. unfold dispatcher_step, chunk_loop in Hstep. unfold chunks_over in *.
    destruct (pc s) as [|chunkIndex i promises| |message|] eqn:Hpc; [| | | |discriminate].
    + destruct Hshape as [Hempty _].
      assert (none_pending s) as Hnone
        by (intros u Hu; rewrite Hempty, lookup_empty in Hu; destruct Hu; discriminate).
      destruct (emit_uploadingFile env);
        [destruct (uploadAttachment env);
           [destruct (emit_fileUploaded env);
              [destruct (0 <? chunks cfg); [destruct (emit_chunkStarted env (0 + 1))|]|]|]|];
        injection Hstep as <-; reduce_state; try discriminate; exact Hnone.
    + destruct Hshape as (_ & _ & Hlaunched & Hsettled & Hprom & _). clear IH.
      destruct (i <? chunkSize cfg chunkIndex).
      { destruct (Z.of_nat (size (activeRequests s)) >=? maxConcurrent cfg);
          injection Hstep as <-; reduce_state; rewrite ?Hpc in Hover; discriminate. }
      destruct (forallb (settled s) promises) eqn:Hall; [|discriminate].
      pose proof (none_pending_at_allSettled cfg s chunkIndex i promises
                    Hlaunched Hsettled Hprom Hall) as Hnone.
      destruct (emit_chunkCompleted env (chunkIndex + 1));
        [destruct (chunkIndex + 1 <? chunks cfg);
           [destruct (emit_chunkStarted env (chunkIndex + 1 + 1))|]|];
        injection Hstep as <-; reduce_state; try discriminate; exact Hnone.
    + specialize (IH eq_refl).
      destruct (updateBatch_completed env); [destruct (emit_batchCompleted env)|];
        injection Hstep as <-; exact IH.
    + specialize (IH eq_refl).
      destruct (updateBatch_failed env); [destruct (emit_batchFailed env)|];
        injection Hstep as <-; exact IH.
  - destruct (step_frame cfg env (Task u) s s' ltac:(discriminate) Hstep) as (Hpc & _).
    unfold chunks_over in *. rewrite Hpc in Hover. simpl in Hstep.
    rewrite (settled_no_task_step cfg env s u (IH Hover)) in Hstep. discriminate.
  - destruct (step_frame cfg env (Finally u) s s' ltac:(discriminate) Hstep)
      as (Hpc & _ & _ & Hdom & Hset).
    unfold chunks_over in *. rewrite Hpc in Hover.
    intros u0 Hu0. apply Hset, (IH Hover), Hdom, Hu0.
  - destruct (step_frame cfg env (Poll u) s s' ltac:(discriminate) Hstep)
      as (Hpc & _ & _ & Hdom & Hset).
    unfold chunks_over in *. rewrite Hpc in Hover.
    intros u0 Hu0. apply Hset, (IH Hover), Hdom, Hu0.
Qed.

(** X23. No call of [_sendSingleFax] outlives the chunk loop. Once
    [_processBatch] has left the loop over the chunks, on whichever path (it
    awaits the update to ['completed'] or, in the [catch] block, the update
    to ['failed'], or it has returned and its [finally] block has dropped
    [this.currentBatch]), every call of [_sendSingleFax] that was started
    has settled and no creation call is in flight; from then on only the
    dispatcher, [finally] callbacks and monitors run, and the counters
    [processedCount] and [failedCount] do not change any more. *)
Theorem nothing_pending_after_the_chunks (cfg : settings) (env : environment) (s : state) :
  0 < batchSize cfg ->
  reachable cfg env s ->
  chunks_over s = true ->
  (forall u t, tasks s !! u = Some t -> exists success, t = Settled success) /\
  in_flight s = ∅ /\
  (forall l s', step_of cfg env l s = Some s' ->
     (l = Dispatch \/ exists u, l = Finally u \/ l = Poll u) /\
     tasks s' = tasks s /\
     processedCount s' = processedCount s /\ failedCount s' = failedCount s /\
     chunks_over s' = true).
Proof.
  intros Hsize Hs Hover.
  pose proof (none_pending_after_chunks cfg env s Hsize Hs Hover) as Hnone.
  assert (forall u t, tasks s !! u = Some t -> exists success, t = Settled success) as Hall.
  { intros u t Ht. destruct (settled_Some s u (Hnone u ltac:(eauto))) as [b Hb].
    exists b. congruence. }
  split; [exact Hall|]. split.
  { apply map_eq. intros u. rewrite lookup_empty. unfold in_flight.
    apply map_lookup_filter_None. destruct (tasks s !! u) as [t|] eqn:Ht; [right|left; reflexivity].
    intros t' [= <-] Heq. simpl in Heq. destruct (Hall u t Ht) as [b Hb]. congruence. }
  intros l s' Hstep. destruct l as [|u|u|u].
  - split; [left; reflexivity|].
    simpl in Hstep. unfold dispatcher_step in Hstep. unfold chunks_over in *.
    destruct (pc s) as [|chunkIndex i promises| |message|] eqn:Hpc; try discriminate.
    + destruct (updateBatch_completed env); [destruct (emit_batchCompleted env)|];
        injection Hstep as <-; reduce_state; auto.
    + destruct (updateBatch_failed env); [destruct (emit_batchFailed env)|];
        injection Hstep as <-; reduce_state; auto.
  - simpl in Hstep. rewrite (settled_no_task_step cfg env s u Hnone) in Hstep. discriminate.
  - split; [right; eauto|]. simpl in Hstep. unfold finally_step in Hstep.
    destruct (tasks s !! u) as [[| | |b]|]; try discriminate.
    destruct (decide (u ∈ activeRequests s)); [|discriminate].
    injection Hstep as <-. unfold chunks_over in *. reduce_state. auto.
  - split; [right; eauto|]. simpl in Hstep. unfold monitor_step in Hstep.
    destruct (monitors s !! u) as [m|]; [|discriminate].
    destruct (progress m) as [v|x]; [|discriminate].
    destruct (Monitor.loop_step Monitor.maxAttempts (started_at m) (polls env u) v) as [p upd].
    injection Hstep as <-. unfold chunks_over in *.
    destruct (reaches_emit _ _ _); reduce_state; auto.
Qed.

Lemma nothing_pending_after_the_chunks_witness :
  in_flight (state_after (batch_of 5 100) (backend_rejecting_completion [3])
               (batch_schedule [(1, 5)])) = ∅.
Proof.
  destruct (nothing_pending_after_the_chunks (batch_of 5 100) (backend_rejecting_completion [3])
              (state_after (batch_of 5 100) (backend_rejecting_completion [3])
                 (batch_schedule [(1, 5)])))
    as (_ & Hflight & _); [simpl; lia| |vm_compute; reflexivity|exact Hflight].
  apply (reachable_after _ _ (batch_schedule [(1, 5)])). vm_compute. reflexivity.
Defined.

Example update_rejected_after_the_chunks :
  let s := state_after (batch_of 5 100) (backend_rejecting_completion [3])
             (batch_schedule [(1, 5)]) in
  pc s = AwaitUpdateFailed "connection terminated" /\
  processedCount s = 4 /\ failedCount s = 1.
Proof. vm_compute. auto. Qed.

Section Reports.

Variable cfg : settings.
Variable env : environment.
Hypothesis batchSize_pos : 0 < batchSize cfg.

(** The counters when the calls of the units 1 to [m], and no others, were
    started and have settled. *)
Lemma counters_of_settled s m :
  reachable cfg env s -> launched_upto s m -> settled_upto s m ->
  processedCount s = count (counted_processed env) (seqZ 1 m) /\
  failedCount s = count (fun u => negb (try_resolves env u)) (seqZ 1 m).
Proof.
  intros Hs Hlaunched Hsettled.
  destruct (counting_reachable cfg env batchSize_pos s Hs) as (Hout & Hcounts & _).
  destruct (Hcounts (seqZ 1 m)) as [Hp Hf].
  { split; [apply NoDup_seqZ|]. intros u Hu. apply Hlaunched in Hu.
    apply elem_of_seqZ. lia. }
  assert (forall u, u ∈ (seqZ 1 m) ->
            processed_of env s u = (if counted_processed env u then 1 else 0) /\
            failed_of s u = (if negb (try_resolves env u) then 1 else 0)) as Hunit.
  { intros u Hu. apply elem_of_seqZ in Hu.
    destruct (settled_Some s u (Hsettled u ltac:(lia))) as [b Hb].
    destruct (Hout u) as [Hbu _]. rewrite Hb in Hbu.
    unfold processed_of, failed_of. rewrite Hb. split; [reflexivity|].
    rewrite <- Hbu. destruct b; reflexivity. }
  rewrite (sumZ_ext (fun u => if counted_processed env u then 1 else 0)) in Hp
    by (intros u Hu; apply Hunit, Hu).
  rewrite (sumZ_ext (fun u => if negb (try_resolves env u) then 1 else 0)) in Hf
    by (intros u Hu; apply Hunit, Hu).
  rewrite sumZ_count in Hp, Hf. auto.
Qed.

Lemma chunk_reports_reachable s :
  reachable cfg env s -> Forall (chunk_report cfg env) (emitted s).
Proof.
  revert s. apply reachable_ind.
  - cbn. repeat constructor.
  - intros s s' Hs IH [l Hstep].
    destruct l as [|u|u|u].
    + pose proof (shape_reachable cfg env batchSize_pos s Hs) as [_ Hshape].
      simpl in Hstep. unfold dispatcher_step, chunk_loop in Hstep.
      destruct (pc s) as [|chunkIndex i promises| |message|] eqn:Hpc; [| | | |discriminate].
      * clear Hshape.
        destruct (emit_uploadingFile env);
          [destruct (uploadAttachment env);
             [destruct (emit_fileUploaded env);
                [destruct (0 <? chunks cfg); [destruct (emit_chunkStarted env (0 + 1))|]|]|]|];
          injection Hstep as <-;
          reduce_state; repeat (constructor; [exact I|]); exact IH.
      * destruct Hshape as (Hk & Hi & Hlaunched & Hsettled & Hpromises & _).
        destruct (Z.ltb_spec i (chunkSize cfg chunkIndex)) as [Hlt|Hge].
        { destruct (Z.of_nat (size (activeRequests s)) >=? maxConcurrent cfg);
            injection Hstep as <-; reduce_state; exact IH. }
        destruct (forallb (settled s) promises) eqn:Hall; [|discriminate].
        assert (i = chunkSize cfg chunkIndex) as -> by lia.
        assert (chunkStart cfg chunkIndex + chunkSize cfg chunkIndex = chunkEnd cfg chunkIndex)
          as Hend by (unfold chunkSize; lia).
        rewrite Hend in *.
        assert (settled_upto s (chunkEnd cfg chunkIndex)) as Hsettled'.
        { intros u Hu. destruct (decide (u <= chunkStart cfg chunkIndex)) as [Hle|Hgt].
          - apply Hsettled. lia.
          - apply (forallb_settled s promises u Hall), Hpromises. lia. }
        destruct (counters_of_settled s (chunkEnd cfg chunkIndex) Hs Hlaunched Hsettled')
          as [Hp Hf].
        assert (chunk_report cfg env
                  (chunkCompleted (chunkIndex + 1) (chunks cfg) (processedCount s)
                     (failedCount s))) as Hreport.
        { cbn [chunk_report]. replace (chunkIndex + 1 - 1) with chunkIndex by lia.
          split; [lia|]. split; [reflexivity|]. split; assumption. }
        destruct (emit_chunkCompleted env (chunkIndex + 1));
          [destruct (chunkIndex + 1 <? chunks cfg);
             [destruct (emit_chunkStarted env (chunkIndex + 1 + 1))|]|];
          injection Hstep as <-; reduce_state;
          repeat (constructor; [first [exact Hreport|exact I]|]); exact IH.
      * clear Hshape.
        destruct (updateBatch_completed env); [destruct (emit_batchCompleted env)|];
          injection Hstep as <-;
          reduce_state; repeat (constructor; [exact I|]); exact IH.
      * clear Hshape.
        destruct (updateBatch_failed env); [destruct (emit_batchFailed env)|];
          injection Hstep as <-;
          reduce_state; repeat (constructor; [exact I|]); exact IH.
    + hide_goal s'. step_cases Hstep; subst Target; cbv beta; reduce_state;
        repeat (constructor; [exact I|]); exact IH.
    + hide_goal s'. step_cases Hstep; subst Target; cbv beta; reduce_state; exact IH.
    + simpl in Hstep. unfold monitor_step in Hstep.
      destruct (monitors s !! u) as [m|]; [|discriminate].
      destruct (progress m) as [v|x]; [|discriminate].
      destruct (Monitor.loop_step Monitor.maxAttempts (started_at m) (polls env u) v) as [p upd].
      injection Hstep as <-.
      destruct (reaches_emit _ _ _); reduce_state;
        repeat (constructor; [exact I|]); exact IH.
Qed.

End Reports.

(** X24. The progress a [chunkCompleted] event reports. Every
    [chunkCompleted] event of a batch carries a chunk number [k] between 1
    and the number of chunks, that number of chunks, and the counters of the
    units 1 to [min(k * batchSize, totalCount)], those of the chunks up to
    [k] and no others: [processedCount] is the number of these units whose
    creation call and insert resolved, [failedCount] the number of those one
    of whose three calls threw; together they are at least the number of
    these units. *)
Theorem chunk_reports (cfg : settings) (env : environment) (s : state)
    (chunkIndex totalChunks processed failed : Z) :
  0 < batchSize cfg ->
  reachable cfg env s ->
  chunkCompleted chunkIndex totalChunks processed failed ∈ emitted s ->
  let units := seqZ 1 (Z.min (chunkIndex * batchSize cfg) (totalCount cfg)) in
  1 <= chunkIndex <= chunks cfg /\
  totalChunks = chunks cfg /\
  processed = count (counted_processed env) units /\
  failed = count (fun u => negb (try_resolves env u)) units /\
  Z.of_nat (length units) <= processed + failed.
Proof.
  intros Hsize Hs Hin units.
  pose proof (chunk_reports_reachable cfg env Hsize s Hs) as Hall.
  rewrite Forall_forall in Hall. specialize (Hall _ Hin). cbn [chunk_report] in Hall.
  destruct Hall as (Hk & Htotal & Hp & Hf).
  assert (chunkEnd cfg (chunkIndex - 1) = Z.min (chunkIndex * batchSize cfg) (totalCount cfg))
    as Hend by (unfold chunkEnd, chunkStart; f_equal; lia).
  rewrite Hend in Hp, Hf. fold units in Hp, Hf.
  split; [exact Hk|]. split; [exact Htotal|]. split; [exact Hp|]. split; [exact Hf|].
  rewrite Hp, Hf. unfold count, try_resolves. clear.
  induction units as [|x l IH]; simpl; [lia|].
  destruct (counted_processed env x), (resolves (emit_faxSubmitted env x)); simpl; lia.
Qed.

Lemma chunk_reports_witness :
  let units := seqZ 1 (Z.min (1 * batchSize (batch_of 5 100)) (totalCount (batch_of 5 100))) in
  1 <= 1 <= chunks (batch_of 5 100) /\
  1 = chunks (batch_of 5 100) /\
  4 = count (counted_processed (backend [3])) units /\
  1 = count (fun u => negb (try_resolves (backend [3]) u)) units /\
  Z.of_nat (length units) <= 4 + 1.
Proof.
  apply (chunk_reports (batch_of 5 100) (backend [3])
           (state_after (batch_of 5 100) (backend [3]) (batch_schedule [(1, 5)])) 1 1 4 1).
  - simpl. lia.
  - apply (reachable_after _ _ (batch_schedule [(1, 5)])). vm_compute. reflexivity.
  - apply list_elem_of_In. vm_compute. right. left. reflexivity.
Defined.

End DispatcherFacts.

(** * Properties of starting a batch *)

Module StartFacts.

Import Dispatcher Start.
Local Open Scope string_scope.
Local Open Scope Z_scope.

(** The renderer's form turns down a count outside 1..100000 before it
    invokes ['start-batch']. *)
Lemma form_rejects_count_out_of_range (w : world) (rows : list Db.batch) (c : batchConfig) :
  filePath c <> "" ->
  cfg_totalCount c < 1 \/ 100000 < cfg_totalCount c ->
  handleBatchSubmit w rows c = Alert "Total count must be between 1 and 100,000".
Proof.
  intros Hfile Hcount. unfold handleBatchSubmit.
  destruct (String.eqb_spec (filePath c) "") as [Heq|_]; [contradiction|].
  destruct (Z.ltb_spec (cfg_totalCount c) 1), (Z.gtb_spec (cfg_totalCount c) 100000);
    simpl; try reflexivity; lia.
Qed.

(** [startBatch] reads the count only to store it: with a backend and a
    database that answer, it creates the row whatever the count is. *)
Lemma startBatch_checks_no_count (w : world) (rows : list Db.batch) (c : batchConfig)
    (size batchId : Z) :
  isLoggedIn w = true ->
  statSync w (filePath c) = Resolves size ->
  createBatch w = Resolves batchId ->
  updateBatch_processing w = Resolves tt ->
  emit_batchStarted w = Resolves tt ->
  result (startBatch w rows c) = Resolves batchId /\
  dispatching (startBatch w rows c) = true /\
  exists rows', fax_batches (startBatch w rows c)
                = Start.set_status (Db.createBatch batchId (cfg_totalCount c)) "processing"
                  :: rows'.
Proof.
  intros Hlogin Hstat Hcreate Hupdate Hemit. unfold startBatch.
  rewrite Hlogin, Hstat, Hcreate, Hupdate, Hemit. simpl.
  split; [reflexivity|]. split; [reflexivity|].
  rewrite Z.eqb_refl. eauto.
Qed.

(** C4, evaluated. A request to [POST /api/batch/start] with count 0, and one
    with count 100001, is not rejected: the Batch row is created and set to
    ['processing'] and the dispatch is started; with count 0 the batch then
    runs to ['completed'] without a unit. *)
Theorem route_accepts_count_out_of_range :
  (let r := api_batch_start ready_world [] (request 0) in
   result r = Resolves 1 /\ dispatching r = true /\
   fax_batches r = [{| Db.id := 1; Db.total_faxes := 0; Db.completed_faxes := 0;
                       Db.failed_faxes := 0; Db.batch_status := "processing" |}]) /\
  (let r := api_batch_start ready_world [] (request 100001) in
   result r = Resolves 1 /\ dispatching r = true /\
   fax_batches r = [{| Db.id := 1; Db.total_faxes := 100001; Db.completed_faxes := 0;
                       Db.failed_faxes := 0; Db.batch_status := "processing" |}]) /\
  (let cfg := settings_of 10 100 1 (request 0) in
   let s := state_after cfg (backend []) [Dispatch; Dispatch] in
   reachable cfg (backend []) s /\
   Db.batch_status (batch s) = "completed" /\ fax_submissions s = []).
Proof.
  split; [|split].
  - vm_compute. repeat split.
  - vm_compute. repeat split.
  - split; [|split].
    + apply (DispatcherFacts.reachable_after _ _ [Dispatch; Dispatch]). vm_compute. reflexivity.
    + vm_compute. reflexivity.
    + vm_compute. reflexivity.
Qed.

(** X12. When [startBatch] throws, [_processBatch] is not called. The
    table of batches is then as before and no event was emitted, unless the
    error is that of the update to ['processing'], when the row created just
    before is left behind in status ['pending'] and no event was emitted, or
    that of a listener of [batchStarted], when the event was emitted and the
    row is left behind in status ['processing']. *)
Theorem startBatch_rejection (w : world) (rows : list Db.batch) (c : batchConfig)
    (message : string) :
  result (startBatch w rows c) = Throws message ->
  dispatching (startBatch w rows c) = false /\
  (fax_batches (startBatch w rows c) = rows /\ events (startBatch w rows c) = [] \/
   exists batchId,
     createBatch w = Resolves batchId /\
     (updateBatch_processing w = Throws message /\
      events (startBatch w rows c) = [] /\
      fax_batches (startBatch w rows c)
      = Db.createBatch batchId (cfg_totalCount c) :: rows \/
      updateBatch_processing w = Resolves tt /\
      emit_batchStarted w = Throws message /\
      events (startBatch w rows c) = [batchStarted batchId (cfg_totalCount c)] /\
      fax_batches (startBatch w rows c)
      = updateBatch_status batchId "processing"
          (Db.createBatch batchId (cfg_totalCount c) :: rows))).
Proof.
  unfold startBatch.
  destruct (if isLoggedIn w then Resolves tt else login w) as [[]|m1]; simpl; [|auto].
  destruct (statSync w (filePath c)) as [size|m2]; simpl; [|auto].
  destruct (createBatch w) as [batchId|m3]; simpl; [|auto].
  destruct (updateBatch_processing w) as [[]|m4]; simpl.
  - destruct (emit_batchStarted w) as [[]|m5]; simpl; [discriminate|].
    intros [= ->]. split; [reflexivity|]. right. exists batchId.
    split; [reflexivity|]. right. auto.
  - intros [= ->]. split; [reflexivity|]. right. exists batchId.
    split; [reflexivity|]. left. auto.
Qed.

Lemma startBatch_rejection_witness :
  dispatching (startBatch world_with_throwing_listener [] (request 10)) = false /\
  (fax_batches (startBatch world_with_throwing_listener [] (request 10)) = [] /\
   events (startBatch world_with_throwing_listener [] (request 10)) = [] \/
   exists batchId,
     createBatch world_with_throwing_listener = Resolves batchId /\
     (updateBatch_processing world_with_throwing_listener = Throws "listener failed" /\
      events (startBatch world_with_throwing_listener [] (request 10)) = [] /\
      fax_batches (startBatch world_with_throwing_listener [] (request 10))
      = Db.createBatch batchId (cfg_totalCount (request 10)) :: [] \/
      updateBatch_processing world_with_throwing_listener = Resolves tt /\
      emit_batchStarted world_with_throwing_listener = Throws "listener failed" /\
      events (startBatch world_with_throwing_listener [] (request 10))
      = [batchStarted batchId (cfg_totalCount (request 10))] /\
      fax_batches (startBatch world_with_throwing_listener [] (request 10))
      = updateBatch_status batchId "processing"
          (Db.createBatch batchId (cfg_totalCount (request 10)) :: []))).
Proof.
  apply (startBatch_rejection world_with_throwing_listener [] (request 10) "listener failed").
  reflexivity.
Defined.

(** The row of a batch whose [batchStarted] listener threw stays
    ['processing'], and so does a row whose update was rejected stay
    ['pending']. *)
Example rows_left_behind :
  Db.batch_status <$> fax_batches (startBatch world_with_throwing_listener [] (request 10))
  = ["processing"] /\
  Db.batch_status <$> fax_batches (startBatch world_rejecting_update [] (request 10))
  = ["pending"].
Proof. split; reflexivity. Qed.

End StartFacts.

(** * Properties of the metric buckets *)

Module MetricsFacts.

Import Metrics.
Local Open Scope Z_scope.

Lemma plus_comm a b : plus a b = plus b a.
Proof. destruct a, b; simpl; f_equal; lia. Qed.

Lemma plus_assoc a b c : plus (plus a b) c = plus a (plus b c).
Proof. destruct a, b, c; simpl; f_equal; lia. Qed.

Lemma GREATEST_comm a b : GREATEST a b = GREATEST b a.
Proof. destruct a, b; simpl; f_equal; lia. Qed.

Lemma GREATEST_assoc a b c : GREATEST (GREATEST a b) c = GREATEST a (GREATEST b c).
Proof. destruct a, b, c; simpl; f_equal; lia. Qed.

Lemma counters_do_update row excluded :
  counters_of (do_update row excluded) = add_counters (counters_of row) (counters_of excluded).
Proof. reflexivity. Qed.

Lemma add_counters_comm x y : add_counters x y = add_counters y x.
Proof.
  unfold add_counters. f_equal; first [apply plus_comm | apply GREATEST_comm].
Qed.

Lemma add_counters_assoc x y z :
  add_counters (add_counters x y) z = add_counters x (add_counters y z).
Proof.
  unfold add_counters; simpl. f_equal; first [apply plus_assoc | apply GREATEST_assoc].
Qed.

Lemma same_counters_refl t : same_counters t t.
Proof. intros key. reflexivity. Qed.

Lemma same_counters_trans t1 t2 t3 :
  same_counters t1 t2 -> same_counters t2 t3 -> same_counters t1 t3.
Proof. intros H12 H23 key. rewrite H12. apply H23. Qed.

Lemma upsert_lookup m t key :
  counters_of <$> (upsert m t !! key) =
  if decide ((date m, hour m) = key) then
    Some (match counters_of <$> (t !! key) with
          | Some c => add_counters c (counters_of (vals m))
          | None => counters_of (vals m)
          end)
  else counters_of <$> (t !! key).
Proof.
  unfold upsert.
  destruct (decide ((date m, hour m) = key)) as [<-|Hne].
  - destruct (t !! (date m, hour m)) as [row|]; rewrite lookup_insert_eq; reflexivity.
  - destruct (t !! (date m, hour m)) as [row|]; rewrite lookup_insert_ne by exact Hne;
      reflexivity.
Qed.

Lemma upsert_proper m t1 t2 :
  same_counters t1 t2 -> same_counters (upsert m t1) (upsert m t2).
Proof.
  intros H key. rewrite !upsert_lookup, (H key). reflexivity.
Qed.

Lemma upsert_swap a b t :
  same_counters (upsert a (upsert b t)) (upsert b (upsert a t)).
Proof.
  intros key. rewrite !upsert_lookup.
  destruct (decide ((date a, hour a) = key)), (decide ((date b, hour b) = key));
    try reflexivity.
  f_equal. destruct (counters_of <$> (t !! key)) as [c|].
  - rewrite !add_counters_assoc. f_equal. apply add_counters_comm.
  - apply add_counters_comm.
Qed.

Lemma upsert_all_proper l : forall t1 t2,
  same_counters t1 t2 ->
  same_counters (foldl (fun t m => upsert m t) t1 l) (foldl (fun t m => upsert m t) t2 l).
Proof.
  induction l as [|m l IH]; intros t1 t2 H; simpl; [exact H|].
  apply IH, upsert_proper, H.
Qed.

Lemma upsert_all_permutation l1 l2 :
  Permutation l1 l2 -> forall t1 t2,
  same_counters t1 t2 ->
  same_counters (foldl (fun t m => upsert m t) t1 l1) (foldl (fun t m => upsert m t) t2 l2).
Proof.
  induction 1 as [|m l1 l2 _ IH|a b l|l1 l2 l3 _ IH1 _ IH2]; intros t1 t2 H; simpl.
  - exact H.
  - apply IH, upsert_proper, H.
  - apply upsert_all_proper.
    eapply same_counters_trans; [apply upsert_swap|].
    apply upsert_proper, upsert_proper, H.
  - eapply same_counters_trans; [apply IH1, same_counters_refl|]. apply IH2, H.
Qed.

(** A run in which every call is accepted leaves what the statements write. *)
Lemma merge_all_accepted l : forall t,
  all_accepted l t = true -> merge_all l t = foldl (fun t m => upsert m t) t l.
Proof.
  induction l as [|m l IH]; intros t Hall; [reflexivity|].
  cbn [all_accepted] in Hall. apply andb_true_iff in Hall as [Hm Hl].
  unfold merge_all. cbn [foldl]. unfold updateMetrics. rewrite Hm. cbn [default].
  apply IH, Hl.
Qed.

(** A call that is rejected leaves the table as it was. *)
Lemma merge_all_rejected m l t :
  accepts m t = false -> merge_all (m :: l) t = merge_all l t.
Proof.
  intros Hm. unfold merge_all. cbn [foldl]. unfold updateMetrics. rewrite Hm. reflexivity.
Qed.

(** The claim C9 as it is stated fails on the table: its columns are 32-bit
    integers. Two records for one bucket, merged in the two orders: the
    second statement overflows [total_submitted] and is rejected, and the
    bucket keeps the count of whichever record came first. *)
Lemma merge_order_matters_at_overflow :
  Permutation [record 19700 9 2147483647 5000; record 19700 9 1 5000]
              [record 19700 9 1 5000; record 19700 9 2147483647 5000] /\
  total_submitted <$>
    (merge_all [record 19700 9 2147483647 5000; record 19700 9 1 5000] ∅ !! (19700, 9))
  = Some (Some 2147483647) /\
  total_submitted <$>
    (merge_all [record 19700 9 1 5000; record 19700 9 2147483647 5000] ∅ !! (19700, 9))
  = Some (Some 1) /\
  counters_of <$>
    (merge_all [record 19700 9 2147483647 5000; record 19700 9 1 5000] ∅ !! (19700, 9))
  <> counters_of <$>
    (merge_all [record 19700 9 1 5000; record 19700 9 2147483647 5000] ∅ !! (19700, 9)).
Proof.
  split; [apply perm_swap|]. split; [vm_compute; reflexivity|].
  split; [vm_compute; reflexivity|]. vm_compute. discriminate.
Qed.

(** C9, as the code has it. Merging metric records is order-independent for
    the count fields and the maximum fields as long as the database accepts
    every merge: two sequences of records that are permutations of each
    other, merged into the same table with no statement rejected for leaving
    the range of INTEGER, leave in every [(date, hour)] bucket the same
    total_submitted, total_succeeded, total_failed, total_cancelled,
    total_pages, total_batches, max_conversion_time and
    max_transmission_time. *)
Theorem merge_order_independent (t : gmap (Z * Z) values) (l1 l2 : list metrics)
    (bucket : Z * Z) :
  Permutation l1 l2 ->
  all_accepted l1 t = true ->
  all_accepted l2 t = true ->
  counters_of <$> (merge_all l1 t !! bucket) = counters_of <$> (merge_all l2 t !! bucket).
Proof.
  intros Hperm H1 H2. rewrite (merge_all_accepted l1 t H1), (merge_all_accepted l2 t H2).
  apply (upsert_all_permutation l1 l2 Hperm t t (same_counters_refl t)).
Qed.

Lemma merge_order_independent_witness :
  counters_of <$> (merge_all [record 19700 9 3 5000; record 19700 9 4 10000;
                              record 19700 10 1 5000] ∅ !! (19700, 9)) =
  counters_of <$> (merge_all [record 19700 10 1 5000; record 19700 9 4 10000;
                              record 19700 9 3 5000] ∅ !! (19700, 9)).
Proof.
  apply merge_order_independent.
  - eapply perm_trans; [apply perm_swap|].
    eapply perm_trans; [apply perm_skip, perm_swap|].
    apply perm_swap.
  - vm_compute. reflexivity.
  - vm_compute. reflexivity.
Defined.

(** The running averages do depend on the order of arrival. *)
Example average_depends_on_order :
  avg_conversion_time <$>
    (merge_all [record 19700 9 1 1000; record 19700 9 1 2000; record 19700 9 1 4000] ∅
       !! (19700, 9)) = Some (Some 2750) /\
  avg_conversion_time <$>
    (merge_all [record 19700 9 1 4000; record 19700 9 1 2000; record 19700 9 1 1000] ∅
       !! (19700, 9)) = Some (Some 2000).
Proof. split; vm_compute; reflexivity. Qed.

End MetricsFacts.

(** * Properties of the string functions *)

Module JsStringFacts.

Import JsString.
Local Open Scope string_scope.
Local Open Scope list_scope.

Lemma append_cons (x : ascii) (a b : string) :
  (String x a ++ b)%string = String x (a ++ b)%string.
Proof. reflexivity. Qed.

Lemma append_assoc (a b c : string) : ((a ++ b) ++ c = a ++ b ++ c)%string.
Proof. induction a as [|x a IH]; [reflexivity|]. rewrite !append_cons, IH. reflexivity. Qed.

Lemma append_empty_r (a : string) : (a ++ EmptyString)%string = a.
Proof. induction a as [|x a IH]; [reflexivity|]. rewrite append_cons, IH. reflexivity. Qed.

Lemma trimStart_fixed s :
  match s with String c _ => is_space c = false | EmptyString => True end ->
  trimStart s = s.
Proof. destruct s as [|c s]; simpl; [reflexivity|]. intros ->. reflexivity. Qed.

Lemma trimStart_head s :
  match trimStart s with String c _ => is_space c = false | EmptyString => True end.
Proof.
  induction s as [|c s IH]; simpl; [exact I|].
  destruct (is_space c) eqn:Hc; [exact IH|exact Hc].
Qed.

Lemma trimEnd_head s :
  match s with String c _ => is_space c = false | EmptyString => True end ->
  match trimEnd s with String c _ => is_space c = false | EmptyString => True end.
Proof.
  destruct s as [|c s]; simpl; [auto|]. intros Hc.
  destruct (trimEnd s); [rewrite Hc|]; exact Hc.
Qed.

Lemma trimEnd_idem s : trimEnd (trimEnd s) = trimEnd s.
Proof.
  induction s as [|c s IH]; simpl; [reflexivity|].
  destruct (trimEnd s) as [|d t] eqn:Ht.
  - destruct (is_space c) eqn:Hc; simpl; [reflexivity|]. rewrite Hc. reflexivity.
  - simpl in *. rewrite IH. reflexivity.
Qed.

Lemma trim_idem s : trim (trim s) = trim s.
Proof.
  unfold trim.
  rewrite (trimStart_fixed (trimEnd (trimStart s))).
  - apply trimEnd_idem.
  - apply trimEnd_head, trimStart_head.
Qed.

Lemma prefix_cons a p c s :
  String.prefix (String a p) (String c s) = if ascii_dec a c then String.prefix p s else false.
Proof. reflexivity. Qed.

Lemma includes_cons needle c s :
  includes needle (String c s) = String.prefix needle (String c s) || includes needle s.
Proof. reflexivity. Qed.

Lemma before_semicolon_cons c s :
  before_semicolon (String c s)
  = if Ascii.eqb c ";"%char then EmptyString else String c (before_semicolon s).
Proof. reflexivity. Qed.

Lemma before_semicolon_clean s : includes ";" (before_semicolon s) = false.
Proof.
  induction s as [|c s IH]; [reflexivity|]. rewrite before_semicolon_cons.
  destruct (Ascii.eqb_spec c ";"%char) as [->|Hne]; [reflexivity|].
  rewrite includes_cons, IH, prefix_cons.
  destruct (ascii_dec ";" c) as [Heq|_]; [congruence|reflexivity].
Qed.

Lemma before_semicolon_prefix p : forall s,
  String.prefix p s = true -> includes ";" p = false ->
  String.prefix p (before_semicolon s) = true.
Proof.
  induction p as [|a p IH]; intros s Hp Hclean; [destruct (before_semicolon s); reflexivity|].
  destruct s as [|c s]; [discriminate|]. rewrite prefix_cons in Hp.
  destruct (ascii_dec a c) as [->|]; [|discriminate].
  rewrite includes_cons, prefix_cons in Hclean.
  apply orb_false_iff in Hclean as [Hhead Htail].
  rewrite before_semicolon_cons. destruct (Ascii.eqb_spec c ";"%char) as [->|Hne].
  - destruct (ascii_dec ";" ";"); [|congruence]. destruct p; discriminate.
  - rewrite prefix_cons. destruct (ascii_dec c c); [|congruence]. apply IH; assumption.
Qed.

Lemma before_semicolon_rest s :
  exists rest, s = (before_semicolon s ++ rest)%string /\
               (rest = EmptyString \/ String.prefix ";" rest = true).
Proof.
  induction s as [|c s (rest & Hs & Hrest)]; [exists EmptyString; auto|].
  rewrite before_semicolon_cons.
  destruct (Ascii.eqb_spec c ";"%char) as [->|Hne].
  - exists (String ";" s). split; [reflexivity|]. right. destruct s; reflexivity.
  - exists rest. split; [|exact Hrest]. change (String c s = String c (before_semicolon s ++ rest)).
    rewrite <- Hs. reflexivity.
Qed.

Lemma prefix_append p m : String.prefix p (p ++ m)%string = true.
Proof.
  induction p as [|a p IH]; [destruct m; reflexivity|].
  change (String a p ++ m)%string with (String a (p ++ m)%string).
  rewrite prefix_cons. destruct (ascii_dec a a); [exact IH|congruence].
Qed.

End JsStringFacts.

(** * Properties of the schema's statements *)

Module SchemaFacts.

Import JsString Schema JsStringFacts.
Local Open Scope string_scope.
Local Open Scope list_scope.

Lemma push_trimmed_Forall (P : string -> Prop) l s :
  Forall P l -> (trim s <> EmptyString -> P (trim s)) -> Forall P (push_trimmed l s).
Proof.
  intros Hl Hs. unfold push_trimmed.
  destruct (trim s) as [|c t] eqn:Ht; simpl; [exact Hl|].
  apply Forall_app. split; [exact Hl|]. apply Forall_singleton. apply Hs. discriminate.
Qed.

Lemma loop_Forall (P : string -> Prop) :
  (forall s, trim s <> EmptyString -> P (trim s)) ->
  forall lines st, Forall P (statements st) -> Forall P (statements (foldl loop_line st lines)).
Proof.
  intros HP lines. induction lines as [|line lines IH]; intros st Hst; simpl; [exact Hst|].
  apply IH. unfold loop_line.
  destruct (comment_only line); [exact Hst|].
  destruct (includes ";" line && _); simpl; [|exact Hst].
  apply push_trimmed_Forall; [exact Hst|apply HP].
Qed.

(** X15. Every statement [initializeDatabase] splits off the schema is
    non-empty and has no white space at either end, so the guard
    [if (statement)] of the loop that runs them skips none. *)
Theorem statements_nonempty_trimmed (schema : string) :
  Forall (fun statement => statement <> EmptyString /\ trim statement = statement)
         (split_statements schema) /\
  executed schema = split_statements schema.
Proof.
  assert (Forall (fun statement => statement <> EmptyString /\ trim statement = statement)
                 (split_statements schema)) as Hall.
  { unfold split_statements.
    assert (forall s, trim s <> EmptyString ->
                      trim s <> EmptyString /\ trim (trim s) = trim s) as HP
      by (intros s Hs; split; [exact Hs|apply trim_idem]).
    apply push_trimmed_Forall; [|apply HP].
    apply loop_Forall; [exact HP|apply Forall_nil_2]. }
  split; [exact Hall|].
  unfold executed. induction Hall as [|s l [Hs _] _ IH]; simpl; [reflexivity|].
  destruct (String.eqb_spec s EmptyString) as [->|_]; [contradiction|]. simpl.
  rewrite IH. reflexivity.
Qed.

Lemma joined_app g h : joined (g ++ h) = (joined g ++ joined h)%string.
Proof.
  induction g as [|l g IH]; simpl; [reflexivity|].
  rewrite IH, !append_assoc. reflexivity.
Qed.

Lemma joined_snoc g l : joined (g ++ [l]) = (joined g ++ l ++ newline)%string.
Proof.
  rewrite joined_app. simpl. rewrite append_empty_r. reflexivity.
Qed.

Lemma dollar_lines_snoc g l :
  dollar_lines (g ++ [l]) = (dollar_lines g + (if includes "$$" l then 1 else 0))%nat.
Proof.
  unfold dollar_lines. rewrite List.filter_app, length_app. simpl.
  destruct (includes "$$" l); reflexivity.
Qed.

Lemma push_trimmed_filter (groups : list (list string)) (cur : list string) :
  push_trimmed
    (List.filter (fun s => (0 <? String.length s)%nat)
                 (map (fun g => trim (joined g)) groups)) (joined cur)
  = List.filter (fun s => (0 <? String.length s)%nat)
                (map (fun g => trim (joined g)) (groups ++ [cur])).
Proof.
  unfold push_trimmed. rewrite map_app, List.filter_app. simpl.
  destruct (0 <? String.length (trim (joined cur)))%nat; [reflexivity|].
  rewrite app_nil_r. reflexivity.
Qed.

Lemma snoc_split {A} (cur p q : list A) (l l' : A) :
  cur ++ [l] = p ++ l' :: q ->
  (q = [] /\ p = cur /\ l' = l) \/ (exists q', q = q' ++ [l] /\ cur = p ++ l' :: q').
Proof.
  intros H. destruct (exists_last (l := l' :: q)) as (body & x & Hlast); [discriminate|].
  destruct q as [|y q].
  - left. change (p ++ [l']) with (p ++ [l']) in H.
    apply app_inj_tail in H as [-> ->]. auto.
  - right. destruct (exists_last (l := y :: q)) as (q' & x' & Hq); [discriminate|].
    rewrite Hq in H. change (p ++ l' :: q' ++ [x']) with (p ++ (l' :: q') ++ [x']) in H.
    rewrite app_assoc in H. apply app_inj_tail in H as [-> ->].
    exists q'. split; [exact Hq|reflexivity].
Qed.

Lemma splits_line lines st line :
  splits lines st -> splits (lines ++ [line]) (loop_line st line).
Proof.
  intros (groups & cur & Hcat & Hst & Hcur & Hin & Hclosed & Hopen).
  unfold splits, loop_line. rewrite List.filter_app.
  cbn [List.filter].
  destruct (comment_only line) eqn:Hcomment; cbn [negb].
  { exists groups, cur. rewrite app_nil_r. repeat split; assumption. }
  assert ((if includes "$$" line then negb (inDollarQuote st) else inDollarQuote st)
          = Nat.odd (dollar_lines (cur ++ [line]))) as Hin'.
  { rewrite dollar_lines_snoc, Hin. destruct (includes "$$" line).
    - rewrite Nat.add_1_r, Nat.odd_succ, <- Nat.negb_odd. reflexivity.
    - rewrite Nat.add_0_r. reflexivity. }
  rewrite Hin'.
  destruct (includes ";" line) eqn:Hsemi; simpl.
  - destruct (Nat.odd (dollar_lines (cur ++ [line]))) eqn:Hodd; simpl.
    + (* inside a dollar-quoted body *)
      exists groups, (cur ++ [line]). rewrite app_assoc, Hcat.
      split; [reflexivity|]. split; [exact Hst|].
      split; [rewrite Hcur, joined_snoc; reflexivity|].
      split; [cbn; congruence|]. split; [exact Hclosed|].
      intros p l q Hsplit _ Hl.
      destruct (snoc_split _ _ _ _ _ Hsplit) as [(-> & -> & ->)|(q' & -> & ->)].
      * rewrite <- Nat.negb_odd, Hodd. reflexivity.
      * apply (Hopen p l q' eq_refl); [discriminate|exact Hl].
    + (* the statement ends *)
      exists (groups ++ [cur ++ [line]]), [].
      rewrite concat_app. simpl. rewrite !app_nil_r, app_assoc, Hcat.
      split; [reflexivity|]. split.
      { rewrite Hst, Hcur, <- joined_snoc. apply push_trimmed_filter. }
      split; [reflexivity|]. split; [reflexivity|]. split.
      * apply Forall_app. split; [exact Hclosed|]. apply Forall_singleton.
        split; [exists cur, line; auto|]. split.
        -- rewrite <- Nat.negb_odd, Hodd. reflexivity.
        -- intros p l q Hsplit Hq Hl.
           destruct (snoc_split _ _ _ _ _ Hsplit) as [(-> & -> & ->)|(q' & -> & ->)].
           ++ exfalso. apply (Hq eq_refl). reflexivity.
           ++ apply (Hopen p l q' eq_refl); [discriminate|exact Hl].
      * intros p l q Hsplit. destruct p; discriminate Hsplit.
  - exists groups, (cur ++ [line]). rewrite app_assoc, Hcat.
    split; [reflexivity|]. split; [exact Hst|].
    split; [rewrite Hcur, joined_snoc; reflexivity|].
    split; [reflexivity|]. split; [exact Hclosed|].
    intros p l q Hsplit _ Hl.
    destruct (snoc_split _ _ _ _ _ Hsplit) as [(-> & -> & ->)|(q' & -> & ->)].
    * congruence.
    * apply (Hopen p l q' eq_refl); [discriminate|exact Hl].
Qed.

Lemma splits_loop lines : forall done st,
  splits done st -> splits (done ++ lines) (foldl loop_line st lines).
Proof.
  induction lines as [|line lines IH]; intros done st H; simpl.
  - rewrite app_nil_r. exact H.
  - replace (done ++ line :: lines) with ((done ++ [line]) ++ lines)
      by (rewrite <- app_assoc; reflexivity).
    apply IH, splits_line, H.
Qed.

(** X16. The statements are cut out of the schema's lines without its
    comment-only lines, in their order and with nothing else left out: the
    lines fall into consecutive groups, each statement is the trimmed text of
    a group, and the groups with blank text give no statement. Every group
    but the last ends in a line that holds a semicolon and has an even number
    of lines with [$$]; and a line that holds a semicolon without ending its
    group comes after an odd number of lines with [$$] in the group, itself
    included: a semicolon inside a dollar-quoted body does not end the
    statement. *)
Theorem statements_end_outside_dollar_quotes (schema : string) :
  exists (groups : list (list string)) (rest : list string),
    concat groups ++ rest
    = List.filter (fun line => negb (comment_only line)) (split_lines schema) /\
    split_statements schema
    = List.filter (fun s => (0 <? String.length s)%nat)
                  (map (fun group => trim (joined group)) (groups ++ [rest])) /\
    Forall (fun group =>
              (exists body line, group = body ++ [line] /\ includes ";" line = true) /\
              Nat.even (dollar_lines group) = true) groups /\
    (forall group before line after,
       group ∈ groups ++ [rest] -> group = before ++ line :: after ->
       (after = [] -> group = rest) ->
       includes ";" line = true ->
       Nat.even (dollar_lines (before ++ [line])) = false).
Proof.
  destruct (splits_loop (split_lines schema) []
              {| statements := []; currentStatement := EmptyString; inDollarQuote := false |})
    as (groups & cur & Hcat & Hst & Hcur & Hin & Hclosed & Hopen).
  { exists [], []. repeat split; try reflexivity; [apply Forall_nil_2|].
    intros p l q Hsplit. destruct p; discriminate Hsplit. }
  simpl in Hcat.
  exists groups, cur. split; [exact Hcat|]. split.
  { unfold split_statements. rewrite Hst, Hcur. apply push_trimmed_filter. }
  split.
  { eapply Forall_impl; [exact Hclosed|]. intros g (Hlast & Heven & _). auto. }
  intros g p l q Hg Hsplit Hlast Hl.
  apply elem_of_app in Hg as [Hg|Hg].
  - rewrite Forall_forall in Hclosed. destruct (Hclosed g Hg) as (_ & _ & Hinside).
    destruct q as [|y q].
    + specialize (Hlast eq_refl). subst g.
      apply (Hopen p l [] (eq_sym Hlast)); [discriminate|exact Hl].
    + apply (Hinside p l (y :: q) Hsplit); [discriminate|exact Hl].
  - apply list_elem_of_singleton in Hg. subst g.
    apply (Hopen p l q Hsplit); [discriminate|exact Hl].
Qed.

(** The trigger function of the schema, whose body holds three semicolons,
    is one statement, and the comment line before it is dropped. *)
Example trigger_function_is_one_statement :
  split_statements trigger_function =
  [("CREATE OR REPLACE FUNCTION update_updated_at_column()" ++ newline ++
    "RETURNS TRIGGER AS $$" ++ newline ++
    "BEGIN" ++ newline ++
    "    NEW.updated_at = CURRENT_TIMESTAMP;" ++ newline ++
    "    RETURN NEW;" ++ newline ++
    "END;" ++ newline ++
    "$$ LANGUAGE plpgsql;")%string;
   "CREATE INDEX idx_fax_metrics_date ON fax_metrics(date);"].
Proof. vm_compute. reflexivity. Qed.

End SchemaFacts.

Module InitializeFacts.
Import Dispatcher Schema Initialize.
Local Open Scope string_scope.
Local Open Scope list_scope.

Lemma for_statements_spec db (statements : list string) : forall position,
  match for_statements db position statements with
  | (issued, None) =>
    issued = List.filter nonempty statements /\
    (forall i, (i < length issued)%nat -> resolves (query db (position + i)) = true)
  | (issued, Some message) =>
    exists k, issued = take (S k) (List.filter nonempty statements) /\
      (k < length (List.filter nonempty statements))%nat /\
      (forall i, (i < k)%nat -> resolves (query db (position + i)) = true) /\
      query db (position + k) = Throws message
  end.
Proof.
  induction statements as [|statement rest IH]; intros position; cbn [for_statements List.filter].
  - split; [reflexivity|]. cbn. lia.
  - assert (nonempty statement = negb (String.eqb statement EmptyString)) as -> by reflexivity.
    destruct (String.eqb statement EmptyString); cbn [negb]; [apply IH|].
    destruct (query db position) as [[]|message] eqn:Hq.
    + specialize (IH (S position)).
      destruct (for_statements db (S position) rest) as [issued [message|]].
      * destruct IH as (k & Hissued & Hk & Hbefore & Hat).
        exists (S k). cbn [take length]. split; [congruence|]. split; [lia|]. split.
        -- intros [|i] Hi; [rewrite Nat.add_0_r, Hq; reflexivity|].
           rewrite Nat.add_succ_r. apply (Hbefore i). lia.
        -- rewrite Nat.add_succ_r. exact Hat.
      * destruct IH as [Hissued Hall]. split; [congruence|].
        intros [|i] Hi; [rewrite Nat.add_0_r, Hq; reflexivity|].
        rewrite Nat.add_succ_r. apply (Hall i). cbn in Hi. lia.
    + exists 0%nat. cbn [take length]. rewrite Nat.add_0_r.
      split; [destruct (List.filter nonempty rest); reflexivity|].
      split; [lia|]. split; [lia|exact Hq].
Qed.

Lemma executed_filter schema : executed schema = List.filter nonempty (split_statements schema).
Proof. reflexivity. Qed.

Ltac throws_after issued first :=
  let Hrollback := fresh "Hrollback" in
  cbn [result queries released];
  destruct (query _ (length issued)) as [[]|?] eqn:Hrollback;
  (split; [reflexivity|]); exists issued, first;
  (split; [reflexivity|]); (split; [rewrite Hrollback; reflexivity|]).

(** X21. [initializeDatabase] runs the schema as one transaction. When
    [getClient()] throws, no query is issued and there is no client to
    release. Otherwise the client is released, and: the call resolves (with
    [true]) exactly when the schema was read and every query resolved, the
    queries being [BEGIN], the non-empty statements of the schema in order,
    and [COMMIT]; when the read or a query throws, the queries issued are
    those up to the first that threw, followed by [ROLLBACK] and nothing
    else, and the call throws the error of that query (of the read), or the
    error of the [ROLLBACK] if that throws too. A failed read of the schema
    issues [ROLLBACK] alone. *)
Theorem initializeDatabase_transaction (db : database) :
  let r := initializeDatabase db in
  match connect db, result r with
  | Throws message, settles =>
    settles = Throws message /\ queries r = [] /\ released r = false
  | Resolves _, Resolves value =>
    value = true /\ released r = true /\
    exists schema,
      readFileSync db = Resolves schema /\
      queries r = transaction schema /\
      forall i, (i < length (queries r))%nat -> resolves (query db i) = true
  | Resolves _, Throws message =>
    released r = true /\
    exists issued first,
      queries r = issued ++ ["ROLLBACK"] /\
      message = match query db (length issued) with
                | Resolves _ => first
                | Throws message' => message'
                end /\
      match readFileSync db with
      | Throws message' => issued = [] /\ first = message'
      | Resolves schema =>
        exists k,
          issued = take (S k) (transaction schema) /\
          (k < length (transaction schema))%nat /\
          (forall i, (i < k)%nat -> resolves (query db i) = true) /\
          query db k = Throws first
      end
  end.
Proof.
  cbv zeta. unfold initializeDatabase, try_block, transaction.
  destruct (connect db) as [[]|message]; [|cbn; auto].
  destruct (readFileSync db) as [schema|message].
  2:{ throws_after (@nil string) message; auto. }
  destruct (query db 0) as [[]|message] eqn:Hbegin.
  2:{ throws_after ["BEGIN"] message;
        (exists 0%nat; split; [reflexivity|]; cbn [length]; split; [lia|];
         split; [lia|exact Hbegin]). }
  pose proof (for_statements_spec db (split_statements schema) 1) as Hloop.
  rewrite executed_filter.
  destruct (for_statements db 1 (split_statements schema)) as [issued [message|]].
  - destruct Hloop as (k & Hissued & Hk & Hbefore & Hat).
    throws_after ("BEGIN" :: issued) message;
      (exists (S k); split; [|split; [|split]];
       [ rewrite Hissued; cbn [take]; f_equal;
         rewrite (take_app_le _ _ (S k)) by lia; reflexivity
       | cbn [length]; rewrite length_app; cbn [length]; lia
       | intros [|i] Hi; [rewrite Hbegin; reflexivity|]; apply (Hbefore i); lia
       | exact Hat ]).
  - destruct Hloop as [Hissued Hall].
    destruct (query db (S (length issued))) as [[]|message] eqn:Hcommit.
    + cbn [result queries released].
      split; [reflexivity|]. split; [reflexivity|]. exists schema.
      split; [reflexivity|]. split; [rewrite Hissued; reflexivity|].
      cbn [length]. rewrite length_app. cbn [length].
      intros [|i] Hi; [rewrite Hbegin; reflexivity|].
      destruct (decide (i < length issued)%nat) as [Hlt|Hge]; [apply (Hall i Hlt)|].
      assert (i = length issued) as -> by lia. rewrite Hcommit. reflexivity.
    + throws_after ("BEGIN" :: issued ++ ["COMMIT"]) message;
        (exists (S (length issued)); rewrite <- Hissued; split; [|split; [|split]];
         [ rewrite take_ge; [reflexivity|]; cbn [length]; rewrite length_app; cbn [length]; lia
         | cbn [length]; rewrite length_app; cbn [length]; lia
         | intros [|i] Hi; [rewrite Hbegin; reflexivity|]; apply (Hall i); lia
         | exact Hcommit ]).
Qed.

Example rollback_after_the_second_statement :
  result (initializeDatabase rejecting_third) = Throws "relation does not exist" /\
  queries (initializeDatabase rejecting_third)
  = take 3 (transaction trigger_function) ++ ["ROLLBACK"] /\
  length (transaction trigger_function) = 4%nat.
Proof. vm_compute. auto. Qed.

End InitializeFacts.

(** * Properties of the UPDATE statements *)

Module SqlFacts.
Import Sql.
Local Open Scope string_scope.
Local Open Scope list_scope.

Section Update.

Variable value : Type.

Lemma forEach_loop (updates : list (string * value)) : forall b : builder value,
  let b' := foldl (forEach_entry value) b updates in
  fields value b' = fields value b
    ++ imap (fun i entry => (fst entry ++ " = $" ++ pretty (paramCount value b + i)%nat)%string)
            updates /\
  values value b' = values value b ++ (snd <$> updates) /\
  paramCount value b' = (paramCount value b + length updates)%nat.
Proof.
  induction updates as [|entry updates IH]; intros b; cbn.
  - rewrite !app_nil_r, Nat.add_0_r. auto.
  - destruct (IH (forEach_entry value b entry)) as (Hf & Hv & Hp).
    rewrite Hf, Hv, Hp. cbn. rewrite <- !app_assoc. cbn.
    rewrite Nat.add_0_r. split; [|split; [reflexivity|lia]].
    do 2 f_equal. apply imap_ext. intros i x _. cbn.
    rewrite Nat.add_succ_r. reflexivity.
Qed.

(** X14. The statement of [updateBatch] and [updateSubmission] and its
    parameters fit together: for [n] entries of [updates], in their order, the
    [i]-th field is set from placeholder [$i], the parameter bound to it is the
    [i]-th value, and the key of the WHERE clause is the last parameter, bound
    to placeholder [$(n+1)], the length of the array of parameters. *)
Theorem update_placeholders_match_values (table column : string)
    (updates : list (string * value)) (key : value) :
  let statement := update_statement value table column updates key in
  snd statement = (snd <$> updates) ++ [key] /\
  fst statement
  = ("UPDATE " ++ table ++ " SET "
     ++ join ", " (imap (fun i entry => (fst entry ++ " = $" ++ pretty (S i))%string) updates)
     ++ " WHERE " ++ column ++ " = $" ++ pretty (length (snd statement)))%string /\
  (forall (i : nat) (entry : string * value),
     updates !! i = Some entry ->
     snd statement !! i = Some (snd entry)) /\
  snd statement !! length updates = Some key.
Proof.
  unfold update_statement.
  destruct (forEach_loop updates {| fields := []; values := []; paramCount := 1 |})
    as (Hf & Hv & Hp).
  cbn in Hf, Hv, Hp. cbn [fst snd]. rewrite Hf, Hv, Hp.
  split; [reflexivity|]. split; [|split].
  - rewrite length_app, length_fmap. cbn.
    replace (length updates + 1)%nat with (S (length updates)) by lia. reflexivity.
  - intros i entry Hi. rewrite lookup_app_l by (rewrite length_fmap; eapply lookup_lt_Some, Hi).
    rewrite list_lookup_fmap, Hi. reflexivity.
  - rewrite lookup_app_r by (rewrite length_fmap; lia).
    rewrite length_fmap, Nat.sub_diag. reflexivity.
Qed.

End Update.

End SqlFacts.

(** * Properties of the client *)

Module FaxApiFacts.

Import Dispatcher JsString FaxApi JsStringFacts.
Local Open Scope string_scope.
Local Open Scope list_scope.
Local Open Scope Z_scope.

(** X17. [login] resolves only for a response with status 200, one of whose
    [set-cookie] headers starts with [rf-auth=], and whose body is neither
    [null] nor [undefined]; the session cookie it keeps is that header up to
    its first semicolon, so it starts with [rf-auth=], holds no semicolon
    (none of the cookie's attributes) and [isLoggedIn] answers true. In every
    other case [login] throws a message that starts with
    ['Failed to login to fax server: ']. It then leaves the session cookie as
    it was, except when the status and the cookie were right and only the
    body is [null] or [undefined]: the cookie was stored before the body is
    read, so [login] throws and [isLoggedIn] answers true all the same. *)
Theorem login_session_cookie (value : Type) (get : outcome (login_response value))
    (sessionCookie : option string) :
  match login get sessionCookie with
  | (Resolves result, cookie_after) =>
    exists response header rest d,
      get = Resolves response /\
      stores response header rest cookie_after /\
      data response = Fields d /\
      result = {| user := User d; account := Account d; server := Server d;
                  serverVersion := ServerVersion d |} /\
      String.prefix "rf-auth=" (before_semicolon header) = true /\
      includes ";" (before_semicolon header) = false /\
      isLoggedIn cookie_after = true
  | (Throws message, cookie_after) =>
    String.prefix "Failed to login to fax server: " message = true /\
    (cookie_after = sessionCookie \/
     exists response header rest,
       get = Resolves response /\
       stores response header rest cookie_after /\
       (data response = Null \/ data response = Undefined) /\
       isLoggedIn cookie_after = true)
  end.
Proof.
  unfold login, login_failed.
  destruct get as [response|message]; [|split; [apply prefix_append|left; reflexivity]].
  destruct (Z.eqb_spec (status response) 200) as [Hstatus|_];
    [|split; [apply prefix_append|left; reflexivity]].
  destruct (set_cookie response) as [[|cookie cookies]|] eqn:Hcookies;
    [split; [apply prefix_append|left; reflexivity]|
    |split; [apply prefix_append|left; reflexivity]].
  destruct (List.find (String.prefix "rf-auth=") (cookie :: cookies)) as [header|] eqn:Hfind;
    [|split; [apply prefix_append|left; reflexivity]].
  apply List.find_some in Hfind as [Hin Hprefix].
  destruct (before_semicolon_rest header) as (rest & Hheader & Hrest).
  assert (stores response header rest (Some (before_semicolon header))) as Hstores.
  { split; [exact Hstatus|].
    split; [exists (cookie :: cookies); split; [exact Hcookies|apply list_elem_of_In, Hin]|].
    split; [exact Hprefix|]. split; [exact Hheader|]. split; [exact Hrest|reflexivity]. }
  destruct (data response) as [| |d] eqn:Hdata; cbn [read_body].
  - split; [apply prefix_append|]. right. exists response, header, rest. auto.
  - split; [apply prefix_append|]. right. exists response, header, rest. auto.
  - exists response, header, rest, d.
    split; [reflexivity|]. split; [exact Hstores|]. split; [exact Hdata|].
    split; [reflexivity|].
    split; [apply before_semicolon_prefix; [exact Hprefix|reflexivity]|].
    split; [apply before_semicolon_clean|reflexivity].
Qed.

(** The attributes of the cookie are dropped. *)
Example login_keeps_the_pair_only :
  snd (login (Resolves welcome) None) = Some "rf-auth=0123abcd".
Proof. reflexivity. Qed.

(** With a [null] body [login] throws and the client holds the cookie. *)
Example login_throws_with_the_cookie_kept :
  login (Resolves welcome_without_body) None
  = (Throws "Failed to login to fax server: Cannot read properties of null (reading 'User')",
     Some "rf-auth=0123abcd").
Proof. reflexivity. Qed.

End FaxApiFacts.

(** * Properties of the metrics collector *)

Module CollectorFacts.
Import Js Metrics Collector.
Local Open Scope string_scope.
Local Open Scope list_scope.
Local Open Scope Z_scope.

Lemma bucket_of_hour (a b : Z) :
  startOfHour a = startOfHour b -> startOfDay a = startOfDay b /\ getHours a = getHours b.
Proof.
  unfold startOfHour, startOfDay, getHours. intros H.
  assert (a / 3600000 = b / 3600000) as Hq.
  { pose proof (Z.div_mod a 3600000 ltac:(lia)). pose proof (Z.div_mod b 3600000 ltac:(lia)).
    lia. }
  assert (forall x, x mod 86400000 = 3600000 * ((x / 3600000) mod 24) + x mod 3600000) as Hmod.
  { intros x. change 86400000 with (3600000 * 24). rewrite Z.rem_mul_r by lia. lia. }
  assert (forall x, x mod 86400000 / 3600000 = (x / 3600000) mod 24) as Hh.
  { intros x. rewrite Hmod.
    pose proof (Z.mod_pos_bound x 3600000 ltac:(lia)).
    rewrite Z.mul_comm, Z.div_add_l by lia. rewrite (Z.div_small (x mod 3600000)) by lia. lia. }
  split.
  - rewrite !Hmod, Hq. lia.
  - rewrite !Hh, Hq. reflexivity.
Qed.

Lemma SUM_CASE {A} (p : A -> bool) (rows : list A) :
  parseInt_or (SUM ((fun r => CASE (p r)) <$> rows)) 0
  = Z.of_nat (length (List.filter p rows)).
Proof.
  unfold SUM.
  assert (omap id ((fun r => CASE (p r)) <$> rows)
          = (fun r => if p r then 1 else 0) <$> rows) as ->.
  { induction rows as [|r rows IH]; [reflexivity|]. cbn. rewrite IH. reflexivity. }
  destruct rows as [|r rows]; [reflexivity|]. cbn [fmap list_fmap].
  assert (forall acc, 0 <= acc ->
            foldl Z.add acc ((fun r => if p r then 1 else 0) <$> rows)
            = acc + Z.of_nat (length (List.filter p rows))) as Hsum.
  { induction rows as [|x rows IH]; intros acc Hacc; simpl; [lia|].
    rewrite IH by (destruct (p x); lia). destruct (p x); simpl; lia. }
  rewrite Hsum by (destruct (p r); lia).
  unfold parseInt_or. simpl. destruct (p r); simpl.
  - destruct (Z.eqb_spec (1 + Z.of_nat (length (List.filter p rows))) 0); lia.
  - destruct (Z.eqb_spec (0 + Z.of_nat (length (List.filter p rows))) 0); lia.
Qed.

Lemma parseInt_or_0 (v : Z) : parseInt_or (Some v) 0 = v.
Proof. unfold parseInt_or. destruct (Z.eqb_spec v 0); congruence. Qed.

(** The counts a collection hands to [updateMetrics]. *)
Lemma record_counts (c : collection) :
  let v := vals (record_of (now c)
                   (query (startOfHour (now c)) (startOfHour (now c) + 60 * 60 * 1000)
                          (fax_submissions c))) in
  total_submitted v = Some (submitted c) /\
  total_succeeded v = Some (with_status "sent" c) /\
  total_failed v = Some (with_status "failed" c).
Proof.
  cbn [vals record_of query total_submitted total_succeeded total_failed
       q_total_submitted q_total_succeeded q_total_failed].
  rewrite parseInt_or_0, !SUM_CASE. repeat split.
Qed.

(** A collection whose calls resolve adds its counts to the bucket of its
    hour, or creates the bucket with them. *)
Lemma collect_bucket (c : collection) (t : gmap (Z * Z) values) :
  query_ok c = true -> updateMetrics_ok c = true ->
  exists v, collect t c !! (startOfDay (now c), getHours (now c)) = Some v /\
    match t !! (startOfDay (now c), getHours (now c)) with
    | None =>
      total_submitted v = Some (submitted c) /\
      total_succeeded v = Some (with_status "sent" c) /\
      total_failed v = Some (with_status "failed" c)
    | Some old =>
      total_submitted v = plus (total_submitted old) (Some (submitted c)) /\
      total_succeeded v = plus (total_succeeded old) (Some (with_status "sent" c)) /\
      total_failed v = plus (total_failed old) (Some (with_status "failed" c))
    end.
Proof.
  intros Hq Hu. unfold collect, collectMetrics. rewrite Hq, Hu. cbn [default].
  destruct (record_counts c) as (H1 & H2 & H3).
  unfold upsert. cbn [date hour record_of].
  destruct (t !! (startOfDay (now c), getHours (now c))) as [old|] eqn:Hold;
    eexists; (split; [apply lookup_insert_eq|]).
  - cbn [do_update total_submitted total_succeeded total_failed].
    rewrite H1, H2, H3. repeat split.
  - repeat split; assumption.
Qed.

Lemma collections_bucket (now0 : Z) (cs : list collection) :
  Forall (fun c => startOfHour (now c) = startOfHour now0 /\
                   query_ok c = true /\ updateMetrics_ok c = true) cs ->
  forall (t : gmap (Z * Z) values) (old : values) (a b d : Z),
  t !! (startOfDay now0, getHours now0) = Some old ->
  total_submitted old = Some a -> total_succeeded old = Some b -> total_failed old = Some d ->
  exists v, collections cs t !! (startOfDay now0, getHours now0) = Some v /\
    total_submitted v = Some (a + total submitted cs) /\
    total_succeeded v = Some (b + total (with_status "sent") cs) /\
    total_failed v = Some (d + total (with_status "failed") cs).
Proof.
  induction 1 as [|c cs (Hhour & Hq & Hu) _ IH]; intros t old a b d Hold Ha Hb Hd.
  - exists old. cbn. rewrite !Z.add_0_r. auto.
  - destruct (bucket_of_hour _ _ Hhour) as [Hday Hh].
    destruct (collect_bucket c t Hq Hu) as (v & Hv & Hcounts).
    rewrite Hday, Hh in Hv, Hcounts. rewrite Hold in Hcounts.
    rewrite Ha, Hb, Hd in Hcounts. cbn [plus] in Hcounts.
    destruct Hcounts as (H1 & H2 & H3).
    destruct (IH (collect t c) v _ _ _ Hv H1 H2 H3) as (v' & Hv' & H1' & H2' & H3').
    exists v'. cbn [collections foldl total foldr]. split; [exact Hv'|].
    rewrite H1', H2', H3'. unfold total. repeat split; f_equal; lia.
Qed.

Lemma total_same (f : collection -> Z) (cs : list collection) (x : Z) :
  Forall (fun c => f c = x) cs -> total f cs = Z.of_nat (length cs) * x.
Proof.
  induction 1 as [|c cs Hc _ IH]; [reflexivity|].
  cbn [total foldr length]. fold (total f cs). rewrite IH, Hc. lia.
Qed.

(** X18. Every run of [collectMetrics] adds the aggregate of the whole
    current hour to the hour's bucket: after the runs of one hour into a
    bucket that did not exist, the bucket's [total_submitted],
    [total_succeeded] and [total_failed] are the sums, over the runs, of the
    numbers of submissions of the hour (with status ['sent'], ['failed']) each
    run found; when every run finds the same [n] submissions, [k] runs leave
    [total_submitted] at [k * n]. *)
Theorem collections_add_up (now0 : Z) (c : collection) (cs : list collection)
    (fax_metrics : gmap (Z * Z) values) :
  fax_metrics !! (startOfDay now0, getHours now0) = None ->
  Forall (fun c => startOfHour (now c) = startOfHour now0 /\
                   query_ok c = true /\ updateMetrics_ok c = true) (c :: cs) ->
  exists bucket,
    collections (c :: cs) fax_metrics !! (startOfDay now0, getHours now0) = Some bucket /\
    total_submitted bucket = Some (total submitted (c :: cs)) /\
    total_succeeded bucket = Some (total (with_status "sent") (c :: cs)) /\
    total_failed bucket = Some (total (with_status "failed") (c :: cs)) /\
    (Forall (fun c' => submitted c' = submitted c) cs ->
     total_submitted bucket = Some (Z.of_nat (length (c :: cs)) * submitted c)).
Proof.
  intros Hnone Hall. apply Forall_cons in Hall as [(Hhour & Hq & Hu) Hall].
  destruct (bucket_of_hour _ _ Hhour) as [Hday Hh].
  destruct (collect_bucket c fax_metrics Hq Hu) as (v & Hv & Hcounts).
  rewrite Hday, Hh in Hv, Hcounts. rewrite Hnone in Hcounts.
  destruct Hcounts as (H1 & H2 & H3).
  destruct (collections_bucket now0 cs Hall (collect fax_metrics c) v _ _ _ Hv H1 H2 H3)
    as (v' & Hv' & H1' & H2' & H3').
  exists v'. cbn [total foldr]. split; [exact Hv'|].
  split; [exact H1'|]. split; [exact H2'|]. split; [exact H3'|].
  intros Hsame. rewrite H1'. f_equal.
  rewrite (total_same submitted cs (submitted c) Hsame). cbn [length]. lia.
Qed.

Lemma collections_add_up_witness :
  exists bucket,
    collections two_collections ∅ !! (startOfDay 36000000, getHours 36000000) = Some bucket /\
    total_submitted bucket = Some 4.
Proof.
  destruct (collections_add_up 36000000
              {| now := 36000000 + 60000;
                 fax_submissions := [sent_row 36000100 "a"; sent_row 36000200 "b"];
                 query_ok := true; updateMetrics_ok := true |}
              [ {| now := 36000000 + 360000;
                   fax_submissions := [sent_row 36000100 "a"; sent_row 36000200 "b"];
                   query_ok := true; updateMetrics_ok := true |} ] ∅)
    as (bucket & Hb & _ & _ & _ & Hsame).
  - reflexivity.
  - repeat constructor.
  - exists bucket. split; [exact Hb|]. apply Hsame. repeat constructor.
Defined.

End CollectorFacts.

(** ** Properties of the activity log *)

Module RendererFacts.
Import Renderer.
Local Open Scope list_scope.

Section Log.

Variable entry : Type.

Lemma removelast_take (l : list entry) : removelast l = take (length l - 1) l.
Proof.
  induction l as [|x [|y l] IH]; [reflexivity..|].
  change (removelast (x :: y :: l)) with (x :: removelast (y :: l)).
  rewrite IH. cbn [length]. replace (S (S (length l)) - 1)%nat with (S (S (length l) - 1)) by lia.
  reflexivity.
Qed.

Lemma remove_over_100_take (fuel : nat) : forall children : list entry,
  (length children <= 100 + fuel)%nat ->
  remove_over_100 entry fuel children = take 100 children.
Proof.
  induction fuel as [|fuel IH]; intros children Hlen; cbn [remove_over_100].
  - rewrite take_ge by lia. reflexivity.
  - destruct (Nat.ltb_spec 100 (length children)) as [Hover|Hfits].
    + rewrite IH by (rewrite removelast_take, length_take; lia).
      rewrite removelast_take, take_take. f_equal. lia.
    + rewrite take_ge by lia. reflexivity.
Qed.

Lemma logActivity_take (logEntry : entry) (children : list entry) :
  logActivity entry logEntry children = take 100 (logEntry :: children).
Proof. unfold logActivity. apply remove_over_100_take. lia. Qed.

Lemma take_app_take (l l' : list entry) : forall n m : nat,
  (n <= m)%nat -> take n (l ++ take m l') = take n (l ++ l').
Proof.
  induction l as [|x l IH]; intros n m Hnm; cbn [app].
  - rewrite take_take. f_equal. lia.
  - destruct n as [|n]; [reflexivity|]. cbn [take]. f_equal. apply IH. lia.
Qed.

(** X22. The activity log shows the latest hundred entries, newest first.
    After one or more calls of [logActivity], whatever the log held before,
    its children are the first hundred of: the entries logged, latest first,
    followed by the children it had. So it holds at most 100 entries, and
    each of the latest hundred logged is there, at its place from the top. *)
Theorem activity_log_latest_100 (logEntry : entry) (logged children : list entry) :
  let log := log_after entry (logEntry :: logged) children in
  log = take 100 (rev (logEntry :: logged) ++ children) /\
  (length log <= 100)%nat /\
  (forall i e, (i < 100)%nat -> rev (logEntry :: logged) !! i = Some e -> log !! i = Some e).
Proof.
  assert (log_after entry (logEntry :: logged) children
          = take 100 (rev (logEntry :: logged) ++ children)) as Hlog.
  { revert logEntry children. induction logged as [|e' logged IH]; intros e children.
    - cbn. apply logActivity_take.
    - change (log_after entry (e :: e' :: logged) children)
        with (log_after entry (e' :: logged) (logActivity entry e children)).
      rewrite IH, logActivity_take.
      rewrite take_app_take by lia.
      cbn [rev]. rewrite <- !app_assoc. reflexivity. }
  cbv zeta. split; [exact Hlog|]. rewrite Hlog. split; [rewrite length_take; lia|].
  intros i e Hi He. rewrite lookup_take_lt by exact Hi.
  apply lookup_app_l_Some, He.
Qed.

End Log.

End RendererFacts.
